(** * svg-video: the timing analyzer, the recorder and the command line,
      embedded and verified

    A shallow embedding of [src/lib/utils.ts] ([parseTime],
    [validatePositiveNumber], [deleteFile]), [src/lib/svg-analyzer.ts]
    ([extractDimensions], [parseNumericAttribute], [analyzeAnimations],
    [parseAnimationTiming], [analyzeSVG]), [src/lib/recorder.ts]
    ([recordAnimation]), [src/lib/video-processor.ts] ([checkFFmpeg],
    [processVideo]) and the command-line entry point ([main]).

    Modelling conventions.
    - A JavaScript string is a [string]; its characters stand for code
      units below 256.
    - A JavaScript number is a [number]: [NaN], the two infinities, or a
      finite value kept as an exact rational.  Rounding to binary64 and
      the sign of zero are not modelled; [NaN] and the infinities are,
      because the control flow of the analyzer depends on them.  A
      statement that would not survive rounding is made only for numbers
      up to [MAX_SAFE_INTEGER], where the operations it involves are
      exact in binary64 as well.
    - [T | null] is [option T]; a function that throws returns a [result].
    - An element is a tag name, an attribute map and its child elements.
    - What the program calls outside itself (the browser, the recorder, the
      file system, FFmpeg) is a function that says, for each call, whether
      it returns or throws; the program is the sequence of calls it makes
      and how it ends. *)

From Stdlib Require Import Ascii String QArith Qcanon Qround Lqa Sorted.
From stdpp Require Import base decidable option numbers list strings pretty gmap.

Local Open Scope string_scope.
Local Open Scope Z_scope.

(** ** JavaScript numbers *)

Module Num.

Inductive number : Type :=
  | NaN
  | NegInfinity
  | PosInfinity
  | Fin (q : Qc).

#[global] Instance number_eq_dec : EqDecision number.
Proof. solve_decision. Defined.

Definition of_Z (z : Z) : number := Fin (Q2Qc (inject_Z z)).

Definition isNaN (a : number) : bool :=
  match a with NaN => true | _ => false end.

(** [a < b]; false as soon as one side is [NaN]. *)
Definition lt (a b : number) : bool :=
  match a, b with
  | NaN, _ | _, NaN => false
  | _, NegInfinity => false
  | NegInfinity, _ => true
  | PosInfinity, _ => false
  | Fin _, PosInfinity => true
  | Fin x, Fin y => bool_decide (x < y)%Qc
  end.

(** [a > b] *)
Definition gt (a b : number) : bool := lt b a.

(** [a <= b]: neither side is [NaN] and [b < a] is false. *)
Definition le (a b : number) : bool :=
  negb (isNaN a) && negb (isNaN b) && negb (lt b a).

Definition sign_pos (q : Qc) : bool := bool_decide (0 < q)%Qc.
Definition is_zero (q : Qc) : bool := bool_decide (q = 0%Qc).

Definition neg (a : number) : number :=
  match a with
  | NaN => NaN
  | NegInfinity => PosInfinity
  | PosInfinity => NegInfinity
  | Fin q => Fin (- q)%Qc
  end.

(** [a * b] *)
Definition mul (a b : number) : number :=
  match a, b with
  | NaN, _ | _, NaN => NaN
  | Fin x, Fin y => Fin (x * y)%Qc
  | Fin x, PosInfinity | PosInfinity, Fin x =>
      if is_zero x then NaN
      else if sign_pos x then PosInfinity else NegInfinity
  | Fin x, NegInfinity | NegInfinity, Fin x =>
      if is_zero x then NaN
      else if sign_pos x then NegInfinity else PosInfinity
  | PosInfinity, PosInfinity | NegInfinity, NegInfinity => PosInfinity
  | PosInfinity, NegInfinity | NegInfinity, PosInfinity => NegInfinity
  end.

(** [a + b] *)
Definition add (a b : number) : number :=
  match a, b with
  | NaN, _ | _, NaN => NaN
  | Fin x, Fin y => Fin (x + y)%Qc
  | PosInfinity, NegInfinity | NegInfinity, PosInfinity => NaN
  | PosInfinity, _ | _, PosInfinity => PosInfinity
  | NegInfinity, _ | _, NegInfinity => NegInfinity
  end.

(** [Math.max(a, b)] and [Math.min(a, b)]: [NaN] is contagious. *)
Definition max2 (a b : number) : number :=
  match a, b with
  | NaN, _ | _, NaN => NaN
  | _, _ => if lt a b then b else a
  end.

Definition min2 (a b : number) : number :=
  match a, b with
  | NaN, _ | _, NaN => NaN
  | _, _ => if lt b a then b else a
  end.

(** [Math.max(...l)] and [Math.min(...l)]; on no argument they are
    [-Infinity] and [+Infinity]. *)
Definition Math_max (l : list number) : number := foldl max2 NegInfinity l.
Definition Math_min (l : list number) : number := foldl min2 PosInfinity l.

End Num.
Export Num.

Declare Scope num_scope.
Delimit Scope num_scope with num.
Bind Scope num_scope with number.
Notation "0" := (of_Z 0) : num_scope.
Notation "1" := (of_Z 1) : num_scope.
Infix "*" := mul : num_scope.
Infix "+" := add : num_scope.

(** ** Strings, the two regular expressions, and [parseFloat] *)

Module Str.

Definition code (c : ascii) : N := N_of_ascii c.

(** [\d] *)
Definition is_digit (c : ascii) : bool :=
  (48 <=? code c)%N && (code c <=? 57)%N.

(** [[\d.]] *)
Definition is_digit_or_dot (c : ascii) : bool :=
  is_digit c || bool_decide (c = "."%char).

(** [\s], and the characters [trim] removes: tab, line feed, vertical
    tab, form feed, carriage return, space, no-break space. *)
Definition is_white_space (c : ascii) : bool :=
  ((9 <=? code c)%N && (code c <=? 13)%N)
  || bool_decide (code c = 32%N) || bool_decide (code c = 160%N).

(** Longest prefix whose characters satisfy [p], and the rest. *)
Fixpoint span (p : ascii → bool) (s : string) : string * string :=
  match s with
  | String c s' =>
      if p c then let '(a, b) := span p s' in (String c a, b)
      else (EmptyString, s)
  | EmptyString => (EmptyString, EmptyString)
  end.

Fixpoint drop_while (p : ascii → bool) (s : string) : string :=
  match s with
  | String c s' => if p c then drop_while p s' else s
  | EmptyString => EmptyString
  end.

(** [s.trimStart()], [s.trimEnd()], [s.trim()] *)
Definition trimStart (s : string) : string := drop_while is_white_space s.

Fixpoint trimEnd (s : string) : string :=
  match s with
  | String c s' =>
      match trimEnd s' with
      | EmptyString => if is_white_space c then EmptyString else String c EmptyString
      | t => String c t
      end
  | EmptyString => EmptyString
  end.

Definition trim (s : string) : string := trimEnd (trimStart s).

(** [s.split(/\s+/)]: the pieces between maximal runs of white space.
    [cur] is the piece being read, [in_run] says the previous character
    was white space. *)
Fixpoint split_go (s cur : string) (in_run : bool) : list string :=
  match s with
  | EmptyString => [cur]
  | String c s' =>
      if is_white_space c then
        if in_run then split_go s' cur true
        else cur :: split_go s' EmptyString true
      else split_go s' (cur +:+ String c EmptyString) false
  end.

Definition split_ws (s : string) : list string := split_go s EmptyString false.

(** ASCII lower case, enough for the unit of [parseTime]. *)
Definition lower (c : ascii) : ascii :=
  if (65 <=? code c)%N && (code c <=? 90)%N
  then ascii_of_N (code c + 32) else c.

Fixpoint toLowerCase (s : string) : string :=
  match s with
  | String c s' => String (lower c) (toLowerCase s')
  | EmptyString => EmptyString
  end.

(** [s.match(/^([\d.]+)/)]: the first group, when there is a match. *)
Definition match_numeric_prefix (s : string) : option string :=
  match fst (span is_digit_or_dot s) with
  | EmptyString => None
  | g => Some g
  end.

(** [s.match(/^([\d.]+)(ms|s)$/i)]: the two groups.  Neither [m] nor [s]
    is in [[\d.]], so the first group of a match is the longest prefix
    of digits and dots, and the rest has to be the unit, in either case. *)
Definition match_time (s : string) : option (string * string) :=
  let '(g1, g2) := span is_digit_or_dot s in
  match g1 with
  | EmptyString => None
  | _ =>
      if bool_decide (toLowerCase g2 = "ms") || bool_decide (toLowerCase g2 = "s")
      then Some (g1, g2) else None
  end.

(** Value of a run of decimal digits, most significant first. *)
Definition digit_value (c : ascii) : Z := Z.of_N (code c) - 48.

Fixpoint digits_value (acc : Z) (s : string) : Z :=
  match s with
  | String c s' => digits_value (10 * acc + digit_value c) s'
  | EmptyString => acc
  end.

(** [m * 10^e] for integers [m] and [e]. *)
Definition scale10 (m e : Z) : Qc :=
  if (0 <=? e)%Z then Q2Qc (inject_Z (m * 10 ^ e))
  else Q2Qc (Qmake m (Z.to_pos (10 ^ (- e)))).

(** [ExponentPart]: [e] or [E], an optional sign, at least one digit.
    The exponent is 0 when the text does not continue with one. *)
Definition exponent (s : string) : Z :=
  match s with
  | String c r =>
      if bool_decide (c = "e"%char) || bool_decide (c = "E"%char) then
        match r with
        | String sg r' =>
            if bool_decide (sg = "-"%char) then - digits_value 0 (fst (span is_digit r'))
            else if bool_decide (sg = "+"%char) then digits_value 0 (fst (span is_digit r'))
            else digits_value 0 (fst (span is_digit r))
        | EmptyString => 0
        end
      else 0
  | EmptyString => 0
  end.

Definition starts_with (p s : string) : bool :=
  bool_decide (substring 0 (String.length p) s = p).

(** Longest prefix of [s] that is a [StrUnsignedDecimalLiteral]:
    [Infinity], or digits with an optional fraction, or a fraction
    alone, each with an optional exponent. *)
Definition parse_unsigned (s : string) : option number :=
  if starts_with "Infinity" s then Some PosInfinity
  else
    let '(ip, r1) := span is_digit s in
    match r1 with
    | String "."%char r2 =>
        let '(fp, r3) := span is_digit r2 in
        match ip, fp with
        | EmptyString, EmptyString => None
        | _, _ =>
            Some (Fin (scale10 (digits_value 0 (ip +:+ fp))
                         (exponent r3 - Z.of_nat (String.length fp))))
        end
    | _ =>
        match ip with
        | EmptyString => None
        | _ => Some (Fin (scale10 (digits_value 0 ip) (exponent r1)))
        end
    end.

(** [parseFloat(s)]: leading white space is skipped, then the longest
    prefix that is a signed decimal literal is read; [NaN] when there is
    none. *)
Definition parseFloat (s : string) : number :=
  let t := trimStart s in
  match t with
  | String c r =>
      if bool_decide (c = "-"%char) then
        match parse_unsigned r with Some v => neg v | None => NaN end
      else if bool_decide (c = "+"%char) then
        match parse_unsigned r with Some v => v | None => NaN end
      else
        match parse_unsigned t with Some v => v | None => NaN end
  | EmptyString => NaN
  end.

End Str.
Export Str.

(** ** [src/lib/utils.ts] *)

(** The exceptions the program raises. *)
Inductive exn : Type :=
  | ValidationError (message : string)
  | ProcessingError (message : string)
  | SystemError (message : string)
  | Error (message : string).

#[global] Instance exn_eq_dec : EqDecision exn.
Proof. solve_decision. Defined.

Inductive result (A : Type) : Type :=
  | Ok (a : A)
  | Throw (e : exn).
Arguments Ok {A} a.
Arguments Throw {A} e.

#[global] Instance result_eq_dec `{EqDecision A} : EqDecision (result A).
Proof. solve_decision. Defined.

(** [parseTime(timeStr)] *)
Definition parseTime (timeStr : string) : option number :=
  match match_time timeStr with
  | None => None
  | Some (g1, g2) =>
      let value := parseFloat g1 in
      let unit := toLowerCase g2 in
      if bool_decide (unit = "ms") then Some value
      else if bool_decide (unit = "s") then Some (value * of_Z 1000)%num
      else None
  end.

(** [validatePositiveNumber(value, name)], on a value that is a number. *)
Definition validatePositiveNumber (value : number) (name : string) : result number :=
  if isNaN value || le value 0%num
  then Throw (Error (name +:+ " must be a positive number"))
  else Ok value.

(** ** Documents *)

#[warnings="-register-all"]
Inductive Element : Type :=
  | Elem (tag : string) (attrs : gmap string string) (kids : list Element).

Definition tagName (e : Element) : string :=
  match e with Elem t _ _ => t end.

Definition attributes (e : Element) : gmap string string :=
  match e with Elem _ a _ => a end.

(** [element.getAttribute(name)] *)
Definition getAttribute (e : Element) (name : string) : option string :=
  attributes e !! name.

(** The element with its attribute [name] set to [value]. *)
Definition setAttribute (e : Element) (name value : string) : Element :=
  match e with Elem t a k => Elem t (<[name := value]> a) k end.

(** All elements below [e], in document order. *)
Fixpoint descendants (e : Element) : list Element :=
  match e with
  | Elem _ _ kids => flat_map (λ k, k :: descendants k) kids
  end.

(** [element.getElementsByTagName(name)] *)
Definition getElementsByTagName (e : Element) (name : string) : list Element :=
  filter (λ d, tagName d = name) (descendants e).

(** Truth value of a [string | null] in a condition. *)
Definition truthy (a : option string) : bool :=
  match a with
  | Some EmptyString | None => false
  | Some _ => true
  end.

(** Truth value of a [number | undefined] in a condition. *)
Definition truthy_number (a : option number) : bool :=
  match a with
  | None | Some NaN => false
  | Some (Fin q) => negb (is_zero q)
  | Some _ => true
  end.

(** ** [src/lib/svg-analyzer.ts] *)

Record SVGDimensions : Type := {
  width : number;
  height : number;
}.

#[global] Instance SVGDimensions_eq_dec : EqDecision SVGDimensions.
Proof. solve_decision. Defined.

Record SVGAnalysis : Type := {
  dimensions : SVGDimensions;
  duration : option number;
  hasAnimations : bool;
  hasInfiniteAnimations : bool;
  loopDuration : option number;
}.

#[global] Instance SVGAnalysis_eq_dec : EqDecision SVGAnalysis.
Proof. solve_decision. Defined.

(** [parseNumericAttribute(value)] *)
Definition parseNumericAttribute (value : string) : option number :=
  match match_numeric_prefix value with
  | None => None
  | Some g =>
      let num := parseFloat g in
      if isNaN num then None else Some num
  end.

Definition no_dimensions : string :=
  "Unable to extract valid dimensions from SVG (no width/height attributes or viewBox)".

(** The [width] and [height] variables of [extractDimensions] when its
    last test is reached. *)
Definition selectDimensions (svgElement : Element) : option number * option number :=
  let widthAttr := getAttribute svgElement "width" in
  let heightAttr := getAttribute svgElement "height" in
  let width :=
    if truthy widthAttr then parseNumericAttribute (default "" widthAttr) else None in
  let height :=
    if truthy heightAttr then parseNumericAttribute (default "" heightAttr) else None in
  if bool_decide (width = None) || bool_decide (height = None) then
    let viewBox := getAttribute svgElement "viewBox" in
    if truthy viewBox then
      let parts := split_ws (trim (default "" viewBox)) in
      if bool_decide (length parts = 4%nat) then
        (Some (parseFloat (default "" (parts !! 2%nat))),
         Some (parseFloat (default "" (parts !! 3%nat))))
      else (width, height)
    else (width, height)
  else (width, height).

(** [extractDimensions(svgElement)] *)
Definition extractDimensions (svgElement : Element) : result SVGDimensions :=
  match selectDimensions svgElement with
  | (Some width, Some height) =>
      if le width 0%num || le height 0%num
      then Throw (ValidationError no_dimensions)
      else Ok {| width := width; height := height |}
  | _ => Throw (ValidationError no_dimensions)
  end.

Module Timing.
Record t : Type := {
  endTime : option number;
  isInfinite : bool;
  baseDuration : option number;
  isExplicitInfinite : bool;
}.
End Timing.
Export Timing.

#[global] Instance Timing_eq_dec : EqDecision Timing.t.
Proof. solve_decision. Defined.

Definition MAX_REASONABLE_DURATION : number := of_Z (3600 * 1000).

(** The local variables of [parseAnimationTiming], each as a function of
    the attribute it is read from. *)
Definition baseDurationOf (durAttr : option string) : number :=
  if truthy durAttr then
    match parseTime (default "" durAttr) with
    | Some parsedDur => parsedDur
    | None => 0%num
    end
  else 0%num.

Definition beginAttrOf (element : Element) : string :=
  let a := getAttribute element "begin" in
  if truthy a then default "" a else "0s".

Definition beginTimeOf (beginAttr : string) : number :=
  match parseTime beginAttr with
  | Some parsedBegin => parsedBegin
  | None => 0%num
  end.

Definition repeatCountOf (repeatCountAttr : option string) : number :=
  if truthy repeatCountAttr && negb (bool_decide (repeatCountAttr = Some "indefinite")) then
    let parsed := parseFloat (default "" repeatCountAttr) in
    if negb (isNaN parsed) && gt parsed 0%num then parsed else 1%num
  else 1%num.

Definition repeatDurationOf (repeatDurAttr : option string) : option number :=
  if truthy repeatDurAttr && negb (bool_decide (repeatDurAttr = Some "indefinite")) then
    parseTime (default "" repeatDurAttr)
  else None.

Definition totalDurationOf (element : Element) : number :=
  match repeatDurationOf (getAttribute element "repeatDur") with
  | Some repeatDuration => repeatDuration
  | None =>
      (baseDurationOf (getAttribute element "dur")
       * repeatCountOf (getAttribute element "repeatCount"))%num
  end.

(** [parseAnimationTiming(element)] *)
Definition parseAnimationTiming (element : Element) : Timing.t :=
  let durAttr := getAttribute element "dur" in
  let beginAttr := beginAttrOf element in
  let repeatCountAttr := getAttribute element "repeatCount" in
  let repeatDurAttr := getAttribute element "repeatDur" in
  if bool_decide (durAttr = Some "indefinite") then
    {| endTime := None; isInfinite := true;
       baseDuration := None; isExplicitInfinite := false |}
  else
    let baseDuration := baseDurationOf durAttr in
    if bool_decide (repeatCountAttr = Some "indefinite") then
      {| endTime := None; isInfinite := true;
         baseDuration := Some baseDuration; isExplicitInfinite := true |}
    else if bool_decide (repeatDurAttr = Some "indefinite") then
      {| endTime := None; isInfinite := true;
         baseDuration := Some baseDuration; isExplicitInfinite := true |}
    else
      let beginTime := beginTimeOf beginAttr in
      let totalDuration := totalDurationOf element in
      if gt totalDuration MAX_REASONABLE_DURATION then
        {| endTime := None; isInfinite := true;
           baseDuration := Some baseDuration; isExplicitInfinite := false |}
      else
        {| endTime := Some (beginTime + totalDuration)%num; isInfinite := false;
           baseDuration := Some baseDuration; isExplicitInfinite := false |}.

Definition animationTags : list string :=
  ["animate"; "animateTransform"; "animateMotion"; "set"; "animateColor"].

(** The elements the two nested loops of [analyzeAnimations] visit, in
    the order they are visited. *)
Definition animationElements (svgElement : Element) : list Element :=
  flat_map (getElementsByTagName svgElement) animationTags.

(** The variables the loops of [analyzeAnimations] update. *)
Module Acc.
Record t : Type := {
  maxEndTime : number;
  hasAnimations : bool;
  hasInfiniteAnimations : bool;
  loopDurations : list number;
  infiniteLoopDurations : list number;
}.
End Acc.

Definition acc_init : Acc.t :=
  {| Acc.maxEndTime := 0%num; Acc.hasAnimations := false;
     Acc.hasInfiniteAnimations := false;
     Acc.loopDurations := []; Acc.infiniteLoopDurations := [] |}.

(** Is this base duration pushed on [loopDurations]? *)
Definition collectable (b : option number) : bool :=
  match b with
  | Some d => gt d 0%num
  | None => false
  end.

(** One turn of the inner loop. *)
Definition acc_step (a : Acc.t) (animElement : Element) : Acc.t :=
  let timing := parseAnimationTiming animElement in
  if isInfinite timing then
    if collectable (baseDuration timing) then
      let d := default NaN (baseDuration timing) in
      {| Acc.maxEndTime := Acc.maxEndTime a; Acc.hasAnimations := true;
         Acc.hasInfiniteAnimations := true;
         Acc.loopDurations := Acc.loopDurations a ++ [d];
         Acc.infiniteLoopDurations :=
           if isExplicitInfinite timing
           then Acc.infiniteLoopDurations a ++ [d]
           else Acc.infiniteLoopDurations a |}
    else
      {| Acc.maxEndTime := Acc.maxEndTime a; Acc.hasAnimations := true;
         Acc.hasInfiniteAnimations := true;
         Acc.loopDurations := Acc.loopDurations a;
         Acc.infiniteLoopDurations := Acc.infiniteLoopDurations a |}
  else
    match endTime timing with
    | Some e =>
        {| Acc.maxEndTime := max2 (Acc.maxEndTime a) e; Acc.hasAnimations := true;
           Acc.hasInfiniteAnimations := Acc.hasInfiniteAnimations a;
           Acc.loopDurations := Acc.loopDurations a;
           Acc.infiniteLoopDurations := Acc.infiniteLoopDurations a |}
    | None =>
        {| Acc.maxEndTime := Acc.maxEndTime a; Acc.hasAnimations := true;
           Acc.hasInfiniteAnimations := Acc.hasInfiniteAnimations a;
           Acc.loopDurations := Acc.loopDurations a;
           Acc.infiniteLoopDurations := Acc.infiniteLoopDurations a |}
    end.

Definition REASONABLE_LOOP : number := of_Z (600 * 1000).

(** The loop-duration computation that follows the loops. *)
Definition loopDurationOf (a : Acc.t) : option number :=
  if Acc.hasInfiniteAnimations a && bool_decide (0 < length (Acc.loopDurations a))%nat then
    if bool_decide (0 < length (Acc.infiniteLoopDurations a))%nat then
      let reasonableLoops :=
        filter (λ d, le d REASONABLE_LOOP = true) (Acc.infiniteLoopDurations a) in
      if bool_decide (0 < length reasonableLoops)%nat
      then Some (Math_max reasonableLoops)
      else Some (Math_min (Acc.infiniteLoopDurations a))
    else Some (Math_max (Acc.loopDurations a))
  else None.

Module AnimationInfo.
Record t : Type := {
  hasAnimations : bool;
  duration : option number;
  hasInfiniteAnimations : bool;
  loopDuration : option number;
}.
End AnimationInfo.

(** [analyzeAnimations], on the elements its loops visit. *)
Definition analyzeElements (elements : list Element) : AnimationInfo.t :=
  let a := foldl acc_step acc_init elements in
  {| AnimationInfo.hasAnimations := Acc.hasAnimations a;
     AnimationInfo.duration :=
       if Acc.hasAnimations a && negb (Acc.hasInfiniteAnimations a)
          && gt (Acc.maxEndTime a) 0%num
       then Some (Acc.maxEndTime a) else None;
     AnimationInfo.hasInfiniteAnimations := Acc.hasInfiniteAnimations a;
     AnimationInfo.loopDuration := loopDurationOf a |}.

(** [analyzeAnimations(svgElement)] *)
Definition analyzeAnimations (svgElement : Element) : AnimationInfo.t :=
  analyzeElements (animationElements svgElement).

(** [analyzeSVG], from the root element the parser hands back
    ([doc.documentElement], possibly [null]). *)
Definition analyzeSVG (documentElement : option Element) : result SVGAnalysis :=
  match documentElement with
  | None => Throw (ValidationError "Invalid SVG file: no <svg> root element found")
  | Some svgElement =>
      if negb (bool_decide (tagName svgElement = "svg"))
      then Throw (ValidationError "Invalid SVG file: no <svg> root element found")
      else
        match extractDimensions svgElement with
        | Throw e => Throw e
        | Ok dimensions =>
            let animationInfo := analyzeAnimations svgElement in
            Ok {| dimensions := dimensions;
                  duration := AnimationInfo.duration animationInfo;
                  hasAnimations := AnimationInfo.hasAnimations animationInfo;
                  hasInfiniteAnimations := AnimationInfo.hasInfiniteAnimations animationInfo;
                  loopDuration := AnimationInfo.loopDuration animationInfo |}
        end
  end.

(** [analyzeSVG(svgPath)] with what it calls first: [readFile] and the
    parser answer with a value or throw, and the analysis goes on from
    the root of the parsed document. *)
Definition analyzeSVG_file
    (readFile : string → result string)
    (parseFromString : string → result (option Element))
    (svgPath : string) : result SVGAnalysis :=
  match readFile svgPath with
  | Throw e => Throw e
  | Ok svgContent =>
      match parseFromString svgContent with
      | Throw e => Throw e
      | Ok documentElement => analyzeSVG documentElement
      end
  end.

(** ** The duration decision of [main] *)

(** The value [main] gives [durationMs], from the [--duration] option
    and the analysis. *)
Definition main_durationMs (optDuration : option number) (svgAnalysis : SVGAnalysis)
  : result number :=
  if truthy_number optDuration then
    match validatePositiveNumber (default NaN optDuration) "Duration" with
    | Throw e => Throw e
    | Ok durationSeconds => Ok (durationSeconds * of_Z 1000)%num
    end
  else if hasInfiniteAnimations svgAnalysis then
    match loopDuration svgAnalysis with
    | Some l =>
        if gt l 0%num then Ok l
        else Throw (ValidationError
          "SVG contains infinite animations without detectable loop duration. Please specify duration with --duration option.")
    | None =>
        Throw (ValidationError
          "SVG contains infinite animations without detectable loop duration. Please specify duration with --duration option.")
    end
  else if negb (hasAnimations svgAnalysis) then
    Throw (ValidationError
      "No animations detected in SVG. Please specify duration with --duration option.")
  else
    match duration svgAnalysis with
    | None =>
        Throw (ValidationError
          "Unable to determine animation duration. Please specify duration with --duration option.")
    | Some d => Ok d
    end.

(** ** Vocabulary of the statements *)

(** [m] is the greatest (smallest) element of [l], for [<=] on numbers. *)
Definition is_maximum (m : number) (l : list number) : Prop :=
  m ∈ l ∧ ∀ x, x ∈ l → le x m = true.

Definition is_minimum (m : number) (l : list number) : Prop :=
  m ∈ l ∧ ∀ x, x ∈ l → le m x = true.

(** A list that holds no [NaN]. *)
Definition numbers (l : list number) : Prop := Forall (λ x, isNaN x = false) l.

(** The base-loop duration a directive contributes to the loop-duration
    computation: that of an infinite window, when it is known and
    positive. *)
Definition loopContribution (e : Element) : option number :=
  let t := parseAnimationTiming e in
  if isInfinite t && collectable (baseDuration t) then baseDuration t else None.

(** The same, for windows flagged explicit-forever only. *)
Definition explicitContribution (e : Element) : option number :=
  let t := parseAnimationTiming e in
  if isExplicitInfinite t then loopContribution e else None.

Definition allLoopDurations (elements : list Element) : list number :=
  omap loopContribution elements.

Definition explicitForeverDurations (elements : list Element) : list number :=
  omap explicitContribution elements.

(** The end times of the finite windows. *)
Definition finiteEndTime (e : Element) : option number :=
  let t := parseAnimationTiming e in
  if isInfinite t then None else endTime t.

Definition endTimes (elements : list Element) : list number :=
  omap finiteEndTime elements.

(** Some window is infinite. *)
Definition anyInfinite (elements : list Element) : bool :=
  existsb (λ e, isInfinite (parseAnimationTiming e)) elements.

(** No window of the document is infinite. *)
Definition allFinite (elements : list Element) : Prop :=
  Forall (λ e, isInfinite (parseAnimationTiming e) = false) elements.

(** The directive carries no [indefinite] sentinel. *)
Definition noSentinel (e : Element) : Prop :=
  getAttribute e "dur" ≠ Some "indefinite"
  ∧ getAttribute e "repeatCount" ≠ Some "indefinite"
  ∧ getAttribute e "repeatDur" ≠ Some "indefinite".

(** The base duration of a directive, read from its attributes: what
    [parseTime] reads from [dur], and 0 when [dur] is absent or unreadable. *)
Definition baseDurationIs (e : Element) (base : number) : Prop :=
  (∃ s, getAttribute e "dur" = Some s ∧ parseTime s = Some base)
  ∨ ((getAttribute e "dur" = None
      ∨ ∃ s, getAttribute e "dur" = Some s ∧ parseTime s = None)
     ∧ base = 0%num).

(** The repeat count of a directive: what [parseFloat] reads from
    [repeatCount] when that is greater than zero, and 1 otherwise. *)
Definition repeatCountIs (e : Element) (count : number) : Prop :=
  (∃ s, getAttribute e "repeatCount" = Some s
        ∧ gt (parseFloat s) 0%num = true ∧ count = parseFloat s)
  ∨ ((getAttribute e "repeatCount" = None
      ∨ ∃ s, getAttribute e "repeatCount" = Some s ∧ gt (parseFloat s) 0%num = false)
     ∧ count = 1%num).

(** The total span of a directive: what [parseTime] reads from [repeatDur]
    when it is present and readable, else base duration times repeat
    count. *)
Definition totalSpanIs (e : Element) (total : number) : Prop :=
  (∃ s, getAttribute e "repeatDur" = Some s ∧ parseTime s = Some total)
  ∨ ((getAttribute e "repeatDur" = None
      ∨ ∃ s, getAttribute e "repeatDur" = Some s ∧ parseTime s = None)
     ∧ ∃ base count,
         baseDurationIs e base ∧ repeatCountIs e count ∧ total = (base * count)%num).

(** The number read from a size attribute of the root, if any. *)
Definition sizeAttribute (svgElement : Element) (name : string) : option number :=
  let a := getAttribute svgElement name in
  if truthy a then parseNumericAttribute (default "" a) else None.

(** The size the bounding box gives: the numbers read from the third and
    fourth of its pieces, when white space cuts it in exactly four. *)
Definition viewBoxSize (svgElement : Element) : option (number * number) :=
  let viewBox := getAttribute svgElement "viewBox" in
  if truthy viewBox then
    match split_ws (trim (default "" viewBox)) with
    | [_; _; w; h] => Some (parseFloat w, parseFloat h)
    | _ => None
    end
  else None.

(** The outcome of [extractDimensions] on a selected pair of numbers. *)
Definition positivePair (w h : number) : result SVGDimensions :=
  if gt w 0%num && gt h 0%num
  then Ok {| width := w; height := h |}
  else Throw (ValidationError no_dimensions).



(** Two elements that differ at most in their [begin] attribute. *)
Definition differ_only_in_begin (e1 e2 : Element) : Prop :=
  ∀ name, name ≠ "begin" → getAttribute e1 name = getAttribute e2 name.

(** Two documents of the same shape whose elements differ at most in
    their [begin] attributes. *)
Fixpoint same_up_to_begin (d1 d2 : Element) : Prop :=
  match d1, d2 with
  | Elem t1 a1 k1, Elem t2 a2 k2 =>
      t1 = t2
      ∧ (∀ name, name ≠ "begin" → a1 !! name = a2 !! name)
      ∧ (fix all2 (l1 l2 : list Element) : Prop :=
           match l1, l2 with
           | [], [] => True
           | x1 :: l1', x2 :: l2' => same_up_to_begin x1 x2 ∧ all2 l1' l2'
           | _, _ => False
           end) k1 k2
  end.

(** Documents of the examples. *)
Definition animate (l : list (string * string)) : Element :=
  Elem "animate" (list_to_map l) [].

Definition svg (l : list (string * string)) (kids : list Element) : Element :=
  Elem "svg" (list_to_map l) kids.

Definition doc_700_900 : Element :=
  svg [] [animate [("dur", "700s"); ("repeatCount", "indefinite")];
          animate [("dur", "900s"); ("repeatCount", "indefinite")]].

Definition doc_5_44444 : Element :=
  svg [] [animate [("dur", "5s"); ("repeatCount", "indefinite")];
          animate [("dur", "44444s"); ("repeatCount", "indefinite")]].

Definition doc_dur_indefinite : Element :=
  svg [] [animate [("dur", "indefinite")]].

Definition doc_repeat_without_dur : Element :=
  svg [] [animate [("repeatCount", "indefinite")]].

(** The start offset of a directive: its parsed [begin], 0 without one. *)
Definition startOffsetOf (element : Element) : number :=
  beginTimeOf (beginAttrOf element).

Definition directive_1s_5000 : Element :=
  animate [("dur", "1s"); ("repeatCount", "5000")].

Definition directive_1s_for_7200s : Element :=
  animate [("dur", "1s"); ("repeatDur", "7200s")].

Definition directive_A : Element :=
  animate [("begin", "0"); ("dur", "2s"); ("repeatCount", "3")].

Definition directive_B : Element :=
  animate [("begin", "1s"); ("dur", "1s"); ("repeatCount", "1")].

(** Two elements with the same tag that differ at most in [begin]. *)
Definition alike (e1 e2 : Element) : Prop :=
  tagName e1 = tagName e2 ∧ differ_only_in_begin e1 e2.

Definition analysis_finite : SVGAnalysis :=
  {| dimensions := {| width := of_Z 100; height := of_Z 50 |};
     duration := Some (of_Z 6000); hasAnimations := true;
     hasInfiniteAnimations := false; loopDuration := None |}.

Definition root_viewBox_spaces : Element := svg [("viewBox", "0 0 100 50")] [].



Definition doc_A_B : Element := svg [] [directive_A; directive_B].

Definition doc_dot_and_2s : Element :=
  svg [] [animate [("dur", ".s")]; animate [("dur", "2s")]].

(** Every character of [s] satisfies [p]. *)
Fixpoint all_chars (p : ascii → bool) (s : string) : bool :=
  match s with
  | String c s' => p c && all_chars p s'
  | EmptyString => true
  end.

(** [s] has the shape the regular expression of [parseTime] accepts: a
    non-empty run of digits and dots [g], then the unit [u]. *)
Definition time_shape (s g u : string) : Prop :=
  s = g +:+ u ∧ g ≠ "" ∧ all_chars is_digit_or_dot g = true
  ∧ (toLowerCase u = "ms" ∨ toLowerCase u = "s").

(** A number that is zero or more, infinity included. *)
Definition nonneg (a : number) : Prop := le 0%num a = true.

(** [NaN], or a number that is zero or more. *)
Definition nan_or_nonneg (a : number) : Prop := isNaN a = true ∨ nonneg a.

(** ** Vocabulary of the further properties *)

(** [Number.MAX_SAFE_INTEGER]: up to it a JavaScript number holds every
    whole number exactly, and sums, differences and products of whole
    numbers that stay below it are exact.  Statements that depend on the
    arithmetic being exact are made for numbers up to this bound. *)
Definition MAX_SAFE_INTEGER : Z := 2 ^ 53 - 1.

(** The element is one of the five kinds of animation element. *)
Definition isAnimationElement (d : Element) : Prop := tagName d ∈ animationTags.

(** The animation elements below the root, in document order. *)
Definition directives (svgElement : Element) : list Element :=
  filter isAnimationElement (descendants svgElement).

Definition doc_long_finite : Element :=
  svg [] [animate [("dur", "1s"); ("repeatCount", "5000")];
          animate [("dur", "44444s")]].

Definition root_100x50_px : Element := svg [("width", "100px"); ("height", "50px")] [].

(** The text starts with a digit or a dot. *)
Definition starts_numeric (s : string) : bool :=
  match s with
  | String c _ => is_digit_or_dot c
  | EmptyString => false
  end.

Definition root_zero_width : Element :=
  svg [("width", "0"); ("height", "50"); ("viewBox", "0 0 100 50")] [].

(** ** More of JavaScript's arithmetic *)

(** [a - b] *)
Definition sub (a b : number) : number := (a + neg b)%num.

(** [a / b].  A zero divisor counts as positive zero. *)
Definition div (a b : number) : number :=
  match a, b with
  | NaN, _ | _, NaN => NaN
  | Fin x, Fin y =>
      if is_zero y then
        if is_zero x then NaN
        else if sign_pos x then PosInfinity else NegInfinity
      else Fin (x / y)%Qc
  | Fin _, _ => Fin 0%Qc
  | PosInfinity, Fin y =>
      if is_zero y || sign_pos y then PosInfinity else NegInfinity
  | NegInfinity, Fin y =>
      if is_zero y || sign_pos y then NegInfinity else PosInfinity
  | _, _ => NaN
  end.

(** [Math.round(a)]: the nearest integer, halves upwards. *)
Definition Math_round (a : number) : number :=
  match a with
  | Fin q => of_Z (Qfloor (this q + (1 # 2)))
  | _ => a
  end.

(** ** [src/lib/recorder.ts] *)

Module RecorderOptions.
Record t : Type := {
  width : number;
  height : number;
  duration : number;
  fps : option number;
}.
End RecorderOptions.

(** The calls [recordAnimation] makes to the browser, the screen recorder
    and its callback. *)
Inductive call : Type :=
  | puppeteer_launch
  | browser_newPage
  | page_setViewport (width height : number)
  | new_PuppeteerScreenRecorder (fps width height : number)
  | page_goto (url : string)
  | page_waitForSelector (selector : string)
  | page_waitForTimeout (ms : number)
  | recorder_start (outputPath : string)
  | onProgress (progress : number)
  | recorder_stop
  | page_close
  | browser_close.

#[global] Instance call_eq_dec : EqDecision call.
Proof. solve_decision. Defined.

(** The outside world: whether a call throws, and with which message,
    given the calls made before it. *)
Definition world : Type := list call → call → option string.

(** The variables of [recordAnimation] and the calls made so far. *)
Record rstate : Type := {
  trace : list call;
  browser : bool;
  page : bool;
  recorder : bool;
}.

Inductive outcome (A : Type) : Type :=
  | Returned (a : A)
  | Threw (message : string)
  | Running.
Arguments Returned {A} a.
Arguments Threw {A} message.
Arguments Running {A}.

(** A computation that makes calls and may throw, or not have finished
    when its fuel runs out. *)
Definition M (A : Type) : Type := rstate → rstate * outcome A.

Definition ret {A} (a : A) : M A := λ s, (s, Returned a).

Definition bind {A B} (m : M A) (k : A → M B) : M B := λ s,
  match m s with
  | (s', Returned a) => k a s'
  | (s', Threw message) => (s', Threw message)
  | (s', Running) => (s', Running)
  end.

Notation "m ;;; k" := (bind m (λ _, k)) (at level 93, right associativity).

Definition logged (c : call) (s : rstate) : rstate :=
  {| trace := trace s ++ [c]; browser := browser s;
     page := page s; recorder := recorder s |}.

(** Make the call [c]: it throws or returns as the world decides. *)
Definition perform (w : world) (c : call) : M unit := λ s,
  match w (trace s) c with
  | Some message => (logged c s, Threw message)
  | None => (logged c s, Returned tt)
  end.

(** [try { c } catch { }] *)
Definition attempt (w : world) (c : call) : M unit := λ s,
  (logged c s, Returned tt).

Definition set_browser : M unit := λ s,
  ({| trace := trace s; browser := true; page := page s; recorder := recorder s |},
   Returned tt).

Definition set_page : M unit := λ s,
  ({| trace := trace s; browser := browser s; page := true; recorder := recorder s |},
   Returned tt).

Definition set_recorder : M unit := λ s,
  ({| trace := trace s; browser := browser s; page := page s; recorder := true |},
   Returned tt).

Definition updateInterval : number := of_Z 1000.

(** The progress reported once [elapsed] of [duration] has been waited. *)
Definition progressAt (duration elapsed : number) : number :=
  min2 (of_Z 100) (Math_round (div elapsed duration * of_Z 100)%num).

(** The [while] loop of [recordAnimation]: at most [fuel] turns. *)
Fixpoint waitLoop (w : world) (hasCallback : bool) (fuel : nat)
    (duration elapsed : number) : M unit :=
  if lt elapsed duration then
    match fuel with
    | O => λ s, (s, Running)
    | S fuel' =>
        let waitTime := min2 updateInterval (sub duration elapsed) in
        perform w (page_waitForTimeout waitTime) ;;;
        let elapsed' := (elapsed + waitTime)%num in
        (if hasCallback then perform w (onProgress (progressAt duration elapsed'))
         else ret tt) ;;;
        waitLoop w hasCallback fuel' duration elapsed'
    end
  else ret tt.

(** [fps || 30] *)
Definition fpsOrDefault (fps : option number) : number :=
  if truthy_number fps then default NaN fps else of_Z 30.

(** The [try] block of [recordAnimation]. *)
Definition recordAnimation_try (w : world) (fuel : nat)
    (htmlPath outputPath : string) (options : RecorderOptions.t)
    (hasCallback : bool) : M unit :=
  perform w puppeteer_launch ;;; set_browser ;;;
  perform w browser_newPage ;;; set_page ;;;
  perform w (page_setViewport (RecorderOptions.width options)
                              (RecorderOptions.height options)) ;;;
  perform w (new_PuppeteerScreenRecorder
               (fpsOrDefault (RecorderOptions.fps options))
               (RecorderOptions.width options)
               (RecorderOptions.height options)) ;;;
  set_recorder ;;;
  perform w (page_goto ("file://" +:+ htmlPath)) ;;;
  perform w (page_waitForSelector "img") ;;;
  perform w (page_waitForTimeout (of_Z 500)) ;;;
  perform w (recorder_start outputPath) ;;;
  waitLoop w hasCallback fuel (RecorderOptions.duration options) 0%num ;;;
  perform w recorder_stop.

(** The [finally] block: what was created is stopped and closed, errors
    ignored. *)
Definition recordAnimation_finally (w : world) : M unit := λ s,
  ((if recorder s then attempt w recorder_stop else ret tt) ;;;
   (if page s then attempt w page_close else ret tt) ;;;
   (if browser s then attempt w browser_close else ret tt)) s.

Definition rstate_init : rstate :=
  {| trace := []; browser := false; page := false; recorder := false |}.

(** [recordAnimation(htmlPath, outputPath, options, onProgress)]: the
    calls made, and how it ended; [None] when [fuel] turns of the loop
    were not enough to end it. *)
Definition recordAnimation (w : world) (fuel : nat)
    (htmlPath outputPath : string) (options : RecorderOptions.t)
    (hasCallback : bool) : list call * option (result unit) :=
  match recordAnimation_try w fuel htmlPath outputPath options hasCallback rstate_init with
  | (s, Running) => (trace s, None)
  | (s, Returned _) =>
      (trace (fst (recordAnimation_finally w s)), Some (Ok tt))
  | (s, Threw message) =>
      (trace (fst (recordAnimation_finally w s)),
       Some (Throw (ProcessingError ("Failed to record animation: " +:+ message))))
  end.

(** The calls of the loop. *)
Definition loopCall (c : call) : Prop :=
  match c with
  | page_waitForTimeout _ | onProgress _ => True
  | _ => False
  end.

(** A world in which no call throws. *)
Definition calm : world := λ _ _, None.

(** A world in which the browser cannot be launched. *)
Definition no_browser : world := λ _ c,
  match c with
  | puppeteer_launch => Some "Failed to launch chrome"
  | _ => None
  end.

Definition options_2s : RecorderOptions.t :=
  {| RecorderOptions.width := of_Z 100; RecorderOptions.height := of_Z 50;
     RecorderOptions.duration := of_Z 2500; RecorderOptions.fps := None |}.

(** A call that closes neither the page nor the browser. *)
Definition quiet (c : call) : Prop := c ≠ page_close ∧ c ≠ browser_close.

(** A computation that only adds quiet calls and leaves the [browser] and
    [page] variables as they are. *)
Definition steady (m : M unit) : Prop :=
  ∀ s, ∃ evs : list call,
    trace (fst (m s)) = (trace s ++ evs)%list ∧ Forall quiet evs
    ∧ browser (fst (m s)) = browser s ∧ page (fst (m s)) = page s.

(** What [recordAnimation] does once the page is open. *)
Definition recordAnimation_page (w : world) (fuel : nat)
    (htmlPath outputPath : string) (options : RecorderOptions.t)
    (hasCallback : bool) : M unit :=
  perform w (page_setViewport (RecorderOptions.width options)
                              (RecorderOptions.height options)) ;;;
  perform w (new_PuppeteerScreenRecorder
               (fpsOrDefault (RecorderOptions.fps options))
               (RecorderOptions.width options)
               (RecorderOptions.height options)) ;;;
  set_recorder ;;;
  perform w (page_goto ("file://" +:+ htmlPath)) ;;;
  perform w (page_waitForSelector "img") ;;;
  perform w (page_waitForTimeout (of_Z 500)) ;;;
  perform w (recorder_start outputPath) ;;;
  waitLoop w hasCallback fuel (RecorderOptions.duration options) 0%num ;;;
  perform w recorder_stop.

(** The waits and the progress reports among some calls, in order. *)
Definition waitsOf (evs : list call) : list number :=
  omap (λ c, match c with page_waitForTimeout ms => Some ms | _ => None end) evs.

Definition progressOf (evs : list call) : list number :=
  omap (λ c, match c with onProgress p => Some p | _ => None end) evs.

(** The sum of a list of numbers. *)
Definition total (l : list number) : number := foldr add 0%num l.

(** The state after some more calls. *)
Definition extend (s : rstate) (evs : list call) : rstate :=
  {| trace := trace s ++ evs; browser := browser s;
     page := page s; recorder := recorder s |}.

(** The percentage reported at [elapsed] of a finite [duration], as an
    integer. *)
Definition progressZ (duration elapsed : Qc) : Z :=
  Z.min 100 (Qfloor (this (elapsed / duration * Q2Qc (inject_Z 100))%Qc + (1 # 2))).

(** What [recordAnimation] calls before and after the loop when nothing
    fails. *)
Definition callsBefore (htmlPath outputPath : string) (options : RecorderOptions.t)
  : list call :=
  [puppeteer_launch; browser_newPage;
   page_setViewport (RecorderOptions.width options) (RecorderOptions.height options);
   new_PuppeteerScreenRecorder (fpsOrDefault (RecorderOptions.fps options))
     (RecorderOptions.width options) (RecorderOptions.height options);
   page_goto ("file://" +:+ htmlPath); page_waitForSelector "img";
   page_waitForTimeout (of_Z 500); recorder_start outputPath].

Definition callsAfter : list call :=
  [recorder_stop; recorder_stop; page_close; browser_close].

(** The time one turn of the loop waits at [elapsed] of a finite
    [duration]. *)
Definition waitTimeQ (duration elapsed : Qc) : Qc :=
  if bool_decide (duration - elapsed < Q2Qc (inject_Z 1000))%Qc
  then (duration - elapsed)%Qc else Q2Qc (inject_Z 1000).

(** The calls of one turn of the loop. *)
Definition turn (cb : bool) (duration elapsed : Qc) : list call :=
  page_waitForTimeout (Fin (waitTimeQ duration elapsed))
  :: (if cb
      then [onProgress (of_Z (progressZ duration (elapsed + waitTimeQ duration elapsed)))]
      else []).

Definition options_forever : RecorderOptions.t :=
  {| RecorderOptions.width := of_Z 100; RecorderOptions.height := of_Z 50;
     RecorderOptions.duration := PosInfinity; RecorderOptions.fps := None |}.

(** The state in which the loop is entered when nothing has failed. *)
Definition beforeLoop (htmlPath outputPath : string) (options : RecorderOptions.t)
  : rstate :=
  {| trace := callsBefore htmlPath outputPath options;
     browser := true; page := true; recorder := true |}.

(** ** The command line: [main] *)

Module CliOptions.
(** What the argument parser hands to [main]: whether [version] is set,
    the positional arguments [_], and the numeric options in their long
    and short forms. *)
Record t : Type := {
  version : bool;
  positional : list string;
  width : option number;
  height : option number;
  duration : option number;
  fps : option number;
  w : option number;
  h : option number;
  d : option number;
  f : option number;
}.
End CliOptions.

(** [a ?? b] *)
Definition nullish {A} (a b : option A) : option A :=
  match a with
  | Some x => Some x
  | None => b
  end.

(** [a || b] for an optional number [a] and a number [b]. *)
Definition orElse (a : option number) (b : number) : number :=
  if truthy_number a then default NaN a else b.

(** [a >= b] and [a === b] *)
Definition ge (a b : number) : bool := le b a.

Definition strict_eq (a b : number) : bool :=
  negb (isNaN a) && bool_decide (a = b).

(** [deleteFile(filePath)], from what [unlink] answers: nothing, or an
    error with its code. *)
Definition deleteFile (unlinked : option string) : result unit :=
  match unlinked with
  | None => Ok tt
  | Some errorCode =>
      if bool_decide (errorCode = "ENOENT") then Ok tt else Throw (Error errorCode)
  end.

(** What lies outside [main]: the file system, the installed tools, the
    parser and the browser; and [version], which [main] imports from
    [utils.ts] and calls, but which is not among the exports of that file:
    the call returns a string or throws. *)
Record Outside : Type := {
  version : result string;
  resolve : string → string;
  fileExists : string → bool;
  ffmpegInstalled : bool;
  documentElement : string → result (option Element);
  tempHtmlPath : string;
  tempVideoPath : string;
  writeFile : string → option string;
  puppeteer : world;
  ffmpegRun : string → string → option string;
  unlink : string → option string;
}.

(** [checkFFmpeg()] *)
Definition checkFFmpeg (o : Outside) : result unit :=
  if ffmpegInstalled o then Ok tt
  else Throw (SystemError
    ("FFmpeg is not installed. Please install FFmpeg to use this tool."
     +:+ String (ascii_of_nat 10)
       "Visit https://ffmpeg.org/download.html for installation instructions.")).

(** [processVideo(inputPath, outputPath, options)] *)
Definition processVideo (o : Outside) (inputPath outputPath : string) : result unit :=
  match ffmpegRun o inputPath outputPath with
  | None => Ok tt
  | Some message => Throw (ProcessingError ("Failed to process video: " +:+ message))
  end.

(** What [main] has settled on before it starts to work. *)
Record Plan : Type := {
  inputPath : string;
  outputPath : string;
  finalWidth : number;
  finalHeight : number;
  durationMs : number;
  finalFps : number;
}.

#[global] Instance result_bind : MBind result := λ A B k r,
  match r with
  | Ok a => k a
  | Throw e => Throw e
  end.

(** [main] from the positional arguments to the validation of the frame
    rate. *)
Definition main_plan (options : CliOptions.t) (o : Outside) : result Plan :=
  let inputPath := resolve o (default "" (CliOptions.positional options !! 0%nat)) in
  let outputPath := resolve o (default "" (CliOptions.positional options !! 1%nat)) in
  let optWidth := nullish (CliOptions.width options) (CliOptions.w options) in
  let optHeight := nullish (CliOptions.height options) (CliOptions.h options) in
  let optDuration := nullish (CliOptions.duration options) (CliOptions.d options) in
  let fps :=
    default (of_Z 30) (nullish (CliOptions.fps options) (CliOptions.f options)) in
  if negb (fileExists o inputPath)
  then Throw (ValidationError ("Input file not found: " +:+ inputPath))
  else
    _ ← checkFFmpeg o;
    doc ← documentElement o inputPath;
    svgAnalysis ← analyzeSVG doc;
    let finalWidth := orElse optWidth (width (dimensions svgAnalysis)) in
    let finalHeight := orElse optHeight (height (dimensions svgAnalysis)) in
    finalWidth ← validatePositiveNumber finalWidth "Width";
    finalHeight ← validatePositiveNumber finalHeight "Height";
    durationMs ← main_durationMs optDuration svgAnalysis;
    finalFps ← validatePositiveNumber fps "FPS";
    Ok {| inputPath := inputPath; outputPath := outputPath;
          finalWidth := finalWidth; finalHeight := finalHeight;
          durationMs := durationMs; finalFps := finalFps |}.

(** What [main] does once it has a plan, as far as the outside sees it. *)
Inductive action : Type :=
  | generateHTMLFile (svgPath : string) (width height : number) (outputPath : string)
  | recordAnimationRun (calls : list call) (printed : list number)
  | processVideoRun (inputPath outputPath : string) (width height : number)
  | deleteFileRun (filePath : string).

(** The callback [main] gives to [recordAnimation]: does it print
    [progress], given the last value it printed? *)
Definition printsProgress (lastProgress progress : number) : bool :=
  ge progress (lastProgress + of_Z 10)%num || strict_eq progress (of_Z 100).

(** The values printed for a run of reports. *)
Fixpoint printed (lastProgress : number) (reports : list number) : list number :=
  match reports with
  | [] => []
  | progress :: rest =>
      if printsProgress lastProgress progress
      then progress :: printed progress rest
      else printed lastProgress rest
  end.

(** The callback of [main] does not throw. *)
Definition quietCallback (w : world) : world := λ before c,
  match c with
  | onProgress _ => None
  | _ => w before c
  end.

(** [main] from the generation of the page to the removal of the
    temporary files; [None] when the recording has not ended after [fuel]
    turns of its loop. *)
Definition main_work (p : Plan) (o : Outside) (fuel : nat)
  : option (list action * result unit) :=
  let html :=
    generateHTMLFile (inputPath p) (finalWidth p) (finalHeight p) (tempHtmlPath o) in
  match writeFile o (tempHtmlPath o) with
  | Some message => Some ([html], Throw (Error message))
  | None =>
      let recorderOptions :=
        {| RecorderOptions.width := finalWidth p;
           RecorderOptions.height := finalHeight p;
           RecorderOptions.duration := durationMs p;
           RecorderOptions.fps := Some (finalFps p) |} in
      match recordAnimation (quietCallback (puppeteer o)) fuel
              (tempHtmlPath o) (tempVideoPath o) recorderOptions true with
      | (_, None) => None
      | (calls, Some recording) =>
          let record := recordAnimationRun calls (printed 0%num (progressOf calls)) in
          match recording with
          | Throw e => Some ([html; record], Throw e)
          | Ok _ =>
              let process :=
                processVideoRun (tempVideoPath o) (outputPath p)
                  (finalWidth p) (finalHeight p) in
              match processVideo o (tempVideoPath o) (outputPath p) with
              | Throw e => Some ([html; record; process], Throw e)
              | Ok _ =>
                  match deleteFile (unlink o (tempHtmlPath o)) with
                  | Throw e =>
                      Some ([html; record; process; deleteFileRun (tempHtmlPath o)],
                            Throw e)
                  | Ok _ =>
                      Some ([html; record; process; deleteFileRun (tempHtmlPath o);
                             deleteFileRun (tempVideoPath o)],
                            deleteFile (unlink o (tempVideoPath o)))
                  end
              end
          end
      end
  end.

(** The exit code [main] gives an exception. *)
Definition exitCode (e : exn) : Z :=
  match e with
  | ValidationError _ => 1
  | ProcessingError _ => 2
  | SystemError _ => 3
  | Error _ => 99
  end.

(** [main()]: what it did and the exit code of the process. *)
Definition main (options : CliOptions.t) (o : Outside) (fuel : nat)
  : option (list action * Z) :=
  if CliOptions.version options then
    match version o with
    | Ok _ => Some ([], 0)
    | Throw e => Some ([], exitCode e)
    end
  else if bool_decide (length (CliOptions.positional options) < 2)%nat then Some ([], 0)
  else
    match main_plan options o with
    | Throw e => Some ([], exitCode e)
    | Ok p =>
        match main_work p o fuel with
        | None => None
        | Some (actions, Ok _) => Some (actions, 0)
        | Some (actions, Throw e) => Some (actions, exitCode e)
        end
    end.

(** Examples for [main]. *)
Definition doc_2s_x3 : Element :=
  svg [("viewBox", "0 0 100 50")] [animate [("dur", "2s"); ("repeatCount", "3")]].

Definition fine : Outside :=
  {| version := Ok "1.0.0";
     resolve := λ path, "/work/" +:+ path;
     fileExists := λ _, true;
     ffmpegInstalled := true;
     documentElement := λ _, Ok (Some doc_2s_x3);
     tempHtmlPath := "/tmp/svg-video-a.html";
     tempVideoPath := "/tmp/svg-video-b.webm";
     writeFile := λ _, None;
     puppeteer := calm;
     ffmpegRun := λ _ _, None;
     unlink := λ _, None |}.

Definition no_ffmpeg : Outside :=
  {| version := Ok "1.0.0";
     resolve := λ path, "/work/" +:+ path;
     fileExists := λ _, true;
     ffmpegInstalled := false;
     documentElement := λ _, Ok None;
     tempHtmlPath := "/tmp/svg-video-a.html";
     tempVideoPath := "/tmp/svg-video-b.webm";
     writeFile := λ _, None;
     puppeteer := calm;
     ffmpegRun := λ _ _, None;
     unlink := λ _, None |}.

Definition encoder_fails : Outside :=
  {| version := Ok "1.0.0";
     resolve := λ path, "/work/" +:+ path;
     fileExists := λ _, true;
     ffmpegInstalled := true;
     documentElement := λ _, Ok (Some doc_2s_x3);
     tempHtmlPath := "/tmp/svg-video-a.html";
     tempVideoPath := "/tmp/svg-video-b.webm";
     writeFile := λ _, None;
     puppeteer := calm;
     ffmpegRun := λ _ _, Some "ffmpeg exited with code 1";
     unlink := λ _, None |}.

Definition plan_6s : Plan :=
  {| inputPath := "/work/a.svg"; outputPath := "/work/b.mp4";
     finalWidth := of_Z 100; finalHeight := of_Z 50;
     durationMs := of_Z 6000; finalFps := of_Z 30 |}.

Definition args (l : list string) : CliOptions.t :=
  {| CliOptions.version := false; CliOptions.positional := l;
     CliOptions.width := None; CliOptions.height := None;
     CliOptions.duration := None; CliOptions.fps := None;
     CliOptions.w := None; CliOptions.h := None;
     CliOptions.d := None; CliOptions.f := None |}.

Definition args_negative_width (l : list string) : CliOptions.t :=
  {| CliOptions.version := false; CliOptions.positional := l;
     CliOptions.width := Some (of_Z (-5)); CliOptions.height := None;
     CliOptions.duration := None; CliOptions.fps := None;
     CliOptions.w := None; CliOptions.h := None;
     CliOptions.d := None; CliOptions.f := None |}.

(** ** The time estimate of [main] *)

(** [Math.floor(a)] *)
Definition Math_floor (a : number) : number :=
  match a with
  | Fin q => of_Z (Qfloor (this q))
  | _ => a
  end.

(** The integer part of a rational, towards zero. *)
Definition truncate (q : Qc) : Z :=
  if bool_decide (q < 0)%Qc then Qceiling (this q) else Qfloor (this q).

(** [a % b]: the remainder has the sign of [a]. *)
Definition rem (a b : number) : number :=
  match a, b with
  | Fin x, Fin y =>
      if is_zero y then NaN
      else Fin (x - y * Q2Qc (inject_Z (truncate (x / y))))%Qc
  | Fin x, (PosInfinity | NegInfinity) => Fin x
  | _, _ => NaN
  end.

(** What [main] announces as the time the recording will take. *)
Inductive estimate : Type :=
  | MinutesSeconds (estimatedMinutes estimatedSeconds : number)
  | Seconds (estimatedSeconds : number).

Definition estimatedMinutes (durationMs : number) : number :=
  let durationSeconds := div durationMs (of_Z 1000) in
  Math_floor (div durationSeconds (of_Z 60)).

Definition estimatedSeconds (durationMs : number) : number :=
  let durationSeconds := div durationMs (of_Z 1000) in
  Math_round (rem durationSeconds (of_Z 60)).

Definition timeEstimate (durationMs : number) : estimate :=
  if gt (estimatedMinutes durationMs) 0%num
  then MinutesSeconds (estimatedMinutes durationMs) (estimatedSeconds durationMs)
  else Seconds (estimatedSeconds durationMs).

(** * Properties *)

(** ** Order on numbers *)

Section NumberOrder.

Implicit Types a b c : number.

Lemma lt_irrefl a : lt a a = false.
Proof.
  destruct a; simpl; try done.
  apply bool_decide_eq_false, (irreflexivity Qclt).
Qed.

Lemma lt_trans a b c : lt a b = true → lt b c = true → lt a c = true.
Proof.
  destruct a, b, c; simpl; try done.
  rewrite !bool_decide_eq_true. apply Qclt_trans.
Qed.

Lemma lt_asym a b : lt a b = true → lt b a = false.
Proof.
  intros H. destruct (lt b a) eqn:E; [|done].
  pose proof (lt_trans _ _ _ H E) as F. by rewrite lt_irrefl in F.
Qed.

Lemma lt_total a b :
  isNaN a = false → isNaN b = false → lt a b = true ∨ a = b ∨ lt b a = true.
Proof.
  destruct a as [| | |x], b as [| | |y]; simpl; try done; auto.
  intros _ _. destruct (Qclt_le_dec x y) as [H|H].
  - left. by apply bool_decide_eq_true.
  - destruct (Qcle_lt_or_eq _ _ H) as [H'|H'].
    + right; right. by apply bool_decide_eq_true.
    + right; left. by rewrite H'.
Qed.

Lemma lt_not_NaN a b : lt a b = true → isNaN a = false ∧ isNaN b = false.
Proof. by destruct a, b. Qed.

Lemma gt_not_NaN a b : gt a b = true → isNaN a = false.
Proof. unfold gt. intros H. by apply lt_not_NaN in H as [_ ?]. Qed.

Lemma le_spec a b :
  le a b = true ↔ isNaN a = false ∧ isNaN b = false ∧ lt b a = false.
Proof.
  unfold le. rewrite !andb_true_iff, !negb_true_iff. tauto.
Qed.

Lemma le_refl a : isNaN a = false → le a a = true.
Proof. intros H. apply le_spec. by rewrite lt_irrefl. Qed.

Lemma lt_le a b : lt a b = true → le a b = true.
Proof.
  intros H. apply le_spec. destruct (lt_not_NaN _ _ H). auto using lt_asym.
Qed.

Lemma le_lt_or_eq a b : le a b = true → lt a b = true ∨ a = b.
Proof.
  rewrite le_spec. intros (Ha & Hb & H).
  destruct (lt_total a b Ha Hb) as [?|[?|?]]; auto. congruence.
Qed.

Lemma le_trans a b c : le a b = true → le b c = true → le a c = true.
Proof.
  intros H1 H2.
  destruct (le_lt_or_eq _ _ H1) as [L1| ->]; [|done].
  destruct (le_lt_or_eq _ _ H2) as [L2| <-]; [|done].
  eauto using lt_le, lt_trans.
Qed.

Lemma le_antisym a b : le a b = true → le b a = true → a = b.
Proof.
  intros H1 H2. destruct (le_lt_or_eq _ _ H1) as [L|]; [|done].
  apply le_spec in H2 as (_ & _ & ?). congruence.
Qed.

Lemma lt_le_trans a b c : lt a b = true → le b c = true → lt a c = true.
Proof.
  intros H1 H2. destruct (le_lt_or_eq _ _ H2) as [L| <-]; eauto using lt_trans.
Qed.

(** For numbers, [a <= b] fails exactly when [a > b]. *)
Lemma le_false_gt a b :
  isNaN a = false → isNaN b = false → (le a b = false ↔ gt a b = true).
Proof.
  intros Ha Hb. unfold le, gt. rewrite Ha, Hb. simpl.
  by destruct (lt b a).
Qed.

Lemma max2_cases a b :
  isNaN a = false → isNaN b = false →
  (max2 a b = a ∧ le b a = true) ∨ (max2 a b = b ∧ le a b = true).
Proof.
  intros Ha Hb. unfold max2.
  destruct (lt a b) eqn:E.
  - right. split; [by destruct a, b | by apply lt_le].
  - left. split; [by destruct a, b | by apply le_spec].
Qed.

Lemma min2_cases a b :
  isNaN a = false → isNaN b = false →
  (min2 a b = a ∧ le a b = true) ∨ (min2 a b = b ∧ le b a = true).
Proof.
  intros Ha Hb. unfold min2.
  destruct (lt b a) eqn:E.
  - right. split; [by destruct a, b | by apply lt_le].
  - left. split; [by destruct a, b | by apply le_spec].
Qed.

End NumberOrder.

(** ** [Math.max] and [Math.min] over a list *)

Section Extrema.

Implicit Types (a m : number) (l : list number).

Lemma foldl_max2 l a :
  isNaN a = false → numbers l →
  let m := foldl max2 a l in
  isNaN m = false ∧ le a m = true ∧ (∀ x, x ∈ l → le x m = true)
  ∧ (m = a ∨ m ∈ l).
Proof.
  revert a. induction l as [|y l IH]; intros a Ha Hl; simpl.
  - repeat split; auto using le_refl. intros x Hx. by apply elem_of_nil in Hx.
  - apply Forall_cons in Hl as [Hy Hl].
    destruct (max2_cases a y Ha Hy) as [[E L]|[E L]]; rewrite E.
    + destruct (IH a Ha Hl) as (N & A & U & M).
      repeat split; auto.
      * intros x [->|Hx]%elem_of_cons; eauto using le_trans.
      * destruct M as [M|M]; [by left | right; by apply list_elem_of_further].
    + destruct (IH y Hy Hl) as (N & A & U & M).
      repeat split; eauto using le_trans.
      * intros x [->|Hx]%elem_of_cons; eauto using le_trans.
      * right. destruct M as [->|M]; [apply list_elem_of_here | by apply list_elem_of_further].
Qed.

Lemma foldl_min2 l a :
  isNaN a = false → numbers l →
  let m := foldl min2 a l in
  isNaN m = false ∧ le m a = true ∧ (∀ x, x ∈ l → le m x = true)
  ∧ (m = a ∨ m ∈ l).
Proof.
  revert a. induction l as [|y l IH]; intros a Ha Hl; simpl.
  - repeat split; auto using le_refl. intros x Hx. by apply elem_of_nil in Hx.
  - apply Forall_cons in Hl as [Hy Hl].
    destruct (min2_cases a y Ha Hy) as [[E L]|[E L]]; rewrite E.
    + destruct (IH a Ha Hl) as (N & A & U & M).
      repeat split; auto.
      * intros x [->|Hx]%elem_of_cons; eauto using le_trans.
      * destruct M as [M|M]; [by left | right; by apply list_elem_of_further].
    + destruct (IH y Hy Hl) as (N & A & U & M).
      repeat split; eauto using le_trans.
      * intros x [->|Hx]%elem_of_cons; eauto using le_trans.
      * right. destruct M as [->|M]; [apply list_elem_of_here | by apply list_elem_of_further].
Qed.

(** On a non-empty list of numbers [Math.max] is its greatest element. *)
Lemma Math_max_is_maximum l : l ≠ [] → numbers l → is_maximum (Math_max l) l.
Proof.
  intros Hne Hl. destruct (foldl_max2 l NegInfinity eq_refl Hl) as (N & A & U & M).
  split; [|exact U]. destruct M as [M|M]; [|exact M].
  destruct l as [|y l]; [done|].
  assert (le y (Math_max (y :: l)) = true) as L by (apply U, list_elem_of_here).
  unfold Math_max in *. rewrite M in L |- *.
  destruct y; try done. apply list_elem_of_here.
Qed.

Lemma Math_min_is_minimum l : l ≠ [] → numbers l → is_minimum (Math_min l) l.
Proof.
  intros Hne Hl. destruct (foldl_min2 l PosInfinity eq_refl Hl) as (N & A & U & M).
  split; [|exact U]. destruct M as [M|M]; [|exact M].
  destruct l as [|y l]; [done|].
  assert (le (Math_min (y :: l)) y = true) as L by (apply U, list_elem_of_here).
  unfold Math_min in *. rewrite M in L |- *.
  destruct y; try done. apply list_elem_of_here.
Qed.

(** The greatest element is unique, so is the smallest. *)
Lemma is_maximum_unique m1 m2 l : is_maximum m1 l → is_maximum m2 l → m1 = m2.
Proof. intros [I1 U1] [I2 U2]. apply le_antisym; auto. Qed.

Lemma is_minimum_unique m1 m2 l : is_minimum m1 l → is_minimum m2 l → m1 = m2.
Proof. intros [I1 U1] [I2 U2]. apply le_antisym; auto. Qed.

End Extrema.

(** ** The loops of [analyzeAnimations] *)

Section Loops.

Implicit Types (a : Acc.t) (els : list Element).

(** What the loops leave in their variables. *)
Lemma acc_fold els a :
  foldl acc_step a els =
  {| Acc.maxEndTime := foldl max2 (Acc.maxEndTime a) (endTimes els);
     Acc.hasAnimations := Acc.hasAnimations a || negb (bool_decide (els = []));
     Acc.hasInfiniteAnimations := Acc.hasInfiniteAnimations a || anyInfinite els;
     Acc.loopDurations := Acc.loopDurations a ++ allLoopDurations els;
     Acc.infiniteLoopDurations :=
       Acc.infiniteLoopDurations a ++ explicitForeverDurations els |}.
Proof.
  revert a. induction els as [|e els IH]; intros a.
  - destruct a; simpl. by rewrite !orb_false_r, !app_nil_r.
  - simpl. rewrite IH. clear IH.
    unfold acc_step, endTimes, allLoopDurations, explicitForeverDurations.
    simpl. unfold finiteEndTime, explicitContribution, loopContribution.
    destruct (parseAnimationTiming e) as [et inf bd ex]; simpl.
    destruct inf; simpl.
    + destruct (collectable bd) eqn:C; simpl.
      * destruct bd as [d|]; [|done]. simpl.
        destruct ex; simpl; rewrite ?orb_true_r, <- ?app_assoc; simpl;
          f_equal; by destruct (bool_decide (els = [])).
      * destruct ex; simpl; rewrite ?orb_true_r; f_equal;
          by destruct (bool_decide (els = [])).
    + destruct et as [t|]; simpl; destruct ex; simpl; rewrite ?orb_true_r;
        f_equal; by destruct (bool_decide (els = [])).
Qed.

Lemma collectable_pos b d : collectable b = true → b = Some d → gt d 0%num = true.
Proof. intros H ->. exact H. Qed.

Lemma loopContribution_pos e d : loopContribution e = Some d → gt d 0%num = true.
Proof.
  unfold loopContribution.
  destruct (isInfinite _); simpl; [|done].
  destruct (collectable _) eqn:C; [|done]. intros H. by eapply collectable_pos.
Qed.

Lemma explicitContribution_pos e d : explicitContribution e = Some d → gt d 0%num = true.
Proof.
  unfold explicitContribution. destruct (isExplicitInfinite _); [|done].
  apply loopContribution_pos.
Qed.

Lemma allLoopDurations_pos els d : d ∈ allLoopDurations els → gt d 0%num = true.
Proof.
  unfold allLoopDurations. rewrite list_elem_of_omap.
  intros (e & _ & H). eauto using loopContribution_pos.
Qed.

Lemma explicitForeverDurations_pos els d :
  d ∈ explicitForeverDurations els → gt d 0%num = true.
Proof.
  unfold explicitForeverDurations. rewrite list_elem_of_omap.
  intros (e & _ & H). eauto using explicitContribution_pos.
Qed.

Lemma pos_numbers (l : list number) : (∀ d, d ∈ l → gt d 0%num = true) → numbers l.
Proof.
  intros H. apply Forall_forall. intros d Hd. eapply gt_not_NaN, H, Hd.
Qed.

(** Every explicit-forever duration is among the loop durations. *)
Lemma explicit_sublist els d :
  d ∈ explicitForeverDurations els → d ∈ allLoopDurations els.
Proof.
  unfold explicitForeverDurations, allLoopDurations. rewrite !list_elem_of_omap.
  intros (e & He & H). exists e. split; [done|].
  unfold explicitContribution in H. by destruct (isExplicitInfinite _).
Qed.

Lemma anyInfinite_true els :
  anyInfinite els = true ↔ ∃ e, e ∈ els ∧ isInfinite (parseAnimationTiming e) = true.
Proof.
  unfold anyInfinite. rewrite existsb_exists.
  split; intros (e & H1 & H2); exists e; split; auto; by apply list_elem_of_In.
Qed.

Lemma anyInfinite_false els : anyInfinite els = false ↔ allFinite els.
Proof.
  unfold anyInfinite, allFinite. rewrite Forall_forall.
  induction els as [|e els IH]; simpl.
  - split; [|done]. intros _ x Hx. by apply elem_of_nil in Hx.
  - rewrite orb_false_iff, IH. split.
    + intros [H1 H2] x [->|Hx]%elem_of_cons; auto.
    + intros H. split; [apply H, list_elem_of_here|].
      intros x Hx. by apply H, list_elem_of_further.
Qed.

Lemma allLoopDurations_nonempty_infinite els :
  allLoopDurations els ≠ [] → anyInfinite els = true.
Proof.
  intros H. destruct (allLoopDurations els) as [|d l] eqn:E; [done|].
  assert (d ∈ allLoopDurations els) as Hd by (rewrite E; apply list_elem_of_here).
  unfold allLoopDurations in Hd. apply list_elem_of_omap in Hd as (e & He & Hc).
  apply anyInfinite_true. exists e. split; [done|].
  unfold loopContribution in Hc. by destruct (isInfinite _).
Qed.

(** [loopDuration] as a function of the document's directives. *)
Lemma loopDuration_eq els :
  AnimationInfo.loopDuration (analyzeElements els) =
  if anyInfinite els && bool_decide (allLoopDurations els ≠ []) then
    if bool_decide (explicitForeverDurations els ≠ []) then
      let reasonable :=
        filter (λ d, le d REASONABLE_LOOP = true) (explicitForeverDurations els) in
      if bool_decide (reasonable ≠ []) then Some (Math_max reasonable)
      else Some (Math_min (explicitForeverDurations els))
    else Some (Math_max (allLoopDurations els))
  else None.
Proof.
  unfold analyzeElements. simpl. rewrite acc_fold. unfold loopDurationOf. simpl.
  assert (∀ l : list number, bool_decide (0 < length l)%nat = bool_decide (l ≠ [])) as L.
  { intros l. apply bool_decide_ext. destruct l; simpl; split; try done; lia. }
  by rewrite !L.
Qed.

Lemma hasInfinite_eq els :
  AnimationInfo.hasInfiniteAnimations (analyzeElements els) = anyInfinite els.
Proof. unfold analyzeElements. simpl. by rewrite acc_fold. Qed.

Lemma hasAnimations_eq els :
  AnimationInfo.hasAnimations (analyzeElements els) = negb (bool_decide (els = [])).
Proof. unfold analyzeElements. simpl. by rewrite acc_fold. Qed.

Lemma duration_eq els :
  AnimationInfo.duration (analyzeElements els) =
  let m := foldl max2 0%num (endTimes els) in
  if negb (bool_decide (els = [])) && negb (anyInfinite els) && gt m 0%num
  then Some m else None.
Proof. unfold analyzeElements. simpl. by rewrite acc_fold. Qed.

End Loops.

(** ** The reduction to one loop duration *)

(** Closed equations between results are settled by evaluation. *)
Ltac by_evaluation := apply (bool_decide_unpack _); vm_compute; exact I.

(** C1. When a document has an infinite window and at least one collected
    explicit-forever base-loop duration, [loopDuration] is the greatest of
    the explicit-forever durations that are at most 600000 ms, and, when
    none is, the smallest of all explicit-forever durations; so 700s with
    900s gives 700000, and 5s with 44444s gives 5000. *)
Theorem C1_loopDuration_explicit_forever :
  (∀ svgElement : Element,
     let els := animationElements svgElement in
     let ds := explicitForeverDurations els in
     let reasonable := filter (λ d, le d (of_Z 600000) = true) ds in
     (∃ e, e ∈ els ∧ isInfinite (parseAnimationTiming e) = true) →
     ds ≠ [] →
     ∃ m, AnimationInfo.loopDuration (analyzeAnimations svgElement) = Some m
          ∧ (reasonable ≠ [] → is_maximum m reasonable)
          ∧ (reasonable = [] → is_minimum m ds))
  ∧ AnimationInfo.loopDuration (analyzeAnimations doc_700_900) = Some (of_Z 700000)
  ∧ AnimationInfo.loopDuration (analyzeAnimations doc_5_44444) = Some (of_Z 5000).
Proof.
  split; [|split; by_evaluation].
  intros svgElement els ds reasonable Hinf Hds.
  unfold analyzeAnimations. fold els. rewrite loopDuration_eq. fold ds.
  apply anyInfinite_true in Hinf. rewrite Hinf. simpl.
  assert (allLoopDurations els ≠ []) as Hall.
  { destruct ds as [|d ds'] eqn:E; [done|].
    assert (d ∈ allLoopDurations els) as Hd
      by (apply explicit_sublist; fold ds; rewrite E; apply list_elem_of_here).
    intros N. rewrite N in Hd. by apply elem_of_nil in Hd. }
  rewrite (bool_decide_eq_true_2 _ Hall), (bool_decide_eq_true_2 _ Hds).
  assert (numbers ds) as Nds
    by (apply pos_numbers; intros d; apply explicitForeverDurations_pos).
  change (filter (λ d, le d REASONABLE_LOOP = true) ds) with reasonable.
  case_bool_decide as Hr.
  - exists (Math_max reasonable). split; [done|]. split; [|done].
    intros _. apply Math_max_is_maximum; [done|].
    apply pos_numbers. intros d [_ Hd]%list_elem_of_filter.
    by eapply explicitForeverDurations_pos.
  - exists (Math_min ds). split; [done|]. split.
    + intros N. by destruct Hr.
    + intros _. by apply Math_min_is_minimum.
Qed.

Lemma C1_witness :
  let els := animationElements doc_5_44444 in
  let ds := explicitForeverDurations els in
  let reasonable := filter (λ d, le d (of_Z 600000) = true) ds in
  ((∃ e, e ∈ els ∧ isInfinite (parseAnimationTiming e) = true) ∧ ds ≠ [])
  ∧ ∃ m, AnimationInfo.loopDuration (analyzeAnimations doc_5_44444) = Some m
         ∧ (reasonable ≠ [] → is_maximum m reasonable)
         ∧ (reasonable = [] → is_minimum m ds).
Proof.
  assert ((∃ e, e ∈ animationElements doc_5_44444
                ∧ isInfinite (parseAnimationTiming e) = true)
          ∧ explicitForeverDurations (animationElements doc_5_44444) ≠ []) as H.
  { split.
    - exists (animate [("dur", "5s"); ("repeatCount", "indefinite")]).
      split; [|reflexivity]. vm_compute. apply list_elem_of_here.
    - vm_compute. discriminate. }
  split; [exact H|].
  exact (proj1 C1_loopDuration_explicit_forever doc_5_44444 (proj1 H) (proj2 H)).
Defined.

(** [loopDuration], when there is one, is one of the collected durations. *)
Lemma loopDuration_collected els v :
  AnimationInfo.loopDuration (analyzeElements els) = Some v →
  v ∈ allLoopDurations els.
Proof.
  rewrite loopDuration_eq.
  destruct (anyInfinite els); simpl; [|done].
  case_bool_decide as Hall; [|done].
  case_bool_decide as Hex.
  - set (ds := explicitForeverDurations els) in *.
    assert (numbers ds) as Nds
      by (apply pos_numbers; intros d; apply explicitForeverDurations_pos).
    simpl. case_bool_decide as Hr; intros [= <-]; apply explicit_sublist.
    + assert (numbers (filter (λ d, le d REASONABLE_LOOP = true) ds)) as Nr.
      { apply pos_numbers. intros d [_ Hd]%list_elem_of_filter.
        by eapply explicitForeverDurations_pos. }
      destruct (Math_max_is_maximum _ Hr Nr) as [Hin _].
      by apply list_elem_of_filter in Hin as [_ ?].
    + by destruct (Math_min_is_minimum _ Hex Nds).
  - intros [= <-].
    apply Math_max_is_maximum; [done|].
    apply pos_numbers. intros d. apply allLoopDurations_pos.
Qed.

Lemma analyzeSVG_Ok doc r :
  analyzeSVG doc = Ok r →
  ∃ svgElement, doc = Some svgElement
    ∧ duration r = AnimationInfo.duration (analyzeAnimations svgElement)
    ∧ hasAnimations r = AnimationInfo.hasAnimations (analyzeAnimations svgElement)
    ∧ hasInfiniteAnimations r
      = AnimationInfo.hasInfiniteAnimations (analyzeAnimations svgElement)
    ∧ loopDuration r = AnimationInfo.loopDuration (analyzeAnimations svgElement).
Proof.
  unfold analyzeSVG. destruct doc as [svgElement|]; [|done].
  destruct (negb _); [done|].
  destruct (extractDimensions svgElement); [|done].
  intros [= <-]. by exists svgElement.
Qed.

(** C9. A [loopDuration] the analyzer returns is strictly positive: only
    base-loop durations that are known and greater than zero are collected;
    and a document whose infinite windows all lack such a duration has
    [hasInfiniteAnimations] true and [loopDuration] null, as with
    [dur="indefinite"] alone or [repeatCount="indefinite"] without [dur]. *)
Theorem C9_loopDuration_positive :
  (∀ doc r v,
     analyzeSVG doc = Ok r → loopDuration r = Some v → gt v 0%num = true)
  ∧ (∀ svgElement d,
       d ∈ Acc.loopDurations (foldl acc_step acc_init (animationElements svgElement)) →
       gt d 0%num = true)
  ∧ (∀ svgElement,
       let els := animationElements svgElement in
       (∃ e, e ∈ els ∧ isInfinite (parseAnimationTiming e) = true) →
       (∀ e, e ∈ els → isInfinite (parseAnimationTiming e) = true →
             match baseDuration (parseAnimationTiming e) with
             | Some b => gt b 0%num = false
             | None => True
             end) →
       AnimationInfo.hasInfiniteAnimations (analyzeAnimations svgElement) = true
       ∧ AnimationInfo.loopDuration (analyzeAnimations svgElement) = None)
  ∧ (AnimationInfo.hasInfiniteAnimations (analyzeAnimations doc_dur_indefinite) = true
     ∧ AnimationInfo.loopDuration (analyzeAnimations doc_dur_indefinite) = None)
  ∧ (AnimationInfo.hasInfiniteAnimations (analyzeAnimations doc_repeat_without_dur) = true
     ∧ AnimationInfo.loopDuration (analyzeAnimations doc_repeat_without_dur) = None).
Proof.
  split; [|split; [|split; [|split; split; by_evaluation]]].
  - intros doc r v Hr Hv.
    apply analyzeSVG_Ok in Hr as (svgElement & _ & _ & _ & _ & Hl).
    rewrite Hl in Hv. eapply allLoopDurations_pos, loopDuration_collected, Hv.
  - intros svgElement d. rewrite acc_fold. simpl. apply allLoopDurations_pos.
  - intros svgElement els Hinf Hno. unfold analyzeAnimations. fold els.
    rewrite hasInfinite_eq, loopDuration_eq.
    apply anyInfinite_true in Hinf. rewrite Hinf. split; [done|]. simpl.
    assert (allLoopDurations els = []) as ->; [|done].
    destruct (allLoopDurations els) as [|d l] eqn:E; [done|]. exfalso.
    assert (d ∈ allLoopDurations els) as Hd by (rewrite E; apply list_elem_of_here).
    apply list_elem_of_omap in Hd as (e & He & Hc).
    unfold loopContribution in Hc. specialize (Hno e He).
    destruct (isInfinite (parseAnimationTiming e)); [|done].
    specialize (Hno eq_refl). cbn [andb] in Hc.
    destruct (baseDuration (parseAnimationTiming e)) as [b|]; [|done].
    unfold collectable in Hc. by rewrite Hno in Hc.
Qed.

Lemma C9_witness :
  analyzeSVG (Some (svg [("width", "10"); ("height", "10")]
                        [animate [("dur", "76s"); ("repeatCount", "indefinite")]]))
  = Ok {| dimensions := {| width := of_Z 10; height := of_Z 10 |};
          duration := None; hasAnimations := true;
          hasInfiniteAnimations := true; loopDuration := Some (of_Z 76000) |}
  ∧ gt (of_Z 76000) 0%num = true.
Proof.
  assert (analyzeSVG (Some (svg [("width", "10"); ("height", "10")]
                        [animate [("dur", "76s"); ("repeatCount", "indefinite")]]))
  = Ok {| dimensions := {| width := of_Z 10; height := of_Z 10 |};
          duration := None; hasAnimations := true;
          hasInfiniteAnimations := true; loopDuration := Some (of_Z 76000) |}) as H
    by by_evaluation.
  split; [exact H|].
  exact (proj1 C9_loopDuration_positive _ _ _ H eq_refl).
Defined.

(** C6. In the result of the analyzer, [duration] is non-null only when
    [hasAnimations] holds and [hasInfiniteAnimations] does not, and
    [loopDuration] is non-null only when [hasInfiniteAnimations] holds. *)
Theorem C6_result_invariant (doc : option Element) (r : SVGAnalysis) :
  analyzeSVG doc = Ok r →
  (duration r ≠ None → hasAnimations r = true ∧ hasInfiniteAnimations r = false)
  ∧ (loopDuration r ≠ None → hasInfiniteAnimations r = true).
Proof.
  intros (svgElement & _ & Hd & Ha & Hi & Hl)%analyzeSVG_Ok.
  rewrite Hd, Ha, Hi, Hl. unfold analyzeAnimations.
  rewrite duration_eq, hasAnimations_eq, hasInfinite_eq, loopDuration_eq.
  split.
  - simpl. destruct (negb (bool_decide _)); [|done].
    by destruct (anyInfinite _).
  - by destruct (anyInfinite _).
Qed.

Lemma C6_witness :
  analyzeSVG (Some (svg [("viewBox", "0 0 100 50")]
                        [animate [("dur", "2s"); ("repeatCount", "3")]]))
  = Ok {| dimensions := {| width := of_Z 100; height := of_Z 50 |};
          duration := Some (of_Z 6000); hasAnimations := true;
          hasInfiniteAnimations := false; loopDuration := None |}
  ∧ (Some (of_Z 6000) ≠ None → true = true ∧ false = false)
  ∧ (@None number ≠ None → false = true).
Proof.
  assert (analyzeSVG (Some (svg [("viewBox", "0 0 100 50")]
                        [animate [("dur", "2s"); ("repeatCount", "3")]]))
  = Ok {| dimensions := {| width := of_Z 100; height := of_Z 50 |};
          duration := Some (of_Z 6000); hasAnimations := true;
          hasInfiniteAnimations := false; loopDuration := None |}) as H
    by by_evaluation.
  split; [exact H|].
  exact (C6_result_invariant _ _ H).
Defined.

(** ** The timing window of one directive *)

Section Resolver.

Implicit Types element e : Element.

(** Without a sentinel the window is decided by the total span alone. *)
Lemma timing_noSentinel element :
  noSentinel element →
  parseAnimationTiming element =
  if gt (totalDurationOf element) MAX_REASONABLE_DURATION then
    {| endTime := None; isInfinite := true;
       baseDuration := Some (baseDurationOf (getAttribute element "dur"));
       isExplicitInfinite := false |}
  else
    {| endTime := Some (startOffsetOf element + totalDurationOf element)%num;
       isInfinite := false;
       baseDuration := Some (baseDurationOf (getAttribute element "dur"));
       isExplicitInfinite := false |}.
Proof.
  intros (Hd & Hc & Hr). unfold parseAnimationTiming.
  by rewrite !bool_decide_eq_false_2.
Qed.

Lemma baseDurationIs_eq element base :
  baseDurationIs element base → base = baseDurationOf (getAttribute element "dur").
Proof.
  unfold baseDurationIs, baseDurationOf.
  intros [(s & -> & P) | [[-> | (s & -> & P)] ->]]; [| done |].
  - destruct s as [|c s]; [by vm_compute in P|]. simpl. by rewrite P.
  - destruct (truthy (Some s)); [|done]. simpl. by rewrite P.
Qed.

Lemma repeatCountIs_eq element count :
  getAttribute element "repeatCount" ≠ Some "indefinite" →
  repeatCountIs element count →
  count = repeatCountOf (getAttribute element "repeatCount").
Proof.
  unfold repeatCountIs, repeatCountOf.
  intros Hc [(s & E & P & ->) | [[E | (s & E & P)] ->]]; rewrite E in Hc |- *.
  - destruct s as [|c s]; [by vm_compute in P|].
    rewrite bool_decide_eq_false_2 by done.
    change (truthy (Some (String c s)) && negb false) with true. cbv iota zeta.
    change (default "" (Some (String c s))) with (String c s).
    by rewrite (gt_not_NaN _ _ P), P.
  - done.
  - destruct (truthy (Some s) && _); [|done]. cbv iota zeta.
    change (default "" (Some s)) with s.
    rewrite P. by rewrite andb_false_r.
Qed.

Lemma totalSpanIs_eq element total :
  noSentinel element → totalSpanIs element total → total = totalDurationOf element.
Proof.
  intros (_ & Hc & Hr). unfold totalSpanIs, totalDurationOf, repeatDurationOf.
  intros [(s & E & P) | [H (base & count & Hb & Hn & ->)]].
  - rewrite E in Hr |- *. destruct s as [|c s]; [by vm_compute in P|].
    rewrite bool_decide_eq_false_2 by done. simpl. by rewrite P.
  - rewrite <- (baseDurationIs_eq _ _ Hb), <- (repeatCountIs_eq _ _ Hc Hn).
    destruct H as [-> | (s & -> & P)]; [done|].
    destruct (truthy (Some s) && _); simpl; by rewrite ?P.
Qed.

End Resolver.

(** C3. Take a directive without sentinel, its base duration as read from
    [dur] (0 when absent or unreadable) and its total span as read from
    the attributes: the time read from [repeatDur] when there is one, else
    base duration times repeat count.  When the total span exceeds
    3600000 ms the window is infinite, not explicit-forever, and keeps the
    base duration.  [dur="1s" repeatCount="5000"] gives such a window with
    base duration 1000, and so does [dur="1s" repeatDur="7200s"]. *)
Theorem C3_degenerate_long_duration :
  (∀ (element : Element) (base total : number),
     noSentinel element →
     baseDurationIs element base →
     totalSpanIs element total →
     gt total (of_Z 3600000) = true →
     parseAnimationTiming element =
     {| endTime := None; isInfinite := true;
        baseDuration := Some base; isExplicitInfinite := false |})
  ∧ parseAnimationTiming directive_1s_5000 =
    {| endTime := None; isInfinite := true;
       baseDuration := Some (of_Z 1000); isExplicitInfinite := false |}
  ∧ parseAnimationTiming directive_1s_for_7200s =
    {| endTime := None; isInfinite := true;
       baseDuration := Some (of_Z 1000); isExplicitInfinite := false |}.
Proof.
  split; [|split; by_evaluation].
  intros element base total Hs Hb Ht Hgt. rewrite (timing_noSentinel _ Hs).
  rewrite <- (totalSpanIs_eq _ _ Hs Ht), <- (baseDurationIs_eq _ _ Hb).
  change MAX_REASONABLE_DURATION with (of_Z 3600000). by rewrite Hgt.
Qed.

Lemma noSentinel_1s_5000 : noSentinel directive_1s_5000.
Proof. repeat split; vm_compute; discriminate. Qed.

Lemma C3_witness :
  noSentinel directive_1s_5000
  ∧ baseDurationIs directive_1s_5000 (of_Z 1000)
  ∧ totalSpanIs directive_1s_5000 (of_Z 1000 * of_Z 5000)%num
  ∧ gt (of_Z 1000 * of_Z 5000)%num (of_Z 3600000) = true
  ∧ parseAnimationTiming directive_1s_5000 =
    {| endTime := None; isInfinite := true;
       baseDuration := Some (of_Z 1000); isExplicitInfinite := false |}.
Proof.
  assert (baseDurationIs directive_1s_5000 (of_Z 1000)) as Hb.
  { left. exists "1s". split; by_evaluation. }
  assert (repeatCountIs directive_1s_5000 (of_Z 5000)) as Hc.
  { left. exists "5000". repeat split; by_evaluation. }
  assert (totalSpanIs directive_1s_5000 (of_Z 1000 * of_Z 5000)%num) as Ht.
  { right. split; [left; by_evaluation|]. by exists (of_Z 1000), (of_Z 5000). }
  assert (gt (of_Z 1000 * of_Z 5000)%num (of_Z 3600000) = true) as Hgt
    by by_evaluation.
  split; [exact noSentinel_1s_5000|]. split; [exact Hb|].
  split; [exact Ht|]. split; [exact Hgt|].
  exact (proj1 C3_degenerate_long_duration directive_1s_5000 _ _
           noSentinel_1s_5000 Hb Ht Hgt).
Defined.

#[local] Arguments of_Z : simpl never.
#[local] Arguments gt : simpl never.
#[local] Arguments le : simpl never.
#[local] Arguments mul : simpl never.
#[local] Arguments add : simpl never.
#[local] Arguments parseFloat : simpl never.
#[local] Arguments parseTime : simpl never.

(** C8 as stated, the end time of every sentinel-free directive being its
    start offset plus its total span, fails on [dur="1s" repeatCount="5000"]:
    the span is 5000000 ms and the window has no end time. *)
Lemma C8_counterexample :
  ¬ (∀ element : Element,
       noSentinel element →
       endTime (parseAnimationTiming element)
       = Some (startOffsetOf element + totalDurationOf element)%num).
Proof.
  intros H. specialize (H directive_1s_5000 noSentinel_1s_5000).
  vm_compute in H. discriminate H.
Qed.

(** C8, amended. For a directive without sentinel the total span is the
    parsed repeat duration when [repeatDur] is present and parseable, and
    otherwise base duration times repeat count, the repeat count being 1
    when [repeatCount] is absent, unparseable or not positive; the start
    offset is the parsed [begin], 0 when absent or unparseable; and when
    the total span does not exceed 3600000 ms the window is finite and ends
    at start offset plus total span. *)
Theorem C8_total_span_and_end_time (element : Element) :
  let repeatDur := getAttribute element "repeatDur" in
  let repeatCount := getAttribute element "repeatCount" in
  let begin := getAttribute element "begin" in
  let base := baseDurationOf (getAttribute element "dur") in
  let total := totalDurationOf element in
  let start := startOffsetOf element in
  noSentinel element →
  (∀ s r, repeatDur = Some s → s ≠ "" → parseTime s = Some r → total = r)
  ∧ ((repeatDur = None ∨ repeatDur = Some ""
      ∨ ∃ s, repeatDur = Some s ∧ parseTime s = None) →
     total = (base * repeatCountOf repeatCount)%num)
  ∧ ((repeatCount = None ∨ repeatCount = Some ""
      ∨ ∃ s, repeatCount = Some s
             ∧ (isNaN (parseFloat s) = true ∨ le (parseFloat s) 0%num = true)) →
     repeatCountOf repeatCount = 1%num)
  ∧ (∀ s, repeatCount = Some s → gt (parseFloat s) 0%num = true →
          repeatCountOf repeatCount = parseFloat s)
  ∧ ((begin = None ∨ begin = Some "" ∨ ∃ s, begin = Some s ∧ parseTime s = None) →
     start = 0%num)
  ∧ (∀ s b, begin = Some s → parseTime s = Some b → start = b)
  ∧ (gt total (of_Z 3600000) = false →
     isInfinite (parseAnimationTiming element) = false
     ∧ endTime (parseAnimationTiming element) = Some (start + total)%num).
Proof.
  intros repeatDur repeatCount begin base total start Hs.
  pose proof Hs as (Hd & Hc & Hr). fold repeatCount in Hc. fold repeatDur in Hr.
  assert (∀ s, s ≠ "" → truthy (Some s) = true) as T by (by intros [|??]).
  repeat split.
  - intros s r E Hne P. unfold total, totalDurationOf, repeatDurationOf.
    fold repeatDur. rewrite E in Hr |- *. rewrite (T _ Hne).
    rewrite bool_decide_eq_false_2 by done. simpl. by rewrite P.
  - intros H. unfold total, totalDurationOf, repeatDurationOf. fold repeatDur.
    destruct H as [-> | [-> | (s & -> & P)]]; try done.
    destruct (truthy (Some s) && _); simpl; by rewrite ?P.
  - intros H. unfold repeatCountOf.
    destruct H as [-> | [-> | (s & -> & P)]]; try done.
    destruct (truthy (Some s) && _); [|done]. simpl.
    destruct P as [P|P]; [by rewrite P|].
    apply le_spec in P as (N & _ & L). unfold gt. by rewrite N, L.
  - intros s E P. unfold repeatCountOf. rewrite E in Hc |- *.
    assert (s ≠ "") as Hne by (intros ->; by vm_compute in P).
    rewrite (T _ Hne), bool_decide_eq_false_2 by done. simpl.
    by rewrite (gt_not_NaN _ _ P), P.
  - intros H. unfold start, startOffsetOf, beginAttrOf. fold begin.
    destruct H as [-> | [-> | (s & -> & P)]]; [by_evaluation | by_evaluation |].
    destruct (truthy (Some s)); [|by_evaluation].
    simpl. unfold beginTimeOf. by rewrite P.
  - intros s b E P. unfold start, startOffsetOf, beginAttrOf. fold begin.
    rewrite E. assert (s ≠ "") as Hne by (intros ->; by vm_compute in P).
    rewrite (T _ Hne). simpl. unfold beginTimeOf. by rewrite P.
  - rewrite (timing_noSentinel _ Hs).
    change (gt (totalDurationOf element) MAX_REASONABLE_DURATION)
      with (gt total (of_Z 3600000)). by rewrite H.
  - rewrite (timing_noSentinel _ Hs).
    change (gt (totalDurationOf element) MAX_REASONABLE_DURATION)
      with (gt total (of_Z 3600000)). by rewrite H.
Qed.

Lemma noSentinel_directive_B : noSentinel directive_B.
Proof. repeat split; vm_compute; discriminate. Qed.

Lemma C8_witness :
  noSentinel directive_B
  ∧ isInfinite (parseAnimationTiming directive_B) = false
  ∧ endTime (parseAnimationTiming directive_B)
    = Some (startOffsetOf directive_B + totalDurationOf directive_B)%num.
Proof.
  split; [exact noSentinel_directive_B|].
  destruct (C8_total_span_and_end_time directive_B noSentinel_directive_B)
    as (_ & _ & _ & _ & _ & _ & F).
  apply F. by vm_compute.
Defined.

(** ** The [begin] attribute and infinite windows *)

Section Begin.

Implicit Types e d : Element.

(** [begin] is read for the end time of a finite window only. *)
Lemma timing_begin e1 e2 :
  differ_only_in_begin e1 e2 →
  let t1 := parseAnimationTiming e1 in
  let t2 := parseAnimationTiming e2 in
  isInfinite t1 = isInfinite t2
  ∧ baseDuration t1 = baseDuration t2
  ∧ isExplicitInfinite t1 = isExplicitInfinite t2
  ∧ (isInfinite t1 = true → t2 = t1).
Proof.
  intros H. unfold parseAnimationTiming, totalDurationOf.
  rewrite <- (H "dur"), <- (H "repeatCount"), <- (H "repeatDur") by done.
  repeat case_bool_decide; try done.
  destruct (gt _ _); done.
Qed.

Lemma contribution_begin e1 e2 :
  differ_only_in_begin e1 e2 →
  loopContribution e1 = loopContribution e2
  ∧ explicitContribution e1 = explicitContribution e2.
Proof.
  intros H. destruct (timing_begin _ _ H) as (Hi & Hb & Hx & _).
  unfold explicitContribution, loopContribution. by rewrite Hi, Hb, Hx.
Qed.

Lemma analyzeElements_begin (l1 l2 : list Element) :
  Forall2 differ_only_in_begin l1 l2 →
  AnimationInfo.hasAnimations (analyzeElements l1)
  = AnimationInfo.hasAnimations (analyzeElements l2)
  ∧ AnimationInfo.hasInfiniteAnimations (analyzeElements l1)
    = AnimationInfo.hasInfiniteAnimations (analyzeElements l2)
  ∧ AnimationInfo.loopDuration (analyzeElements l1)
    = AnimationInfo.loopDuration (analyzeElements l2).
Proof.
  intros H. rewrite !hasAnimations_eq, !hasInfinite_eq, !loopDuration_eq.
  assert (anyInfinite l1 = anyInfinite l2
          ∧ allLoopDurations l1 = allLoopDurations l2
          ∧ explicitForeverDurations l1 = explicitForeverDurations l2) as (-> & -> & ->).
  { induction H as [|e1 e2 l1 l2 He Hl (IH1 & IH2 & IH3)]; [done|].
    destruct (timing_begin _ _ He) as (Hi & _).
    destruct (contribution_begin _ _ He) as (Hc & Hx).
    unfold anyInfinite, allLoopDurations, explicitForeverDurations in *.
    cbn [existsb omap list_omap]. by rewrite Hi, Hc, Hx, IH1, IH2, IH3. }
  split; [|done]. by destruct H.
Qed.

(** An induction principle that reaches the children. *)
Lemma Element_children_ind (P : Element → Prop) :
  (∀ t a k, Forall P k → P (Elem t a k)) → ∀ e, P e.
Proof.
  intros H. fix IH 1. intros [t a k]. apply H.
  induction k as [|x k IHk]; constructor; [apply IH | exact IHk].
Qed.

Lemma alike_filter (l1 l2 : list Element) (name : string) :
  Forall2 alike l1 l2 →
  Forall2 alike (filter (λ d, tagName d = name) l1)
                (filter (λ d, tagName d = name) l2).
Proof.
  induction 1 as [|e1 e2 l1 l2 [Ht Hb] Hl IH]; [constructor|].
  rewrite !filter_cons, <- Ht. case_decide; [constructor|]; done.
Qed.

Lemma descendants_alike d1 d2 :
  same_up_to_begin d1 d2 → Forall2 alike (descendants d1) (descendants d2).
Proof.
  revert d2. induction d1 as [t1 a1 k1 IH] using Element_children_ind.
  intros [t2 a2 k2] (_ & _ & Hk). simpl.
  revert k2 Hk. induction IH as [|x1 k1 Hx _ IHk]; intros [|x2 k2] Hk; try done.
  destruct Hk as [Hx12 Hk]. simpl. constructor.
  - destruct x1, x2. destruct Hx12 as (-> & Ha & _). by split.
  - apply Forall2_app; [by apply Hx | by apply IHk].
Qed.

Lemma animationElements_alike d1 d2 :
  same_up_to_begin d1 d2 →
  Forall2 differ_only_in_begin (animationElements d1) (animationElements d2).
Proof.
  intros H%descendants_alike. unfold animationElements, getElementsByTagName.
  induction animationTags as [|name tags IH]; simpl; [constructor|].
  apply Forall2_app; [|exact IH].
  eapply Forall2_impl; [by apply alike_filter|]. by intros ?? [_ ?].
Qed.

End Begin.

(** C10. Two directives that differ only in [begin], one of which resolves
    to an infinite window, have the same timing window; whatever the
    window, [begin] changes neither that it is infinite, nor its base
    duration, nor its explicit-forever flag; hence two documents that
    differ only in [begin] attributes have the same
    [hasInfiniteAnimations] and the same [loopDuration]. *)
Theorem C10_begin_irrelevant_for_infinite :
  (∀ e1 e2 : Element,
     differ_only_in_begin e1 e2 →
     isInfinite (parseAnimationTiming e1) = true →
     parseAnimationTiming e2 = parseAnimationTiming e1)
  ∧ (∀ e1 e2 : Element,
       differ_only_in_begin e1 e2 →
       isInfinite (parseAnimationTiming e1) = isInfinite (parseAnimationTiming e2)
       ∧ baseDuration (parseAnimationTiming e1) = baseDuration (parseAnimationTiming e2)
       ∧ isExplicitInfinite (parseAnimationTiming e1)
         = isExplicitInfinite (parseAnimationTiming e2))
  ∧ (∀ e : Element, ∀ b1 b2 : string,
       isInfinite (parseAnimationTiming (setAttribute e "begin" b1)) = true →
       parseAnimationTiming (setAttribute e "begin" b2)
       = parseAnimationTiming (setAttribute e "begin" b1))
  ∧ (∀ d1 d2 : Element,
       same_up_to_begin d1 d2 →
       AnimationInfo.hasInfiniteAnimations (analyzeAnimations d1)
       = AnimationInfo.hasInfiniteAnimations (analyzeAnimations d2)
       ∧ AnimationInfo.loopDuration (analyzeAnimations d1)
         = AnimationInfo.loopDuration (analyzeAnimations d2)).
Proof.
  repeat split.
  - intros e1 e2 H Hi. by apply (timing_begin _ _ H).
  - by apply (timing_begin _ _ H).
  - by apply (timing_begin _ _ H).
  - by apply (timing_begin _ _ H).
  - intros e b1 b2 Hi. apply (timing_begin (setAttribute e "begin" b1)); [|done].
    intros name Hn. destruct e as [t a k]. unfold getAttribute. simpl.
    by rewrite !lookup_insert_ne.
  - by apply (analyzeElements_begin _ _ (animationElements_alike _ _ H)).
  - by apply (analyzeElements_begin _ _ (animationElements_alike _ _ H)).
Qed.

Lemma C10_witness :
  let e := animate [("dur", "2s"); ("repeatCount", "indefinite")] in
  isInfinite (parseAnimationTiming (setAttribute e "begin" "0s")) = true
  ∧ parseAnimationTiming (setAttribute e "begin" "5s")
    = parseAnimationTiming (setAttribute e "begin" "0s").
Proof.
  split; [by vm_compute|].
  destruct C10_begin_irrelevant_for_infinite as (_ & _ & F & _).
  apply F. by vm_compute.
Defined.

(** ** The duration decision of the command line *)

Lemma positive_truthy m : gt m 0%num = true → truthy_number (Some m) = true.
Proof.
  destruct m as [| | |q]; try done. unfold gt. simpl.
  rewrite bool_decide_eq_true. intros H.
  unfold is_zero. rewrite bool_decide_eq_false_2; [done|].
  intros ->. by apply (irreflexivity Qclt) in H.
Qed.

Lemma positive_valid m name :
  gt m 0%num = true → validatePositiveNumber m name = Ok m.
Proof.
  intros H. unfold validatePositiveNumber.
  rewrite (gt_not_NaN _ _ H). simpl.
  assert (le m 0%num = false) as ->; [|done].
  apply le_false_gt; [|done|done]. by eapply gt_not_NaN.
Qed.

(** The precedence of the duration decision, for a manual duration that
    is absent or greater than zero. *)
Lemma duration_precedence (manual : option number) (a : SVGAnalysis) :
  (∀ m, manual = Some m → gt m 0%num = true →
        main_durationMs manual a = Ok (m * of_Z 1000)%num)
  ∧ (manual = None → hasInfiniteAnimations a = true →
     ∀ l, loopDuration a = Some l → gt l 0%num = true →
          main_durationMs manual a = Ok l)
  ∧ (manual = None → hasInfiniteAnimations a = true → loopDuration a = None →
     ∃ message, main_durationMs manual a = Throw (ValidationError message))
  ∧ (manual = None → hasInfiniteAnimations a = false → hasAnimations a = false →
     ∃ message, main_durationMs manual a = Throw (ValidationError message))
  ∧ (manual = None → hasInfiniteAnimations a = false → hasAnimations a = true →
     duration a = None →
     ∃ message, main_durationMs manual a = Throw (ValidationError message))
  ∧ (manual = None → hasInfiniteAnimations a = false → hasAnimations a = true →
     ∀ t, duration a = Some t → main_durationMs manual a = Ok t).
Proof.
  unfold main_durationMs. repeat split.
  - intros m -> Hm. rewrite (positive_truthy _ Hm). simpl.
    by rewrite (positive_valid _ _ Hm).
  - intros -> -> l -> Hl. simpl. by rewrite Hl.
  - intros -> -> ->. simpl. eauto.
  - intros -> -> ->. simpl. eauto.
  - intros -> -> -> ->. simpl. eauto.
  - intros -> -> -> t ->. done.
Qed.

(** A loop duration that the analyzer returns is used when no manual
    duration is given: it is never zero. *)
Lemma loopDuration_used doc a l :
  analyzeSVG doc = Ok a →
  hasInfiniteAnimations a = true → loopDuration a = Some l →
  main_durationMs None a = Ok l.
Proof.
  intros Ha Hi Hl.
  destruct (duration_precedence None a) as (_ & F & _).
  apply (F eq_refl Hi l Hl).
  apply analyzeSVG_Ok in Ha as (svgElement & _ & _ & _ & _ & E).
  rewrite E in Hl. eapply allLoopDurations_pos, loopDuration_collected, Hl.
Qed.

(** C7. The precedence holds whenever the manual duration is absent or
    greater than zero (lemmas [duration_precedence] and
    [loopDuration_used]).  It fails for a manual duration of 0: on a
    document whose animation lasts 6000 ms, [main] does not let the
    supplied duration win, nor does it reject it as it rejects -5
    ("Duration must be a positive number"); it takes the 6000 ms of the
    analysis as if no duration had been given. *)
Theorem C7_manual_zero_not_validated :
  analyzeSVG (Some doc_2s_x3) = Ok analysis_finite
  ∧ main_durationMs (Some 0%num) analysis_finite = Ok (of_Z 6000)
  ∧ main_durationMs None analysis_finite = Ok (of_Z 6000)
  ∧ validatePositiveNumber 0%num "Duration"
    = Throw (Error "Duration must be a positive number")
  ∧ main_durationMs (Some (of_Z (-5))) analysis_finite
    = Throw (Error "Duration must be a positive number")
  ∧ main_durationMs (Some (of_Z 10)) analysis_finite = Ok (of_Z 10000).
Proof. repeat split; by_evaluation. Qed.

(** ** Dimensions *)

Lemma parseNumericAttribute_number value n :
  parseNumericAttribute value = Some n → isNaN n = false.
Proof.
  unfold parseNumericAttribute. destruct (match_numeric_prefix value); [|done].
  destruct (isNaN (parseFloat s)) eqn:E; [done|]. by intros [= <-].
Qed.

Lemma sizeAttribute_number svgElement name n :
  sizeAttribute svgElement name = Some n → isNaN n = false.
Proof.
  unfold sizeAttribute. destruct (truthy _); [|done].
  apply parseNumericAttribute_number.
Qed.

Lemma le_negb_gt a b :
  isNaN a = false → isNaN b = false → le a b = negb (gt a b).
Proof. intros Ha Hb. unfold le, gt. by rewrite Ha, Hb. Qed.

Lemma positivePair_spec w h :
  isNaN w = false → isNaN h = false →
  (if le w 0%num || le h 0%num
   then Throw (ValidationError no_dimensions)
   else Ok {| width := w; height := h |}) = positivePair w h.
Proof.
  intros Hw Hh. unfold positivePair.
  rewrite (le_negb_gt w 0%num Hw eq_refl), (le_negb_gt h 0%num Hh eq_refl).
  by destruct (gt w 0%num), (gt h 0%num).
Qed.


Lemma selectDimensions_eq svgElement :
  selectDimensions svgElement =
  match sizeAttribute svgElement "width", sizeAttribute svgElement "height" with
  | Some w, Some h => (Some w, Some h)
  | w, h =>
      match viewBoxSize svgElement with
      | Some (w', h') => (Some w', Some h')
      | None => (w, h)
      end
  end.
Proof.
  unfold selectDimensions, sizeAttribute, viewBoxSize.
  set (w := if truthy (getAttribute svgElement "width") then _ else _).
  set (h := if truthy (getAttribute svgElement "height") then _ else _).
  set (parts := split_ws _).
  destruct (truthy (getAttribute svgElement "viewBox")).
  - destruct parts as [|p0 [|p1 [|p2 [|p3 [|p4 ps]]]]]; simpl;
      by destruct w, h.
  - by destruct w, h.
Qed.



(** With a [NaN] among the bounding-box numbers no failure is raised. *)
Lemma viewBox_NaN_accepted :
  extractDimensions (svg [("viewBox", "0 0 a b")] [])
  = Ok {| width := NaN; height := NaN |}.
Proof. by_evaluation. Qed.

(** ** What [parseTime] accepts *)

Section TimeStrings.

Implicit Types (s g u : string) (p : ascii → bool).

Lemma span_app p s : fst (span p s) +:+ snd (span p s) = s.
Proof.
  induction s as [|c s IH]; simpl; [done|].
  destruct (p c); [|done]. destruct (span p s) as [a b]. simpl in *. by rewrite <- IH.
Qed.

Lemma span_all p s : all_chars p (fst (span p s)) = true.
Proof.
  induction s as [|c s IH]; simpl; [done|].
  destruct (p c) eqn:E; [|done]. destruct (span p s) as [a b]. simpl in *.
  by rewrite E, IH.
Qed.

(** A run of [p]-characters followed by a text that does not start with
    one is cut by [span] where the run ends. *)
Lemma span_unique p g u :
  all_chars p g = true →
  match u with String c _ => p c = false | EmptyString => True end →
  span p (g +:+ u) = (g, u).
Proof.
  intros Hg Hu. induction g as [|c g IH]; simpl in *.
  - destruct u as [|c u]; [done|]. simpl. by rewrite Hu.
  - apply andb_true_iff in Hg as [Hc Hg]. by rewrite Hc, (IH Hg).
Qed.

Lemma unit_not_numeric u :
  toLowerCase u = "ms" ∨ toLowerCase u = "s" →
  match u with String c _ => is_digit_or_dot c = false | EmptyString => True end.
Proof.
  destruct u as [|c u]; [done|]. simpl.
  assert (is_digit_or_dot c = true → lower c ≠ "m"%char ∧ lower c ≠ "s"%char) as H.
  { unfold is_digit_or_dot, is_digit, lower, code.
    destruct c as [[] [] [] [] [] [] [] []]; by vm_compute. }
  destruct (is_digit_or_dot c); [|done].
  destruct (H eq_refl) as [Hm Hs]. intros [[= ? _]|[= ? _]]; done.
Qed.

(** [parseTime] answers non-null exactly on the strings made of a run of
    digits and dots and a unit, and then with the number [parseFloat]
    reads from the run, taken as milliseconds or as seconds. *)
Lemma parseTime_Some s v :
  parseTime s = Some v ↔
  ∃ g u, time_shape s g u
         ∧ v = if bool_decide (toLowerCase u = "ms") then parseFloat g
               else (parseFloat g * of_Z 1000)%num.
Proof.
  unfold parseTime, match_time, time_shape. split.
  - pose proof (span_app is_digit_or_dot s) as Happ.
    pose proof (span_all is_digit_or_dot s) as Hall.
    destruct (span is_digit_or_dot s) as [g u]. simpl in *.
    destruct g as [|c g]; [done|].
    destruct (bool_decide (toLowerCase u = "ms")) eqn:Ems; simpl; rewrite ?Ems.
    + intros [= <-]. exists (String c g), u. rewrite Ems.
      apply bool_decide_eq_true in Ems. auto 10.
    + destruct (bool_decide (toLowerCase u = "s")) eqn:Es; simpl; rewrite ?Ems, ?Es;
        [|done].
      intros [= <-]. exists (String c g), u. rewrite Ems.
      apply bool_decide_eq_true in Es. auto 10.
  - intros (g & u & (-> & Hne & Hall & Hu) & ->).
    rewrite (span_unique _ g u Hall (unit_not_numeric u Hu)).
    destruct g as [|c g]; [done|].
    destruct Hu as [Hu|Hu]; rewrite Hu; simpl; by rewrite Hu.
Qed.

Lemma parseTime_None s : parseTime s = None ↔ ¬ ∃ g u, time_shape s g u.
Proof.
  split.
  - intros H (g & u & Hs).
    assert (parseTime s = Some (if bool_decide (toLowerCase u = "ms") then parseFloat g
               else (parseFloat g * of_Z 1000)%num)) as E
      by (apply parseTime_Some; eauto).
    congruence.
  - intros H. destruct (parseTime s) as [v|] eqn:E; [|done].
    apply parseTime_Some in E as (g & u & Hs & _). destruct H. eauto.
Qed.

End TimeStrings.

(** C4. The parser answers 1500 for [1.5s], 1000 for [1000ms] and null
    for [abc].  But a string that is not a
    number followed by a unit can be answered with a number all the same:
    [.s] gives [NaN], where [parseNumericAttribute] answers null on the
    same digits, and [1.2.3s] gives 1200. *)
Theorem C4_parseTime_not_a_number :
  parseTime "1.5s" = Some (of_Z 1500)
  ∧ parseTime "1000ms" = Some (of_Z 1000)
  ∧ parseTime "abc" = None
  ∧ parseTime ".s" = Some NaN
  ∧ parseNumericAttribute "." = None
  ∧ parseTime "1.2.3s" = Some (of_Z 1200).
Proof. repeat split; by_evaluation. Qed.

(** ** Numbers read from digits are not negative *)

Section NonNegative.

Implicit Types (a b : number) (s g : string).

Lemma nonneg_Fin (q : Qc) : (0 ≤ q)%Qc → nonneg (Fin q).
Proof.
  intros H. unfold nonneg, le, lt. simpl.
  rewrite bool_decide_eq_false_2; [done|]. by apply Qcle_not_lt.
Qed.

Lemma nonneg_Fin_inv (q : Qc) : nonneg (Fin q) → (0 ≤ q)%Qc.
Proof.
  unfold nonneg, le, lt. simpl. intros H%negb_true_iff%bool_decide_eq_false.
  by apply Qcnot_lt_le.
Qed.

Lemma positive_nonneg a : gt a 0%num = true → nonneg a.
Proof. intros H. by apply lt_le. Qed.

Lemma Q2Qc_nonneg (q : Q) : (0 <= q)%Q → (0 ≤ Q2Qc q)%Qc.
Proof. intros H. unfold Qcle. simpl. by apply (Qred_le 0 q). Qed.

Lemma scale10_nonneg (m e : Z) : 0 ≤ m → (0 ≤ scale10 m e)%Qc.
Proof.
  intros Hm. unfold scale10. destruct (0 <=? e) eqn:E; apply Q2Qc_nonneg.
  - apply Z.leb_le in E. unfold Qle. simpl.
    assert (0 ≤ 10 ^ e) by (apply Z.pow_nonneg; lia). nia.
  - unfold Qle. simpl. lia.
Qed.

Lemma digit_value_nonneg (c : ascii) : is_digit c = true → 0 ≤ digit_value c.
Proof.
  unfold is_digit, digit_value. intros [H _]%andb_true_iff.
  apply N.leb_le in H. lia.
Qed.

Lemma digits_value_nonneg s (acc : Z) :
  all_chars is_digit s = true → 0 ≤ acc → 0 ≤ digits_value acc s.
Proof.
  revert acc. induction s as [|c s IH]; intros acc Hs Hacc; simpl in *; [done|].
  apply andb_true_iff in Hs as [Hc Hs]. apply IH; [done|].
  pose proof (digit_value_nonneg c Hc). lia.
Qed.

Lemma all_chars_app (p : ascii → bool) s g :
  all_chars p s = true → all_chars p g = true → all_chars p (s +:+ g) = true.
Proof.
  intros Hs Hg. induction s as [|c s IH]; simpl in *; [done|].
  apply andb_true_iff in Hs as [Hc Hs]. by rewrite Hc, (IH Hs).
Qed.

Lemma parse_unsigned_nonneg s v : parse_unsigned s = Some v → nonneg v.
Proof.
  unfold parse_unsigned. destruct (starts_with "Infinity" s); [by intros [= <-]|].
  pose proof (span_all is_digit s) as Hip.
  destruct (span is_digit s) as [ip r1]. simpl in Hip.
  assert (∀ e, ip ≠ "" → Some (Fin (scale10 (digits_value 0 ip) e)) = Some v → nonneg v) as Hint.
  { intros e _ [= <-]. apply nonneg_Fin, scale10_nonneg.
    by apply digits_value_nonneg. }
  destruct r1 as [|c r2].
  { destruct ip; [done|]. by apply Hint. }
  destruct (decide (c = "."%char)) as [->|Hc].
  - pose proof (span_all is_digit r2) as Hfp.
    destruct (span is_digit r2) as [fp r3]. simpl in Hfp.
    assert (Some (Fin (scale10 (digits_value 0 (ip +:+ fp))
                    (exponent r3 - Z.of_nat (String.length fp)))) = Some v → nonneg v) as Hfrac.
    { intros [= <-]. apply nonneg_Fin, scale10_nonneg.
      apply digits_value_nonneg; [by apply all_chars_app|done]. }
    destruct ip, fp; done.
  - assert ((match ip with
             | EmptyString => None
             | String _ _ => Some (Fin (scale10 (digits_value 0 ip) (exponent (String c r2))))
             end) = Some v → nonneg v) as H.
    { destruct ip; [done|]. by apply Hint. }
    destruct c as [[] [] [] [] [] [] [] []]; try exact H. by destruct Hc.
Qed.

(** A run of digits and dots reads as [NaN] or as a number that is not
    negative. *)
Lemma parseFloat_numeric g :
  all_chars is_digit_or_dot g = true → nan_or_nonneg (parseFloat g).
Proof.
  destruct g as [|c g]; [by left|]. simpl. intros [Hc _]%andb_true_iff.
  assert (is_white_space c = false ∧ c ≠ "-"%char ∧ c ≠ "+"%char) as (Hw & Hm & Hp).
  { revert Hc. unfold is_digit_or_dot, is_digit, is_white_space, code.
    destruct c as [[] [] [] [] [] [] [] []]; by vm_compute. }
  unfold parseFloat, trimStart. simpl. rewrite Hw.
  rewrite !bool_decide_eq_false_2 by done.
  destruct (parse_unsigned (String c g)) as [v|] eqn:E; [|by left].
  right. by eapply parse_unsigned_nonneg.
Qed.

Lemma mul_nan_or_nonneg a b :
  nan_or_nonneg a → nan_or_nonneg b → nan_or_nonneg (a * b)%num.
Proof.
  intros [Ha|Ha]; [destruct a; try done; by left|].
  intros [Hb|Hb]; [destruct a, b; try done; by left|].
  destruct a as [| | |x], b as [| | |y]; try done; try (by right).
  - unfold mul. destruct (is_zero y) eqn:Z; [by left|]. right.
    apply nonneg_Fin_inv in Hb. apply bool_decide_eq_false in Z.
    unfold sign_pos. rewrite bool_decide_eq_true_2; [done|].
    destruct (Qcle_lt_or_eq _ _ Hb); [done|]. by destruct Z.
  - unfold mul. destruct (is_zero x) eqn:Z; [by left|]. right.
    apply nonneg_Fin_inv in Ha. apply bool_decide_eq_false in Z.
    unfold sign_pos. rewrite bool_decide_eq_true_2; [done|].
    destruct (Qcle_lt_or_eq _ _ Ha); [done|]. by destruct Z.
  - right. apply nonneg_Fin, Qcmult_nonneg_nonneg; by apply nonneg_Fin_inv.
Qed.

Lemma add_nan_or_nonneg a b :
  nan_or_nonneg a → nan_or_nonneg b → nan_or_nonneg (a + b)%num.
Proof.
  intros [Ha|Ha]; [destruct a; try done; by left|].
  intros [Hb|Hb]; [destruct a, b; try done; by left|].
  destruct a as [| | |x], b as [| | |y]; try done; try (by right).
  right. apply nonneg_Fin.
  apply nonneg_Fin_inv in Ha, Hb.
  replace 0%Qc with (0 + 0)%Qc by ring. by apply Qcplus_le_compat.
Qed.

Lemma parseTime_nan_or_nonneg s v : parseTime s = Some v → nan_or_nonneg v.
Proof.
  intros (g & u & (_ & _ & Hg & _) & ->)%parseTime_Some.
  pose proof (parseFloat_numeric g Hg) as H.
  destruct (bool_decide _); [done|].
  apply mul_nan_or_nonneg; [done|]. by right.
Qed.

End NonNegative.

(** ** The total duration as a maximum *)

Section FiniteReduction.

Implicit Types (e : Element) (els : list Element).

Lemma baseDurationOf_nonneg (a : option string) : nan_or_nonneg (baseDurationOf a).
Proof.
  unfold baseDurationOf. destruct (truthy a); [|by right].
  destruct (parseTime _) eqn:E; [|by right]. by eapply parseTime_nan_or_nonneg.
Qed.

Lemma repeatCountOf_nonneg (a : option string) : nan_or_nonneg (repeatCountOf a).
Proof.
  unfold repeatCountOf. destruct (_ && _); [|by right].
  destruct (negb _ && gt _ _) eqn:E; [|by right].
  apply andb_true_iff in E as [_ E]. right. by apply positive_nonneg.
Qed.

Lemma totalDurationOf_nonneg e : nan_or_nonneg (totalDurationOf e).
Proof.
  unfold totalDurationOf, repeatDurationOf.
  destruct (_ && _).
  - destruct (parseTime _) eqn:E; [by eapply parseTime_nan_or_nonneg|].
    apply mul_nan_or_nonneg; auto using baseDurationOf_nonneg, repeatCountOf_nonneg.
  - apply mul_nan_or_nonneg; auto using baseDurationOf_nonneg, repeatCountOf_nonneg.
Qed.

Lemma startOffsetOf_nonneg e : nan_or_nonneg (startOffsetOf e).
Proof.
  unfold startOffsetOf, beginTimeOf.
  destruct (parseTime _) eqn:E; [by eapply parseTime_nan_or_nonneg | by right].
Qed.

(** A finite window ends at start offset plus total span. *)
Lemma finite_endTime e :
  isInfinite (parseAnimationTiming e) = false →
  finiteEndTime e = Some (startOffsetOf e + totalDurationOf e)%num.
Proof.
  unfold finiteEndTime, parseAnimationTiming, startOffsetOf.
  repeat case_bool_decide; try done. by destruct (gt _ _).
Qed.

Lemma finiteEndTime_nonneg e t : finiteEndTime e = Some t → nan_or_nonneg t.
Proof.
  unfold finiteEndTime.
  destruct (isInfinite (parseAnimationTiming e)) eqn:E; [done|].
  pose proof (finite_endTime e E) as H. unfold finiteEndTime in H.
  rewrite E in H. rewrite H. intros [= <-].
  apply add_nan_or_nonneg; auto using startOffsetOf_nonneg, totalDurationOf_nonneg.
Qed.

Lemma endTimes_allFinite els :
  allFinite els →
  endTimes els = (λ e, (startOffsetOf e + totalDurationOf e)%num) <$> els.
Proof.
  induction 1 as [|e els He _ IH]; [done|].
  unfold endTimes in *. cbn [omap list_omap fmap list_fmap].
  by rewrite (finite_endTime e He), IH.
Qed.

(** When no window is infinite and no end time is [NaN], [duration] is the
    greatest end time, and null exactly when that is zero. *)
Lemma duration_is_maximum els :
  els ≠ [] → allFinite els → numbers (endTimes els) →
  ∃ m, is_maximum m (endTimes els)
       ∧ AnimationInfo.duration (analyzeElements els)
         = (if bool_decide (m = 0%num) then None else Some m).
Proof.
  intros Hne Hfin Hnum. rewrite duration_eq. simpl.
  rewrite (bool_decide_eq_false_2 _ Hne).
  apply anyInfinite_false in Hfin as Hinf. rewrite Hinf. simpl.
  assert (endTimes els ≠ []) as Hts.
  { rewrite (endTimes_allFinite _ Hfin). by destruct els. }
  assert (∀ t, t ∈ endTimes els → nonneg t) as Hpos.
  { intros t Ht. pose proof Ht as (e & _ & He)%list_elem_of_omap.
    destruct (finiteEndTime_nonneg _ _ He) as [N|N]; [|done].
    pose proof (proj1 (Forall_forall _ _) Hnum _ Ht) as F. simpl in F.
    by rewrite F in N. }
  destruct (foldl_max2 (endTimes els) 0%num eq_refl Hnum) as (N & A & U & M).
  set (m := foldl max2 0%num (endTimes els)) in *.
  assert (is_maximum m (endTimes els)) as Hmax.
  { split; [|exact U]. destruct M as [M|M]; [|exact M].
    destruct (endTimes els) as [|t ts] eqn:E; [done|].
    assert (t = m) as Htm; [|rewrite Htm; apply list_elem_of_here].
    apply le_antisym; [apply U, list_elem_of_here|].
    rewrite M. apply Hpos, list_elem_of_here. }
  exists m. split; [exact Hmax|].
  case_bool_decide as Hz.
  - by rewrite Hz.
  - assert (gt m 0%num = true) as ->; [|done].
    destruct (le_lt_or_eq _ _ A) as [L|E]; [exact L|]. by destruct Hz.
Qed.

End FiniteReduction.

(** C2. Directive A (no offset, 2s, three times) with directive B (1s
    offset, 1s, once) gives 6000.  But with [dur=".s"]
    next to [dur="2s"] no window is infinite, the end times are [NaN] and
    2000, and [duration] is null instead of 2000: the [NaN] that
    [parseTime] lets through is kept by [Math.max]. *)
Theorem C2_duration_lost_to_NaN :
  AnimationInfo.duration (analyzeAnimations doc_A_B) = Some (of_Z 6000)
  ∧ allFinite (animationElements doc_dot_and_2s)
  ∧ endTimes (animationElements doc_dot_and_2s) = [NaN; of_Z 2000]
  ∧ AnimationInfo.duration (analyzeAnimations doc_dot_and_2s) = None.
Proof.
  split; [by_evaluation|]. split; [|split; by_evaluation].
  apply anyInfinite_false. by vm_compute.
Qed.

(** * Further properties *)

(** ** Timing windows *)

(** X1. A timing window has no end time exactly when it is infinite; an
    explicit-forever window is infinite; and its base duration is unknown
    exactly when [dur] is [indefinite]. *)
Theorem X1_timing_window_invariant (element : Element) :
  let t := parseAnimationTiming element in
  (endTime t = None ↔ isInfinite t = true)
  ∧ (isExplicitInfinite t = true → isInfinite t = true)
  ∧ (baseDuration t = None ↔ getAttribute element "dur" = Some "indefinite").
Proof.
  unfold parseAnimationTiming.
  repeat case_bool_decide; try destruct (gt _ _); simpl; intuition congruence.
Qed.


(** ** Loop durations *)

(** X3. When no explicit-forever duration is collected but some infinite
    window has a known positive base duration, [loopDuration] is the
    greatest of these base durations, whatever its size: the ten-minute
    ceiling plays no part. *)
Theorem X3_loopDuration_fallback (svgElement : Element) :
  let els := animationElements svgElement in
  explicitForeverDurations els = [] →
  allLoopDurations els ≠ [] →
  ∃ m, AnimationInfo.loopDuration (analyzeAnimations svgElement) = Some m
       ∧ is_maximum m (allLoopDurations els).
Proof.
  intros els Hex Hall. unfold analyzeAnimations. fold els.
  rewrite loopDuration_eq, Hex.
  rewrite (allLoopDurations_nonempty_infinite _ Hall).
  rewrite (bool_decide_eq_true_2 _ Hall). simpl.
  eexists. split; [done|].
  apply Math_max_is_maximum; [done|].
  apply pos_numbers. intros d. apply allLoopDurations_pos.
Qed.

Lemma X3_witness :
  (explicitForeverDurations (animationElements doc_long_finite) = []
   ∧ allLoopDurations (animationElements doc_long_finite) ≠ [])
  ∧ ∃ m, AnimationInfo.loopDuration (analyzeAnimations doc_long_finite) = Some m
         ∧ is_maximum m (allLoopDurations (animationElements doc_long_finite)).
Proof.
  assert (explicitForeverDurations (animationElements doc_long_finite) = []
          ∧ allLoopDurations (animationElements doc_long_finite) ≠ []) as H.
  { split; [by vm_compute | vm_compute; discriminate]. }
  split; [exact H|].
  exact (X3_loopDuration_fallback doc_long_finite (proj1 H) (proj2 H)).
Defined.

(** X4. A loop duration is found exactly when some infinite window has a
    known base duration greater than zero. *)
Theorem X4_loopDuration_found (svgElement : Element) :
  AnimationInfo.loopDuration (analyzeAnimations svgElement) ≠ None ↔
  ∃ e d, e ∈ animationElements svgElement
         ∧ isInfinite (parseAnimationTiming e) = true
         ∧ baseDuration (parseAnimationTiming e) = Some d
         ∧ gt d 0%num = true.
Proof.
  unfold analyzeAnimations. set (els := animationElements svgElement).
  split.
  - destruct (AnimationInfo.loopDuration _) as [v|] eqn:E; [|done]. intros _.
    apply loopDuration_collected in E.
    apply list_elem_of_omap in E as (e & He & Hc). exists e, v.
    unfold loopContribution in Hc.
    destruct (isInfinite _); [|done]. simpl in Hc.
    destruct (baseDuration _) as [b|]; [|done]. simpl in Hc.
    destruct (gt b 0%num) eqn:G; [|done]. by injection Hc as ->.
  - intros (e & d & He & Hi & Hb & Hd).
    assert (d ∈ allLoopDurations els) as Hin.
    { apply list_elem_of_omap. exists e. split; [done|].
      unfold loopContribution. by rewrite Hi, Hb; simpl; rewrite Hd. }
    assert (allLoopDurations els ≠ []) as Hall.
    { intros N. rewrite N in Hin. by apply elem_of_nil in Hin. }
    rewrite loopDuration_eq.
    rewrite (allLoopDurations_nonempty_infinite _ Hall).
    rewrite (bool_decide_eq_true_2 _ Hall). simpl.
    by repeat case_bool_decide.
Qed.

(** ** Which elements are analyzed, and in which order *)

Section Directives.

Implicit Types (l : list Element) (tags : list string).

Lemma filter_tags_cons l t tags :
  t ∉ tags →
  filter (λ d, tagName d ∈ t :: tags) l
  ≡ₚ filter (λ d, tagName d = t) l ++ filter (λ d, tagName d ∈ tags) l.
Proof.
  intros Ht. induction l as [|x l IH]; [done|].
  rewrite !filter_cons.
  destruct (decide (tagName x = t)) as [E|E].
  - rewrite decide_True by (rewrite E; apply list_elem_of_here).
    rewrite decide_False by (by rewrite E). simpl. by rewrite IH.
  - destruct (decide (tagName x ∈ tags)) as [I|I].
    + rewrite decide_True by (by apply list_elem_of_further).
      rewrite IH. apply Permutation_middle.
    + rewrite decide_False; [done|]. by intros [?|?]%elem_of_cons.
Qed.

Lemma flat_map_filter_tags l tags :
  NoDup tags →
  flat_map (λ t, filter (λ d, tagName d = t) l) tags
  ≡ₚ filter (λ d, tagName d ∈ tags) l.
Proof.
  induction 1 as [|t tags Ht _ IH]; simpl.
  - induction l as [|x l IHl]; [done|].
    rewrite filter_cons, decide_False; [done|]. apply not_elem_of_nil.
  - by rewrite IH, filter_tags_cons.
Qed.

Lemma animationElements_directives svgElement :
  animationElements svgElement ≡ₚ directives svgElement.
Proof.
  apply flat_map_filter_tags. unfold animationTags.
  apply (bool_decide_unpack _). by vm_compute.
Qed.

End Directives.

(** X5. The loops of [analyzeAnimations] visit every element below the root
    that is one of the five kinds of animation element exactly once, at
    whatever depth, and nothing else; the root itself is never visited.
    So [hasAnimations] holds exactly when there is such an element. *)
Theorem X5_directives_visited_once (svgElement : Element) :
  animationElements svgElement ≡ₚ
    filter (λ d, tagName d ∈ animationTags) (descendants svgElement)
  ∧ (AnimationInfo.hasAnimations (analyzeAnimations svgElement) = true ↔
     ∃ d, d ∈ descendants svgElement ∧ tagName d ∈ animationTags).
Proof.
  pose proof (animationElements_directives svgElement) as P.
  split; [exact P|].
  unfold analyzeAnimations. rewrite hasAnimations_eq.
  rewrite negb_true_iff, bool_decide_eq_false. split.
  - intros H. destruct (animationElements svgElement) as [|d l] eqn:E; [done|].
    assert (d ∈ directives svgElement) as Hd
      by (rewrite <- P; apply list_elem_of_here).
    apply list_elem_of_filter in Hd as [? ?]. eauto.
  - intros (d & Hd & Ht) E.
    assert (d ∈ animationElements svgElement) as Hin
      by (rewrite P; by apply list_elem_of_filter).
    rewrite E in Hin. by apply elem_of_nil in Hin.
Qed.

Section OrderIndependence.

Implicit Types (a x y : number) (l : list number).

Lemma max2_NaN a x : isNaN a = true ∨ isNaN x = true → max2 a x = NaN.
Proof. by intros [H|H]; destruct a, x. Qed.

Lemma min2_NaN a x : isNaN a = true ∨ isNaN x = true → min2 a x = NaN.
Proof. by intros [H|H]; destruct a, x. Qed.

Lemma max2_number a x :
  isNaN a = false → isNaN x = false → isNaN (max2 a x) = false.
Proof. intros Ha Hx. by destruct (max2_cases a x Ha Hx) as [[-> _]|[-> _]]. Qed.

Lemma min2_number a x :
  isNaN a = false → isNaN x = false → isNaN (min2 a x) = false.
Proof. intros Ha Hx. by destruct (min2_cases a x Ha Hx) as [[-> _]|[-> _]]. Qed.

(** [Math.max] of three numbers does not depend on the order of the last
    two. *)
Lemma max2_right_comm a x y : max2 (max2 a x) y = max2 (max2 a y) x.
Proof.
  destruct (isNaN a) eqn:Ha.
  { by rewrite !(max2_NaN a), !(max2_NaN NaN) by auto. }
  destruct (isNaN x) eqn:Hx.
  { rewrite (max2_NaN a x), (max2_NaN NaN y), (max2_NaN _ x) by auto. done. }
  destruct (isNaN y) eqn:Hy.
  { rewrite (max2_NaN _ y), (max2_NaN a y), (max2_NaN NaN x) by auto. done. }
  assert (∀ b c, isNaN b = false → isNaN c = false →
            le a (max2 (max2 a b) c) = true ∧ le b (max2 (max2 a b) c) = true
            ∧ le c (max2 (max2 a b) c) = true
            ∧ (max2 (max2 a b) c = a ∨ max2 (max2 a b) c = b
               ∨ max2 (max2 a b) c = c)) as H.
  { intros b c Hb Hc.
    pose proof (max2_number a b Ha Hb) as Hab.
    destruct (max2_cases a b Ha Hb) as [[E1 L1]|[E1 L1]];
      destruct (max2_cases (max2 a b) c Hab Hc) as [[E2 L2]|[E2 L2]];
      rewrite E2; rewrite E1 in *; repeat split;
      eauto using le_refl, le_trans. }
  destruct (H x y Hx Hy) as (A1 & X1 & Y1 & M1).
  destruct (H y x Hy Hx) as (A2 & Y2 & X2 & M2).
  apply le_antisym.
  - destruct M1 as [-> | [-> | ->]]; done.
  - destruct M2 as [-> | [-> | ->]]; done.
Qed.

Lemma min2_right_comm a x y : min2 (min2 a x) y = min2 (min2 a y) x.
Proof.
  destruct (isNaN a) eqn:Ha.
  { by rewrite !(min2_NaN a), !(min2_NaN NaN) by auto. }
  destruct (isNaN x) eqn:Hx.
  { rewrite (min2_NaN a x), (min2_NaN NaN y), (min2_NaN _ x) by auto. done. }
  destruct (isNaN y) eqn:Hy.
  { rewrite (min2_NaN _ y), (min2_NaN a y), (min2_NaN NaN x) by auto. done. }
  assert (∀ b c, isNaN b = false → isNaN c = false →
            le (min2 (min2 a b) c) a = true ∧ le (min2 (min2 a b) c) b = true
            ∧ le (min2 (min2 a b) c) c = true
            ∧ (min2 (min2 a b) c = a ∨ min2 (min2 a b) c = b
               ∨ min2 (min2 a b) c = c)) as H.
  { intros b c Hb Hc.
    pose proof (min2_number a b Ha Hb) as Hab.
    destruct (min2_cases a b Ha Hb) as [[E1 L1]|[E1 L1]];
      destruct (min2_cases (min2 a b) c Hab Hc) as [[E2 L2]|[E2 L2]];
      rewrite E2; rewrite E1 in *; repeat split;
      eauto using le_refl, le_trans. }
  destruct (H x y Hx Hy) as (A1 & X1 & Y1 & M1).
  destruct (H y x Hy Hx) as (A2 & Y2 & X2 & M2).
  apply le_antisym.
  - destruct M2 as [-> | [-> | ->]]; done.
  - destruct M1 as [-> | [-> | ->]]; done.
Qed.

Lemma foldl_permutation (f : number → number → number) a l1 l2 :
  (∀ b x y, f (f b x) y = f (f b y) x) →
  l1 ≡ₚ l2 → foldl f a l1 = foldl f a l2.
Proof.
  intros Hf H. revert a.
  induction H as [|x l1 l2 _ IH|x y l|l1 l2 l3 _ IH1 _ IH2]; intros a; simpl.
  - done.
  - apply IH.
  - by rewrite Hf.
  - by rewrite IH1.
Qed.

Lemma nonempty_permutation {A} (l1 l2 : list A) :
  l1 ≡ₚ l2 → bool_decide (l1 = []) = bool_decide (l2 = []).
Proof.
  intros H. apply bool_decide_ext. split; intros ->.
  - by apply Permutation_nil_l in H.
  - by apply Permutation_nil_r in H.
Qed.

Lemma nonempty_permutation' {A} (l1 l2 : list A) :
  l1 ≡ₚ l2 → bool_decide (l1 ≠ []) = bool_decide (l2 ≠ []).
Proof.
  intros H. apply bool_decide_ext.
  split; intros N E; apply N; subst.
  - by apply Permutation_nil_r in H.
  - by apply Permutation_nil_l in H.
Qed.

Lemma anyInfinite_permutation (l1 l2 : list Element) :
  l1 ≡ₚ l2 → anyInfinite l1 = anyInfinite l2.
Proof.
  intros H. apply eq_true_iff_eq. rewrite !anyInfinite_true.
  split; intros (e & He & Hi); exists e; split; try done.
  - by rewrite <- H.
  - by rewrite H.
Qed.

(** [analyzeAnimations] on a list of elements does not depend on their
    order. *)
Lemma analyzeElements_permutation (l1 l2 : list Element) :
  l1 ≡ₚ l2 → analyzeElements l1 = analyzeElements l2.
Proof.
  intros H. unfold analyzeElements. rewrite !acc_fold.
  unfold loopDurationOf. simpl.
  assert (endTimes l1 ≡ₚ endTimes l2) as He by (unfold endTimes; by rewrite H).
  assert (allLoopDurations l1 ≡ₚ allLoopDurations l2) as Ha
    by (unfold allLoopDurations; by rewrite H).
  assert (explicitForeverDurations l1 ≡ₚ explicitForeverDurations l2) as Hx
    by (unfold explicitForeverDurations; by rewrite H).
  assert (filter (λ d, le d REASONABLE_LOOP = true) (explicitForeverDurations l1)
          ≡ₚ filter (λ d, le d REASONABLE_LOOP = true) (explicitForeverDurations l2))
    as Hr by (by rewrite Hx).
  rewrite (foldl_permutation max2 _ _ _ max2_right_comm He).
  rewrite (nonempty_permutation _ _ H), (anyInfinite_permutation _ _ H).
  unfold Math_max, Math_min.
  rewrite (foldl_permutation max2 _ _ _ max2_right_comm Ha).
  rewrite (foldl_permutation max2 _ _ _ max2_right_comm Hr).
  rewrite (foldl_permutation min2 _ _ _ min2_right_comm Hx).
  rewrite (Permutation_length Ha), (Permutation_length Hx), (Permutation_length Hr).
  done.
Qed.

End OrderIndependence.

(** X6. The result of [analyzeAnimations] does not depend on the order of
    the animation elements: any rearrangement of the elements it visits
    gives the same four values.  In particular visiting them tag by tag,
    as the code does, gives what visiting them in document order gives. *)
Theorem X6_order_independent :
  (∀ l1 l2 : list Element, l1 ≡ₚ l2 → analyzeElements l1 = analyzeElements l2)
  ∧ (∀ svgElement : Element,
       analyzeAnimations svgElement
       = analyzeElements
           (filter (λ d, tagName d ∈ animationTags) (descendants svgElement))).
Proof.
  split; [exact analyzeElements_permutation|].
  intros svgElement. unfold analyzeAnimations.
  apply analyzeElements_permutation, animationElements_directives.
Qed.

Lemma X6_witness :
  analyzeElements [directive_A; directive_B]
  = analyzeElements [directive_B; directive_A].
Proof.
  apply (proj1 X6_order_independent). apply Permutation_swap.
Defined.

(** ** Dimensions and the two tiers of failure *)

(** X8. Dimensions that [extractDimensions] returns are never zero or
    negative: each is greater than zero or, when read from the bounding
    box, possibly [NaN]; when both size attributes yield numbers both
    dimensions are greater than zero. *)
Theorem X8_dimensions_positive (svgElement : Element) (d : SVGDimensions) :
  extractDimensions svgElement = Ok d →
  (gt (width d) 0%num = true ∨ isNaN (width d) = true)
  ∧ (gt (height d) 0%num = true ∨ isNaN (height d) = true)
  ∧ (is_Some (sizeAttribute svgElement "width") →
     is_Some (sizeAttribute svgElement "height") →
     gt (width d) 0%num = true ∧ gt (height d) 0%num = true).
Proof.
  unfold extractDimensions. intros H.
  assert (∀ x, le x 0%num = false → gt x 0%num = true ∨ isNaN x = true) as P.
  { intros x Hx. destruct (isNaN x) eqn:N; [by right|left].
    rewrite (le_negb_gt x 0%num N eq_refl) in Hx. by apply negb_false_iff. }
  rewrite selectDimensions_eq in H.
  destruct (sizeAttribute svgElement "width") as [w|] eqn:Ew;
    destruct (sizeAttribute svgElement "height") as [h|] eqn:Eh.
  - destruct (le w 0%num) eqn:Lw; [done|]. destruct (le h 0%num) eqn:Lh; [done|].
    simpl in H. injection H as <-. simpl.
    pose proof (sizeAttribute_number _ _ _ Ew) as Nw.
    pose proof (sizeAttribute_number _ _ _ Eh) as Nh.
    destruct (P w Lw) as [?|?]; [|congruence].
    destruct (P h Lh) as [?|?]; [|congruence]. auto.
  - destruct (viewBoxSize svgElement) as [[w' h']|]; [|done].
    destruct (le w' 0%num) eqn:Lw; [done|]. destruct (le h' 0%num) eqn:Lh; [done|].
    simpl in H. injection H as <-. simpl.
    split; [auto|split; [auto|]]. by intros _ [? ?].
  - destruct (viewBoxSize svgElement) as [[w' h']|]; [|done].
    destruct (le w' 0%num) eqn:Lw; [done|]. destruct (le h' 0%num) eqn:Lh; [done|].
    simpl in H. injection H as <-. simpl.
    split; [auto|split; [auto|]]. by intros [? ?].
  - destruct (viewBoxSize svgElement) as [[w' h']|]; [|done].
    destruct (le w' 0%num) eqn:Lw; [done|]. destruct (le h' 0%num) eqn:Lh; [done|].
    simpl in H. injection H as <-. simpl.
    split; [auto|split; [auto|]]. by intros [? ?].
Qed.

Lemma X8_witness :
  extractDimensions root_100x50_px = Ok {| width := of_Z 100; height := of_Z 50 |}
  ∧ gt (of_Z 100) 0%num = true ∧ gt (of_Z 50) 0%num = true.
Proof.
  assert (extractDimensions root_100x50_px
          = Ok {| width := of_Z 100; height := of_Z 50 |}) as H by by_evaluation.
  split; [exact H|].
  destruct (X8_dimensions_positive _ _ H) as (_ & _ & F).
  apply F; vm_compute; by eexists.
Defined.

(** X9. When [analyzeSVG] fails, either reading the file failed, or
    parsing its content failed (each with its own error), or the error is
    a validation error.  Once the file is parsed, whether the analysis
    fails is decided by the root alone (its tag and attributes): no
    element below the root, however malformed its attributes, makes the
    analysis fail or changes the dimensions. *)
Theorem X9_failure_decided_by_root :
  (∀ readFile parseFromString svgPath e,
     analyzeSVG_file readFile parseFromString svgPath = Throw e →
     readFile svgPath = Throw e
     ∨ (∃ svgContent,
          readFile svgPath = Ok svgContent ∧ parseFromString svgContent = Throw e)
     ∨ (∃ svgContent documentElement message,
          readFile svgPath = Ok svgContent
          ∧ parseFromString svgContent = Ok documentElement
          ∧ e = ValidationError message))
  ∧ (∀ readFile parse parse' svgPath svgContent tag attrs kids kids',
       readFile svgPath = Ok svgContent →
       parse svgContent = Ok (Some (Elem tag attrs kids)) →
       parse' svgContent = Ok (Some (Elem tag attrs kids')) →
       match analyzeSVG_file readFile parse svgPath,
             analyzeSVG_file readFile parse' svgPath with
       | Ok r, Ok r' => dimensions r = dimensions r'
       | Throw e, Throw e' => e = e'
       | _, _ => False
       end).
Proof.
  split.
  - intros readFile parseFromString svgPath e. unfold analyzeSVG_file.
    destruct (readFile svgPath) as [svgContent|e1]; [|intros [= <-]; by left].
    destruct (parseFromString svgContent) as [doc|e2] eqn:P.
    2:{ intros [= <-]. right. left. by exists svgContent. }
    intros H. right. right. exists svgContent, doc.
    enough (∃ message, e = ValidationError message) as [message ->] by eauto.
    revert H. unfold analyzeSVG.
    destruct doc as [svgElement|]; [|intros [= <-]; eauto].
    destruct (negb _); [intros [= <-]; eauto|].
    unfold extractDimensions.
    destruct (selectDimensions svgElement) as [[w|] [h|]];
      try (intros [= <-]; eauto).
    destruct (_ || _); [intros [= <-]; eauto | done].
  - intros readFile parse parse' svgPath svgContent tag attrs kids kids' R P P'.
    unfold analyzeSVG_file. rewrite R, P, P'. unfold analyzeSVG. simpl.
    destruct (negb _); [done|].
    assert (extractDimensions (Elem tag attrs kids)
            = extractDimensions (Elem tag attrs kids')) as -> by done.
    by destruct (extractDimensions _).
Qed.

Lemma X9_witness :
  match analyzeSVG_file (λ _, Ok "<svg/>") (λ _, Ok (Some root_viewBox_spaces)) "a.svg",
        analyzeSVG_file (λ _, Ok "<svg/>") (λ _, Ok (Some doc_2s_x3)) "a.svg" with
  | Ok r, Ok r' => dimensions r = dimensions r'
  | Throw e, Throw e' => e = e'
  | _, _ => False
  end.
Proof.
  exact (proj2 X9_failure_decided_by_root
           (λ _, Ok "<svg/>") (λ _, Ok (Some root_viewBox_spaces))
           (λ _, Ok (Some doc_2s_x3)) "a.svg" "<svg/>" "svg"
           (list_to_map [("viewBox", "0 0 100 50")]) []
           [animate [("dur", "2s"); ("repeatCount", "3")]]
           eq_refl eq_refl eq_refl).
Defined.

(** ** Reading back printed numbers *)

Section RoundTrip.

Implicit Types (s d u : string) (n x : N).

Lemma append_assoc s1 s2 s3 : (s1 +:+ s2) +:+ s3 = s1 +:+ (s2 +:+ s3).
Proof.
  induction s1 as [|c s1 IH]; [done|].
  change (String c ((s1 +:+ s2) +:+ s3) = String c (s1 +:+ (s2 +:+ s3))).
  by rewrite IH.
Qed.

Lemma append_empty_r s : s +:+ "" = s.
Proof.
  induction s as [|c s IH]; [done|].
  change (String c (s +:+ "") = String c s). by rewrite IH.
Qed.

Lemma digits_value_app (acc : Z) s1 s2 :
  digits_value acc (s1 +:+ s2) = digits_value (digits_value acc s1) s2.
Proof.
  revert acc. induction s1 as [|c s1 IH]; intros acc; [done|].
  change (digits_value (10 * acc + digit_value c) (s1 +:+ s2)
          = digits_value (digits_value (10 * acc + digit_value c) s1) s2).
  apply IH.
Qed.

Lemma pretty_N_char_digit x :
  (x < 10)%N →
  is_digit (pretty_N_char x) = true ∧ digit_value (pretty_N_char x) = Z.of_N x.
Proof.
  intros H.
  assert (x = 0 ∨ x = 1 ∨ x = 2 ∨ x = 3 ∨ x = 4 ∨ x = 5 ∨ x = 6 ∨ x = 7
          ∨ x = 8 ∨ x = 9)%N as Hx by lia.
  repeat (destruct Hx as [->|Hx]; [by vm_compute|]). subst. by vm_compute.
Qed.

(** The digits [pretty_N_go] puts before [s] read back as the number. *)
Lemma pretty_N_go_digits x s :
  ∃ d, pretty_N_go x s = d +:+ s ∧ all_chars is_digit d = true
       ∧ ((0 < x)%N → d ≠ "")
       ∧ ∀ acc, digits_value acc d
                = acc * 10 ^ Z.of_nat (String.length d) + Z.of_N x.
Proof.
  revert s. induction (N.lt_wf_0 x) as [x _ IH]; intros s.
  destruct (decide (x = 0%N)) as [->|Hx].
  { exists "". rewrite pretty_N_go_0. split; [done|]. split; [done|].
    split; [lia|]. intros acc. simpl. lia. }
  assert (0 < x)%N as Hpos by lia.
  rewrite (pretty_N_go_step x s Hpos).
  destruct (IH (x `div` 10)%N (N.div_lt x 10 Hpos eq_refl)
              (String (pretty_N_char (x `mod` 10)) s)) as (d & E & A & _ & V).
  destruct (pretty_N_char_digit (x `mod` 10)%N) as [Hd Hv];
    [by apply N.mod_lt|].
  exists (d +:+ String (pretty_N_char (x `mod` 10)) "").
  split; [by rewrite E, append_assoc|].
  split; [apply all_chars_app; [done|]; simpl; by rewrite Hd|].
  split; [intros _; by destruct d|].
  intros acc. rewrite digits_value_app, V. simpl. rewrite Hv.
  assert (String.length (d +:+ String (pretty_N_char (x `mod` 10)) "")
          = S (String.length d)) as ->.
  { clear. induction d as [|c d IHd]; [done|].
    change (S (String.length (d +:+ String (pretty_N_char (x `mod` 10)) ""))
            = S (S (String.length d))). by rewrite IHd. }
  rewrite Nat2Z.inj_succ, Z.pow_succ_r by lia.
  pose proof (N.div_mod x 10 ltac:(done)) as Hdm.
  rewrite N2Z.inj_div, N2Z.inj_mod in *. simpl Z.of_N in *.
  assert (Z.of_N x = 10 * (Z.of_N x `div` 10) + Z.of_N x `mod` 10) as Hz
    by (apply Z.div_mod; lia).
  lia.
Qed.

(** A printed natural number is a non-empty run of digits whose value is
    the number. *)
Lemma pretty_N_digits n :
  pretty n ≠ "" ∧ all_chars is_digit (pretty n) = true
  ∧ digits_value 0 (pretty n) = Z.of_N n.
Proof.
  unfold pretty, pretty_N. case_decide as Hn; [by subst|].
  destruct (pretty_N_go_digits n "") as (d & E & A & N & V).
  rewrite E, append_empty_r. repeat split; [apply N; lia | done |].
  rewrite V. lia.
Qed.

Lemma digit_facts (c : ascii) :
  is_digit c = true →
  is_digit_or_dot c = true ∧ is_white_space c = false
  ∧ c ≠ "-"%char ∧ c ≠ "+"%char ∧ c ≠ "I"%char ∧ c ≠ "."%char.
Proof.
  unfold is_digit_or_dot, is_digit, is_white_space, code.
  destruct c as [[] [] [] [] [] [] [] []]; by vm_compute.
Qed.

Lemma all_digits_numeric d :
  all_chars is_digit d = true → all_chars is_digit_or_dot d = true.
Proof.
  induction d as [|c d IH]; simpl; [done|].
  intros [Hc Hd]%andb_true_iff. destruct (digit_facts c Hc) as (-> & _). auto.
Qed.

(** [parseFloat] on a non-empty run of digits gives their value. *)
Lemma parseFloat_digits d :
  d ≠ "" → all_chars is_digit d = true → parseFloat d = of_Z (digits_value 0 d).
Proof.
  intros Hne Hd. destruct d as [|c d]; [done|].
  pose proof Hd as [Hc _]%andb_true_iff.
  destruct (digit_facts c Hc) as (_ & Hw & Hm & Hp & HI & _).
  unfold parseFloat, trimStart. simpl drop_while. rewrite Hw.
  rewrite !bool_decide_eq_false_2 by done.
  unfold parse_unsigned.
  assert (starts_with "Infinity" (String c d) = false) as ->.
  { unfold starts_with. apply bool_decide_eq_false. simpl. congruence. }
  pose proof (span_unique is_digit (String c d) "" Hd I) as Hs.
  rewrite append_empty_r in Hs. rewrite Hs.
  unfold of_Z, scale10. simpl exponent. simpl (0 <=? 0).
  by rewrite Z.pow_0_r, Z.mul_1_r.
Qed.

Lemma of_Z_mul (a b : Z) : (of_Z a * of_Z b)%num = of_Z (a * b).
Proof.
  unfold of_Z, mul. f_equal. apply Qc_is_canon. simpl.
  rewrite !Qred_correct. unfold Qeq. simpl. lia.
Qed.

End RoundTrip.

(** X10. A whole number of milliseconds or seconds, printed in decimal and
    followed by its unit in either case, is read back by [parseTime] as
    that many milliseconds, as long as the number of milliseconds is at
    most [MAX_SAFE_INTEGER]. *)
Theorem X10_parseTime_round_trip (n : N) (unit : string) :
  (toLowerCase unit = "ms" → Z.of_N n ≤ MAX_SAFE_INTEGER →
   parseTime (pretty n +:+ unit) = Some (of_Z (Z.of_N n)))
  ∧ (toLowerCase unit = "s" → Z.of_N n * 1000 ≤ MAX_SAFE_INTEGER →
     parseTime (pretty n +:+ unit) = Some (of_Z (Z.of_N n * 1000))).
Proof.
  destruct (pretty_N_digits n) as (Hne & Hd & Hv).
  assert (∀ v, (toLowerCase unit = "ms" ∨ toLowerCase unit = "s") →
            v = (if bool_decide (toLowerCase unit = "ms") then parseFloat (pretty n)
                 else (parseFloat (pretty n) * of_Z 1000)%num) →
            parseTime (pretty n +:+ unit) = Some v) as H.
  { intros v Hu ->. apply parseTime_Some. exists (pretty n), unit.
    split; [|done]. repeat split; auto using all_digits_numeric. }
  rewrite (parseFloat_digits _ Hne Hd), Hv in H.
  split; intros Hu _; apply H; auto; rewrite Hu; [done|].
  by rewrite of_Z_mul.
Qed.

Lemma X10_witness :
  parseTime (pretty 1500%N +:+ "MS") = Some (of_Z 1500)
  ∧ parseTime (pretty 76%N +:+ "s") = Some (of_Z (76 * 1000)).
Proof.
  split.
  - apply (proj1 (X10_parseTime_round_trip 1500 "MS")); [reflexivity|by vm_compute].
  - apply (proj2 (X10_parseTime_round_trip 76 "s")); [reflexivity|by vm_compute].
Defined.

Section SizeAttributes.

Lemma of_Z_gt (a b : Z) : gt (of_Z a) (of_Z b) = bool_decide (b < a).
Proof.
  unfold gt, lt, of_Z. apply bool_decide_ext.
  unfold Qclt. simpl. rewrite Qred_lt. unfold Qlt. simpl. lia.
Qed.

Lemma starts_numeric_false (u : string) :
  starts_numeric u = false →
  match u with String c _ => is_digit_or_dot c = false | EmptyString => True end.
Proof. by destruct u. Qed.

(** A printed natural number followed by a unit is read as the number. *)
Lemma parseNumericAttribute_pretty (n : N) (u : string) :
  starts_numeric u = false →
  parseNumericAttribute (pretty n +:+ u) = Some (of_Z (Z.of_N n)).
Proof.
  intros Hu. destruct (pretty_N_digits n) as (Hne & Hd & Hv).
  unfold parseNumericAttribute, match_numeric_prefix.
  rewrite (span_unique _ _ u (all_digits_numeric _ Hd) (starts_numeric_false _ Hu)).
  simpl fst. destruct (pretty n) as [|c d] eqn:E; [done|].
  rewrite <- E in *. rewrite (parseFloat_digits _ Hne Hd), Hv. done.
Qed.

Lemma truthy_pretty (n : N) (u : string) : truthy (Some (pretty n +:+ u)) = true.
Proof.
  destruct (pretty_N_digits n) as (Hne & _). by destruct (pretty n).
Qed.

End SizeAttributes.

(** X11. A size attribute made of a natural number of at most
    [MAX_SAFE_INTEGER], printed in decimal, and any unit suffix that does
    not start with a digit or a dot ([px], [pt], [em], [%], nothing) is
    read by [parseNumericAttribute] as that number. *)
Theorem X11_parseNumericAttribute_round_trip (n : N) (suffix : string) :
  Z.of_N n ≤ MAX_SAFE_INTEGER →
  starts_numeric suffix = false →
  parseNumericAttribute (pretty n +:+ suffix) = Some (of_Z (Z.of_N n)).
Proof. intros _. apply parseNumericAttribute_pretty. Qed.

Lemma X11_witness :
  starts_numeric "em" = false
  ∧ parseNumericAttribute (pretty 100%N +:+ "em") = Some (of_Z 100).
Proof.
  split; [reflexivity|].
  apply (X11_parseNumericAttribute_round_trip 100 "em"); [by vm_compute|reflexivity].
Defined.

(** X12. When [width] and [height] are natural numbers of at most
    [MAX_SAFE_INTEGER] with unit suffixes, the dimensions are these two
    numbers if both are greater than zero, and the extraction fails if one
    is zero; the bounding box is not read in either case, so a zero size is
    not repaired by a valid [viewBox]. *)
Theorem X12_size_attributes_decide (svgElement : Element) (w h : N) (uw uh : string) :
  Z.of_N w ≤ MAX_SAFE_INTEGER → Z.of_N h ≤ MAX_SAFE_INTEGER →
  getAttribute svgElement "width" = Some (pretty w +:+ uw) →
  getAttribute svgElement "height" = Some (pretty h +:+ uh) →
  starts_numeric uw = false → starts_numeric uh = false →
  extractDimensions svgElement =
  if bool_decide (0 < w)%N && bool_decide (0 < h)%N
  then Ok {| width := of_Z (Z.of_N w); height := of_Z (Z.of_N h) |}
  else Throw (ValidationError no_dimensions).
Proof.
  intros _ _ Hw Hh Uw Uh. unfold extractDimensions. rewrite selectDimensions_eq.
  unfold sizeAttribute. rewrite Hw, Hh, !truthy_pretty. simpl default.
  rewrite !parseNumericAttribute_pretty by done.
  rewrite (positivePair_spec (of_Z (Z.of_N w)) (of_Z (Z.of_N h)) eq_refl eq_refl).
  unfold positivePair.
  change 0%num with (of_Z 0). rewrite !of_Z_gt.
  assert (∀ n : N, bool_decide (0 < Z.of_N n) = bool_decide (0 < n)%N) as E
    by (intros n; apply bool_decide_ext; lia).
  by rewrite !E.
Qed.

Lemma X12_witness :
  extractDimensions root_zero_width = Throw (ValidationError no_dimensions)
  ∧ extractDimensions root_100x50_px = Ok {| width := of_Z 100; height := of_Z 50 |}.
Proof.
  split.
  - apply (X12_size_attributes_decide root_zero_width 0 50 "" "");
      first [by vm_compute | reflexivity].
  - apply (X12_size_attributes_decide root_100x50_px 100 50 "px" "px");
      first [by vm_compute | reflexivity].
Defined.

(** X13. [parseTime] and [parseNumericAttribute] never answer with a
    negative number or minus infinity: the answer of [parseTime] is [NaN]
    or at least zero, that of [parseNumericAttribute] is a number that is
    at least zero. *)
Theorem X13_parsed_numbers_not_negative (s : string) (v : number) :
  (parseTime s = Some v → isNaN v = true ∨ le 0%num v = true)
  ∧ (parseNumericAttribute s = Some v → isNaN v = false ∧ le 0%num v = true).
Proof.
  split; [apply parseTime_nan_or_nonneg|].
  intros H. pose proof (parseNumericAttribute_number _ _ H) as N.
  split; [done|]. revert H N. unfold parseNumericAttribute, match_numeric_prefix.
  pose proof (span_all is_digit_or_dot s) as Ha.
  destruct (fst (span is_digit_or_dot s)) as [|c g]; [done|].
  destruct (isNaN (parseFloat (String c g))) eqn:E; [done|].
  intros [= <-] _. destruct (parseFloat_numeric _ Ha) as [F|F]; [congruence|done].
Qed.

Lemma X13_witness :
  parseTime "1.5s" = Some (of_Z 1500) ∧ le 0%num (of_Z 1500) = true.
Proof.
  assert (parseTime "1.5s" = Some (of_Z 1500)) as H by by_evaluation.
  split; [exact H|].
  destruct (proj1 (X13_parsed_numbers_not_negative "1.5s" (of_Z 1500)) H) as [F|F];
    [discriminate F | exact F].
Defined.

(** X14. [parseTime] answers non-null exactly on a non-empty run of digits
    and dots followed by [ms] or [s] in either case, nothing before and
    nothing after; the answer is what [parseFloat] reads from the run,
    times 1000 for seconds. *)
Theorem X14_parseTime_accepts (s : string) (v : number) :
  parseTime s = Some v ↔
  ∃ g u, s = g +:+ u ∧ g ≠ "" ∧ all_chars is_digit_or_dot g = true
         ∧ (toLowerCase u = "ms" ∧ v = parseFloat g
            ∨ toLowerCase u = "s" ∧ v = (parseFloat g * of_Z 1000)%num).
Proof.
  rewrite parseTime_Some. unfold time_shape.
  split; intros (g & u & H); exists g, u.
  - destruct H as ((-> & Hne & Ha & Hu) & ->).
    repeat split; try done.
    destruct Hu as [Hu|Hu]; rewrite Hu; [left|right]; done.
  - destruct H as (-> & Hne & Ha & [[Hu ->]|[Hu ->]]); rewrite Hu;
      repeat split; auto.
Qed.

(** ** The capture length *)

Section CaptureLength.

Lemma mul_positive (a b : number) :
  gt a 0%num = true → gt b 0%num = true → gt (a * b)%num 0%num = true.
Proof.
  unfold gt. destruct a as [| | |x], b as [| | |y]; try done.
  - intros _ Hy. unfold mul. simpl in Hy. apply bool_decide_eq_true in Hy.
    unfold is_zero, sign_pos.
    rewrite bool_decide_eq_false_2, bool_decide_eq_true_2; try done.
    intros ->. by apply (irreflexivity Qclt) in Hy.
  - intros Hx _. unfold mul. simpl in Hx. apply bool_decide_eq_true in Hx.
    unfold is_zero, sign_pos.
    rewrite bool_decide_eq_false_2, bool_decide_eq_true_2; try done.
    intros ->. by apply (irreflexivity Qclt) in Hx.
  - unfold mul, lt, of_Z. rewrite !bool_decide_eq_true. apply Qcmult_pos_pos.
Qed.

Lemma validatePositiveNumber_Ok (value v : number) (name : string) :
  validatePositiveNumber value name = Ok v ↔ v = value ∧ gt value 0%num = true.
Proof.
  unfold validatePositiveNumber. split.
  - destruct (isNaN value) eqn:N; [done|]. simpl.
    destruct (le value 0%num) eqn:L; [done|]. intros [= <-]. split; [done|].
    rewrite (le_negb_gt value 0%num N eq_refl) in L. by apply negb_false_iff.
  - intros [-> H]. by apply positive_valid.
Qed.

End CaptureLength.

Lemma main_durationMs_positive doc a manual d :
  analyzeSVG doc = Ok a →
  main_durationMs manual a = Ok d →
  gt d 0%num = true.
Proof.
  intros (svgElement & _ & Hd & _ & _ & _)%analyzeSVG_Ok.
  unfold main_durationMs.
  destruct (truthy_number manual).
  - destruct (validatePositiveNumber _ _) as [v|] eqn:V; [|done].
    apply validatePositiveNumber_Ok in V as [-> V]. intros [= <-].
    by apply mul_positive.
  - destruct (hasInfiniteAnimations a).
    + destruct (loopDuration a) as [l|]; [|done].
      destruct (gt l 0%num) eqn:G; [|done]. by intros [= <-].
    + destruct (negb _); [done|]. rewrite Hd. unfold analyzeAnimations.
      rewrite duration_eq. simpl.
      destruct (_ && _ && gt _ _) eqn:E; [|done]. intros [= <-].
      by apply andb_true_iff in E as [_ E].
Qed.

(** X15. Whatever document the analyzer accepted and whatever manual
    duration is given, a capture length that [main] settles on is greater
    than zero (and not [NaN]). *)
Theorem X15_capture_length_positive
    (doc : option Element) (a : SVGAnalysis) (manual : option number) (d : number) :
  analyzeSVG doc = Ok a →
  main_durationMs manual a = Ok d →
  gt d 0%num = true.
Proof. apply main_durationMs_positive. Qed.

Lemma X15_witness :
  analyzeSVG (Some (svg [("viewBox", "0 0 100 50")]
                        [animate [("dur", "2s"); ("repeatCount", "3")]]))
  = Ok analysis_finite
  ∧ main_durationMs None analysis_finite = Ok (of_Z 6000)
  ∧ gt (of_Z 6000) 0%num = true.
Proof.
  assert (analyzeSVG (Some (svg [("viewBox", "0 0 100 50")]
                        [animate [("dur", "2s"); ("repeatCount", "3")]]))
          = Ok analysis_finite) as H by by_evaluation.
  assert (main_durationMs None analysis_finite = Ok (of_Z 6000)) as M by reflexivity.
  split; [exact H|]. split; [exact M|].
  exact (X15_capture_length_positive _ _ _ _ H M).
Defined.

(** ** Recording: what is opened is closed *)

Section Recorder.

Implicit Types (w : world) (s : rstate) (c : call) (m : M unit).

Lemma steady_ret : steady (ret tt).
Proof. intros s. exists []. by rewrite app_nil_r. Qed.

Lemma steady_perform w c : quiet c → steady (perform w c).
Proof.
  intros Hc s. exists [c]. unfold perform.
  destruct (w (trace s) c); simpl; repeat split; by try constructor.
Qed.

Lemma steady_set_recorder : steady set_recorder.
Proof. intros s. exists []. simpl. by rewrite app_nil_r. Qed.

Lemma steady_bind m1 m2 : steady m1 → steady m2 → steady (m1 ;;; m2).
Proof.
  intros H1 H2 s. unfold bind.
  destruct (H1 s) as (evs1 & T1 & Q1 & B1 & P1).
  destruct (m1 s) as [s1 [[]|msg|]]; simpl in *; try by exists evs1.
  destruct (H2 s1) as (evs2 & T2 & Q2 & B2 & P2).
  exists (evs1 ++ evs2)%list. rewrite T2, T1, B2, B1, P2, P1, app_assoc.
  repeat split; try done. by apply Forall_app.
Qed.

Lemma steady_waitLoop w cb fuel duration elapsed :
  steady (waitLoop w cb fuel duration elapsed).
Proof.
  revert elapsed. induction fuel as [|fuel IH]; intros elapsed; cbn [waitLoop].
  - destruct (lt elapsed duration); [|apply steady_ret].
    intros s. exists []. by rewrite app_nil_r.
  - destruct (lt elapsed duration); [|apply steady_ret].
    apply steady_bind; [by apply steady_perform|].
    apply steady_bind; [|apply IH].
    destruct cb; [by apply steady_perform | apply steady_ret].
Qed.

Lemma steady_page w fuel htmlPath outputPath options cb :
  steady (recordAnimation_page w fuel htmlPath outputPath options cb).
Proof.
  unfold recordAnimation_page.
  repeat (apply steady_bind;
          [first [ by apply steady_perform | apply steady_set_recorder
                 | apply steady_waitLoop ] |]).
  by apply steady_perform.
Qed.

Lemma finally_trace w s :
  trace (fst (recordAnimation_finally w s))
  = (trace s ++ (if recorder s then [recorder_stop] else [])
       ++ (if page s then [page_close] else [])
       ++ (if browser s then [browser_close] else []))%list.
Proof.
  unfold recordAnimation_finally, bind, attempt, ret.
  destruct s as [tr [] [] []]; simpl; rewrite <- ?app_assoc, ?app_nil_r; done.
Qed.

End Recorder.

(** X16. However [recordAnimation] ends, what it opened is closed: when
    the browser cannot be launched nothing else is called; when the page
    cannot be opened the browser is closed; otherwise the last two calls
    close the page and then the browser, and neither is closed before
    that.  Nothing but a processing error is ever thrown: errors while
    closing are swallowed. *)
Theorem X16_browser_always_closed
    (w : world) (fuel : nat) (htmlPath outputPath : string)
    (options : RecorderOptions.t) (hasCallback : bool)
    (calls : list call) (r : result unit) :
  recordAnimation w fuel htmlPath outputPath options hasCallback = (calls, Some r) →
  (r = Ok tt
   ∨ ∃ message,
       r = Throw (ProcessingError ("Failed to record animation: " +:+ message)))
  ∧ match w [] puppeteer_launch with
    | Some _ => calls = [puppeteer_launch]
    | None =>
        match w [puppeteer_launch] browser_newPage with
        | Some _ => calls = [puppeteer_launch; browser_newPage; browser_close]
        | None =>
            ∃ before : list call,
              calls = (before ++ [page_close; browser_close])%list
              ∧ (page_close ∉ before) ∧ (browser_close ∉ before)
        end
    end.
Proof.
  unfold recordAnimation.
  change (recordAnimation_try w fuel htmlPath outputPath options hasCallback)
    with (perform w puppeteer_launch ;;; set_browser ;;;
          perform w browser_newPage ;;; set_page ;;;
          recordAnimation_page w fuel htmlPath outputPath options hasCallback).
  unfold bind at 1. unfold perform at 1. simpl (trace rstate_init).
  destruct (w [] puppeteer_launch) as [m|] eqn:L.
  { intros [= <- <-]. split; [eauto|done]. }
  unfold bind at 1. unfold set_browser at 1. simpl.
  unfold bind at 1. unfold perform at 1. simpl.
  destruct (w [puppeteer_launch] browser_newPage) as [m|] eqn:N.
  { intros [= <- <-]. split; [eauto|done]. }
  unfold bind at 1. unfold set_page at 1. simpl.
  match goal with |- context [recordAnimation_page _ _ _ _ _ _ ?s] =>
    destruct (steady_page w fuel htmlPath outputPath options hasCallback s)
      as (evs & T & Q & B & P);
    destruct (recordAnimation_page w fuel htmlPath outputPath options hasCallback s)
      as [s' [[]|m|]] eqn:E
  end; simpl in T, B, P; [| |done].
  - intros [= <- <-]. split; [by left|].
    rewrite finally_trace, T, B, P.
    exists (([puppeteer_launch; browser_newPage] ++ evs)
              ++ (if recorder s' then [recorder_stop] else []))%list.
    split; [by rewrite <- !app_assoc|].
    assert ((page_close ∉ evs) ∧ (browser_close ∉ evs)) as [? ?].
    { split; intros Hin; apply (proj1 (Forall_forall _ _) Q) in Hin;
        destruct Hin; done. }
    destruct (recorder s');
      rewrite !not_elem_of_app, !not_elem_of_cons; repeat split; try done;
      apply not_elem_of_nil.
  - intros [= <- <-]. split; [eauto|].
    rewrite finally_trace, T, B, P.
    exists (([puppeteer_launch; browser_newPage] ++ evs)
              ++ (if recorder s' then [recorder_stop] else []))%list.
    split; [by rewrite <- !app_assoc|].
    assert ((page_close ∉ evs) ∧ (browser_close ∉ evs)) as [? ?].
    { split; intros Hin; apply (proj1 (Forall_forall _ _) Q) in Hin;
        destruct Hin; done. }
    destruct (recorder s');
      rewrite !not_elem_of_app, !not_elem_of_cons; repeat split; try done;
      apply not_elem_of_nil.
Qed.

Lemma X16_witness :
  let run := recordAnimation calm 3 "/tmp/a.html" "/tmp/a.webm" options_2s true in
  snd run = Some (Ok tt)
  ∧ ∃ before : list call,
      fst run = (before ++ [page_close; browser_close])%list
      ∧ (page_close ∉ before) ∧ (browser_close ∉ before).
Proof.
  assert (recordAnimation calm 3 "/tmp/a.html" "/tmp/a.webm" options_2s true
          = (fst (recordAnimation calm 3 "/tmp/a.html" "/tmp/a.webm" options_2s true),
             Some (Ok tt))) as H by (vm_compute; reflexivity).
  split; [by rewrite H|].
  exact (proj2 (X16_browser_always_closed _ _ _ _ _ _ _ _ H)).
Defined.

(** ** Recording: the waiting loop *)

Section Arithmetic.

Lemma Qc_this_plus (x y : Qc) : (this (x + y)%Qc == this x + this y)%Q.
Proof. simpl. apply Qred_correct. Qed.

Lemma Qc_this_minus (x y : Qc) : (this (x - y)%Qc == this x - this y)%Q.
Proof.
  unfold Qcminus. rewrite Qc_this_plus. simpl. by rewrite Qred_correct.
Qed.

Lemma Qc_this_mult (x y : Qc) : (this (x * y)%Qc == this x * this y)%Q.
Proof. simpl. apply Qred_correct. Qed.

Lemma Qc_this_Q2Qc (q : Q) : (this (Q2Qc q) == q)%Q.
Proof. simpl. apply Qred_correct. Qed.

End Arithmetic.

(** Order facts on canonical rationals are settled on plain rationals. *)
Ltac qc_order :=
  repeat match goal with
  | H : (_ < _)%Qc |- _ => unfold Qclt in H
  | H : (_ ≤ _)%Qc |- _ => unfold Qcle in H
  | H : ¬ (_ < _)%Qc |- _ => apply Qcnot_lt_le in H
  | H : ¬ (_ ≤ _)%Qc |- _ => apply Qcnot_le_lt in H
  | H : @eq Qc _ _ |- _ => apply (f_equal this) in H
  | |- @eq Qc _ _ => apply Qc_is_canon
  | |- (_ < _)%Qc => unfold Qclt
  | |- (_ ≤ _)%Qc => unfold Qcle
  end;
  change (this (Q2Qc 0)) with 0%Q in *;
  rewrite ?Qc_this_plus, ?Qc_this_minus, ?Qc_this_mult, ?Qc_this_Q2Qc in *;
  unfold inject_Z in *; lra.

Section Loop.

Variable d : Qc.
Hypothesis Hd : (0 < d)%Qc.

Implicit Types (e : Qc) (s : rstate) (cb : bool).

Lemma extend_nil s : extend s [] = s.
Proof. destruct s. unfold extend. simpl. by rewrite app_nil_r. Qed.

Lemma extend_extend s (evs1 evs2 : list call) :
  extend (extend s evs1) evs2 = extend s (evs1 ++ evs2).
Proof. unfold extend. simpl. by rewrite app_assoc. Qed.

Lemma perform_calm (c : call) s : perform calm c s = (extend s [c], Returned tt).
Proof. done. Qed.

Lemma min2_of_Z (a b : Z) : min2 (of_Z a) (of_Z b) = of_Z (Z.min a b).
Proof.
  pose proof (of_Z_gt a b) as G. unfold gt in G.
  unfold min2. change (of_Z b) with (Fin (Q2Qc (inject_Z b))) at 1.
  change (of_Z a) with (Fin (Q2Qc (inject_Z a))) at 1.
  cbv beta iota. rewrite G. case_bool_decide; f_equal; lia.
Qed.

Lemma progressAt_Fin e : progressAt (Fin d) (Fin e) = of_Z (progressZ d e).
Proof.
  unfold progressAt, div, progressZ.
  assert (is_zero d = false) as ->.
  { apply bool_decide_eq_false. intros ->. by apply (irreflexivity Qclt) in Hd. }
  unfold mul, of_Z at 2. unfold Math_round. apply min2_of_Z.
Qed.

Lemma waitTime_Fin e :
  min2 updateInterval (sub (Fin d) (Fin e)) = Fin (waitTimeQ d e).
Proof.
  unfold waitTimeQ, updateInterval, sub, of_Z, neg, add, min2, lt, Qcminus.
  by destruct (bool_decide _).
Qed.

Lemma waitLoop_calm_done cb fuel e s :
  ¬ (e < d)%Qc → waitLoop calm cb fuel (Fin d) (Fin e) s = (s, Returned tt).
Proof.
  intros H. destruct fuel; cbn [waitLoop]; unfold lt;
    by rewrite bool_decide_eq_false_2.
Qed.

Lemma waitLoop_calm_step cb fuel e s :
  (e < d)%Qc →
  waitLoop calm cb (S fuel) (Fin d) (Fin e) s
  = waitLoop calm cb fuel (Fin d) (Fin (e + waitTimeQ d e)) (extend s (turn cb d e)).
Proof.
  intros H. cbn [waitLoop]. unfold lt at 1. rewrite bool_decide_eq_true_2 by done.
  rewrite waitTime_Fin. unfold bind. rewrite perform_calm.
  change (Fin e + Fin (waitTimeQ d e))%num with (Fin (e + waitTimeQ d e)).
  rewrite progressAt_Fin. unfold turn. destruct cb.
  - by rewrite perform_calm, extend_extend.
  - done.
Qed.

Lemma waitTimeQ_bounds e :
  (e < d)%Qc →
  (0 < waitTimeQ d e)%Qc ∧ (waitTimeQ d e ≤ Q2Qc (inject_Z 1000))%Qc
  ∧ (e + waitTimeQ d e ≤ d)%Qc
  ∧ (waitTimeQ d e = (d - e)%Qc
     ∨ waitTimeQ d e = Q2Qc (inject_Z 1000)
       ∧ (Q2Qc (inject_Z 1000) ≤ d - e)%Qc).
Proof.
  intros H. unfold waitTimeQ. case_bool_decide as L.
  - repeat split; [qc_order..|by left].
  - repeat split; [qc_order..|]. right. split; [done|]. qc_order.
Qed.

Lemma progressZ_mono e1 e2 : (e1 ≤ e2)%Qc → progressZ d e1 ≤ progressZ d e2.
Proof.
  intros H. unfold progressZ. apply Z.min_le_compat_l, Qfloor_resp_le.
  apply Qplus_le_l.
  change (e1 / d * Q2Qc (inject_Z 100) ≤ e2 / d * Q2Qc (inject_Z 100))%Qc.
  apply Qcmult_le_compat_r; [|done]. unfold Qcdiv.
  apply Qcmult_le_compat_r; [done|].
  apply Qclt_le_weak. unfold Qclt, Qcinv. simpl.
  apply (Qred_lt 0 (/ d)). apply Qinv_lt_0_compat. exact Hd.
Qed.

Lemma progressZ_full : progressZ d d = 100.
Proof.
  unfold progressZ.
  assert ((d / d * Q2Qc (inject_Z 100))%Qc = Q2Qc (inject_Z 100)) as ->.
  { field. intros ->. by apply (irreflexivity Qclt) in Hd. }
  done.
Qed.

Lemma progressZ_start : progressZ d 0%Qc = 0.
Proof.
  unfold progressZ.
  assert ((0 / d * Q2Qc (inject_Z 100))%Qc = 0%Qc) as ->.
  { field. intros ->. by apply (irreflexivity Qclt) in Hd. }
  done.
Qed.

Lemma progressZ_range e : (0 ≤ e)%Qc → 0 ≤ progressZ d e ≤ 100.
Proof.
  intros H. split.
  - rewrite <- progressZ_start. by apply progressZ_mono.
  - unfold progressZ. lia.
Qed.

Lemma waitsOf_turn cb e (evs : list call) :
  waitsOf (turn cb d e ++ evs)%list = Fin (waitTimeQ d e) :: waitsOf evs.
Proof. by destruct cb. Qed.

Lemma progressOf_turn cb e (evs : list call) :
  progressOf (turn cb d e ++ evs)%list
  = ((if cb then [of_Z (progressZ d (e + waitTimeQ d e))] else [])
       ++ progressOf evs)%list.
Proof. by destruct cb. Qed.

Lemma turn_loopCall cb e : Forall loopCall (turn cb d e).
Proof. destruct cb; by repeat constructor. Qed.

(** The loop in a world where nothing fails, from [e] of [d] on. *)
Lemma waitLoop_calm cb fuel :
  ∀ e s,
    (0 ≤ e)%Qc → (e ≤ d)%Qc →
    (this d - this e <= inject_Z (1000 * Z.of_nat fuel))%Q →
    ∃ (evs : list call) (zs : list Z),
      waitLoop calm cb fuel (Fin d) (Fin e) s = (extend s evs, Returned tt)
      ∧ Forall loopCall evs
      ∧ (¬ (e < d)%Qc → evs = [])
      ∧ total (waitsOf evs) = Fin (d - e)
      ∧ Forall (λ ms, gt ms 0%num = true ∧ le ms (of_Z 1000) = true) (waitsOf evs)
      ∧ progressOf evs = (if cb then of_Z <$> zs else [])
      ∧ length zs = length (waitsOf evs)
      ∧ Forall (λ z, progressZ d e ≤ z ≤ 100) zs
      ∧ Sorted Z.le zs
      ∧ ((e < d)%Qc → last zs = Some 100).
Proof.
  induction fuel as [|n IH]; intros e s He0 Hed Hfuel.
  - assert (¬ (e < d)%Qc) as Hdone.
    { intros L. change (1000 * Z.of_nat 0) with 0 in Hfuel. qc_order. }
    exists [], []. rewrite (waitLoop_calm_done _ _ _ _ Hdone), extend_nil.
    repeat split; try done; try by constructor.
    + unfold total. simpl. unfold of_Z. f_equal. qc_order.
    + by destruct cb.
  - destruct (Qclt_le_dec e d) as [L|L].
    2:{ assert (¬ (e < d)%Qc) as Hdone by (by apply Qcle_not_lt).
        exists [], []. rewrite (waitLoop_calm_done _ _ _ _ Hdone), extend_nil.
        repeat split; try done; try by constructor.
        + unfold total. simpl. unfold of_Z. f_equal. qc_order.
        + by destruct cb. }
    destruct (waitTimeQ_bounds e L) as (Wpos & Wmax & Wd & Wcase).
    set (wt := waitTimeQ d e) in *.
    assert (0 ≤ e + wt)%Qc as He0' by qc_order.
    assert (0 <= inject_Z (1000 * Z.of_nat n))%Q as Hn
      by (unfold Qle; simpl; lia).
    assert (this d - this (e + wt)%Qc <= inject_Z (1000 * Z.of_nat n))%Q as Hfuel'.
    { replace (1000 * Z.of_nat (S n)) with (1000 + 1000 * Z.of_nat n) in Hfuel by lia.
      rewrite inject_Z_plus in Hfuel.
      destruct Wcase as [W|[W W']]; rewrite W; qc_order. }
    destruct (IH (e + wt)%Qc (extend s (turn cb d e)) He0' Wd Hfuel')
      as (evs & zs & Erun & Hcalls & Hnil & Htot & Hw & Hp & Hlen & Hz & Hs & Hl).
    exists (turn cb d e ++ evs)%list, (progressZ d (e + wt) :: zs).
    rewrite (waitLoop_calm_step _ _ _ _ L). fold wt.
    rewrite Erun, extend_extend, waitsOf_turn, progressOf_turn. fold wt.
    split; [done|].
    split; [apply Forall_app; split; [apply turn_loopCall|done]|].
    split; [done|].
    split.
    { unfold total in *. simpl. rewrite Htot.
      change (Fin wt + Fin (d - (e + wt)))%num with (Fin (wt + (d - (e + wt)))).
      f_equal. ring. }
    split.
    { constructor; [|done]. split.
      - unfold gt, lt, of_Z. by apply bool_decide_eq_true.
      - apply le_spec. repeat split; try done. unfold lt, of_Z.
        apply bool_decide_eq_false. by apply Qcle_not_lt. }
    split; [rewrite Hp; by destruct cb|].
    split; [simpl; by rewrite Hlen|].
    assert (progressZ d e ≤ progressZ d (e + wt)) as Hmono
      by (apply progressZ_mono; qc_order).
    split.
    { constructor.
      - split; [done|]. unfold progressZ. lia.
      - eapply Forall_impl; [exact Hz|]. simpl. intros z [? ?]. lia. }
    split.
    { constructor; [done|]. destruct Hz as [|z zs' [Hz1 _] _]; by constructor. }
    intros _. destruct (Qclt_le_dec (e + wt) d) as [L'|L'].
    + specialize (Hl L'). destruct zs as [|z zs']; [done|]. exact Hl.
    + assert (evs = []) as -> by (by apply Hnil, Qcle_not_lt).
      destruct zs; [|done]. simpl.
      assert ((e + wt)%Qc = d) as -> by (by apply Qcle_antisym).
      by rewrite progressZ_full.
Qed.

(** With an infinite duration the loop is still running after any
    number of turns. *)
Lemma waitLoop_forever cb fuel e s :
  snd (waitLoop calm cb fuel PosInfinity (Fin e) s) = Running.
Proof.
  revert e s. induction fuel as [|n IH]; intros e s; [done|].
  cbn [waitLoop]. change (lt (Fin e) PosInfinity) with true. cbv iota.
  unfold bind. rewrite perform_calm.
  destruct cb.
  - rewrite perform_calm.
    change (min2 updateInterval (sub PosInfinity (Fin e))) with updateInterval.
    change (Fin e + updateInterval)%num with (Fin (e + Q2Qc (inject_Z 1000))).
    apply IH.
  - unfold ret.
    change (min2 updateInterval (sub PosInfinity (Fin e))) with updateInterval.
    change (Fin e + updateInterval)%num with (Fin (e + Q2Qc (inject_Z 1000))).
    apply IH.
Qed.

End Loop.

Section CalmRecording.

Implicit Types (options : RecorderOptions.t) (cb : bool) (d : Qc).

Lemma bind_perform_calm (c : call) (k : M unit) (s : rstate) :
  (perform calm c ;;; k) s = k (extend s [c]).
Proof. done. Qed.

Lemma bind_set_browser (k : M unit) (s : rstate) :
  (set_browser ;;; k) s
  = k {| trace := trace s; browser := true; page := page s; recorder := recorder s |}.
Proof. done. Qed.

Lemma bind_set_page (k : M unit) (s : rstate) :
  (set_page ;;; k) s
  = k {| trace := trace s; browser := browser s; page := true; recorder := recorder s |}.
Proof. done. Qed.

Lemma bind_set_recorder (k : M unit) (s : rstate) :
  (set_recorder ;;; k) s
  = k {| trace := trace s; browser := browser s; page := page s; recorder := true |}.
Proof. done. Qed.

(** In a world where nothing fails the loop is entered in [beforeLoop]. *)
Lemma recordAnimation_try_calm fuel htmlPath outputPath options cb :
  recordAnimation_try calm fuel htmlPath outputPath options cb rstate_init
  = (waitLoop calm cb fuel (RecorderOptions.duration options) 0%num ;;;
     perform calm recorder_stop) (beforeLoop htmlPath outputPath options).
Proof.
  unfold recordAnimation_try.
  rewrite bind_perform_calm, bind_set_browser, bind_perform_calm, bind_set_page.
  rewrite !bind_perform_calm, bind_set_recorder, !bind_perform_calm.
  done.
Qed.

Lemma recordAnimation_around_loop fuel htmlPath outputPath options cb
    (evs : list call) :
  waitLoop calm cb fuel (RecorderOptions.duration options) 0%num
    (beforeLoop htmlPath outputPath options)
  = (extend (beforeLoop htmlPath outputPath options) evs, Returned tt) →
  recordAnimation calm fuel htmlPath outputPath options cb
  = ((callsBefore htmlPath outputPath options ++ evs ++ callsAfter)%list,
     Some (Ok tt)).
Proof.
  intros H. unfold recordAnimation. rewrite recordAnimation_try_calm.
  unfold bind. rewrite H, perform_calm, finally_trace.
  cbv [extend beforeLoop trace browser page recorder callsAfter].
  f_equal. by rewrite <- !app_assoc.
Qed.

Lemma recordAnimation_calm fuel htmlPath outputPath options cb d :
  RecorderOptions.duration options = Fin d →
  gt (Fin d) 0%num = true →
  le (Fin d) (of_Z (1000 * Z.of_nat fuel)) = true →
  ∃ (evs : list call) (zs : list Z),
    recordAnimation calm fuel htmlPath outputPath options cb
    = ((callsBefore htmlPath outputPath options ++ evs ++ callsAfter)%list,
       Some (Ok tt))
    ∧ Forall loopCall evs
    ∧ total (waitsOf evs) = Fin d
    ∧ Forall (λ ms, gt ms 0%num = true ∧ le ms (of_Z 1000) = true) (waitsOf evs)
    ∧ progressOf evs = (if cb then of_Z <$> zs else [])
    ∧ length zs = length (waitsOf evs)
    ∧ Forall (λ z, 0 ≤ z ≤ 100) zs
    ∧ Sorted Z.le zs
    ∧ last zs = Some 100.
Proof.
  intros Hdur Hpos Hfuel.
  assert (0 < d)%Qc as Hd by (by apply bool_decide_eq_true in Hpos).
  assert (this d - this 0%Qc <= inject_Z (1000 * Z.of_nat fuel))%Q as Hf.
  { apply le_spec in Hfuel as (_ & _ & Hfuel). unfold lt, of_Z in Hfuel.
    apply bool_decide_eq_false in Hfuel. qc_order. }
  destruct (waitLoop_calm d Hd cb fuel 0%Qc
              (beforeLoop htmlPath outputPath options)
              ltac:(done) (Qclt_le_weak _ _ Hd) Hf)
    as (evs & zs & Erun & Hcalls & _ & Htot & Hw & Hp & Hlen & Hz & Hs & Hl).
  exists evs, zs.
  split.
  { apply recordAnimation_around_loop. rewrite Hdur. exact Erun. }
  split; [done|]. split.
  { rewrite Htot. f_equal. ring. }
  split; [done|]. split; [done|]. split; [done|]. split.
  { eapply Forall_impl; [exact Hz|]. simpl. intros z [? ?].
    rewrite (progressZ_start d Hd) in *. lia. }
  split; [done|]. by apply Hl.
Qed.

End CalmRecording.

(** X17. When no call fails and the duration is a finite number greater
    than zero and at most [MAX_SAFE_INTEGER], the recording ends normally
    once the loop has had enough turns; between start and stop it only
    waits and reports progress, each wait is more than zero and at most
    1000 ms, and the waits add up to exactly the duration. *)
Theorem X17_recording_lasts_duration
    (fuel : nat) (htmlPath outputPath : string) (options : RecorderOptions.t)
    (hasCallback : bool) (d : Qc) :
  RecorderOptions.duration options = Fin d →
  gt (Fin d) 0%num = true →
  le (Fin d) (of_Z MAX_SAFE_INTEGER) = true →
  le (Fin d) (of_Z (1000 * Z.of_nat fuel)) = true →
  ∃ evs : list call,
    recordAnimation calm fuel htmlPath outputPath options hasCallback
    = ((callsBefore htmlPath outputPath options ++ evs ++ callsAfter)%list,
       Some (Ok tt))
    ∧ Forall loopCall evs
    ∧ total (waitsOf evs) = RecorderOptions.duration options
    ∧ Forall (λ ms, gt ms 0%num = true ∧ le ms (of_Z 1000) = true) (waitsOf evs).
Proof.
  intros Hdur Hpos _ Hfuel.
  destruct (recordAnimation_calm fuel htmlPath outputPath options hasCallback d
              Hdur Hpos Hfuel) as (evs & zs & E & Hc & Ht & Hw & _).
  exists evs. by rewrite Hdur.
Qed.

Lemma X17_witness :
  ∃ evs : list call,
    recordAnimation calm 3 "/tmp/a.html" "/tmp/a.webm" options_2s true
    = ((callsBefore "/tmp/a.html" "/tmp/a.webm" options_2s ++ evs ++ callsAfter)%list,
       Some (Ok tt))
    ∧ Forall loopCall evs
    ∧ total (waitsOf evs) = RecorderOptions.duration options_2s
    ∧ Forall (λ ms, gt ms 0%num = true ∧ le ms (of_Z 1000) = true) (waitsOf evs).
Proof.
  apply (X17_recording_lasts_duration 3 "/tmp/a.html" "/tmp/a.webm" options_2s true
           (Q2Qc (inject_Z 2500))); reflexivity.
Defined.

(** X18. In such a recording (no call fails, the duration is finite,
    greater than zero and at most [MAX_SAFE_INTEGER]) the progress reported
    to the callback, one value after each wait, is a whole number between
    0 and 100, never decreases, and ends with 100. *)
Theorem X18_progress_reports
    (fuel : nat) (htmlPath outputPath : string) (options : RecorderOptions.t)
    (d : Qc) :
  RecorderOptions.duration options = Fin d →
  gt (Fin d) 0%num = true →
  le (Fin d) (of_Z MAX_SAFE_INTEGER) = true →
  le (Fin d) (of_Z (1000 * Z.of_nat fuel)) = true →
  ∃ (evs : list call) (zs : list Z),
    fst (recordAnimation calm fuel htmlPath outputPath options true)
    = (callsBefore htmlPath outputPath options ++ evs ++ callsAfter)%list
    ∧ Forall loopCall evs
    ∧ progressOf evs = of_Z <$> zs
    ∧ length zs = length (waitsOf evs)
    ∧ Forall (λ z, 0 ≤ z ≤ 100) zs
    ∧ Sorted Z.le zs
    ∧ last zs = Some 100.
Proof.
  intros Hdur Hpos _ Hfuel.
  destruct (recordAnimation_calm fuel htmlPath outputPath options true d
              Hdur Hpos Hfuel) as (evs & zs & E & Hc & _ & _ & Hp & Hl & Hz & Hs & Hlast).
  exists evs, zs. by rewrite E.
Qed.

Lemma X18_witness :
  ∃ (evs : list call) (zs : list Z),
    fst (recordAnimation calm 3 "/tmp/a.html" "/tmp/a.webm" options_2s true)
    = (callsBefore "/tmp/a.html" "/tmp/a.webm" options_2s ++ evs ++ callsAfter)%list
    ∧ Forall loopCall evs
    ∧ progressOf evs = of_Z <$> zs
    ∧ length zs = length (waitsOf evs)
    ∧ Forall (λ z, 0 ≤ z ≤ 100) zs
    ∧ Sorted Z.le zs
    ∧ last zs = Some 100.
Proof.
  apply (X18_progress_reports 3 "/tmp/a.html" "/tmp/a.webm" options_2s
           (Q2Qc (inject_Z 2500))); reflexivity.
Defined.

(** X19. With a duration of plus infinity the recording never ends: the
    loop is still running after any number of turns.  With a duration
    that is [NaN], zero or negative the loop is not entered: the recording
    is started and stopped at once, with no wait and no progress report. *)
Theorem X19_degenerate_durations
    (fuel : nat) (htmlPath outputPath : string) (options : RecorderOptions.t)
    (hasCallback : bool) :
  (RecorderOptions.duration options = PosInfinity →
   snd (recordAnimation calm fuel htmlPath outputPath options hasCallback) = None)
  ∧ (gt (RecorderOptions.duration options) 0%num = false →
     recordAnimation calm fuel htmlPath outputPath options hasCallback
     = ((callsBefore htmlPath outputPath options ++ callsAfter)%list, Some (Ok tt))).
Proof.
  split.
  - intros Hdur. unfold recordAnimation. rewrite recordAnimation_try_calm, Hdur.
    unfold bind.
    pose proof (waitLoop_forever hasCallback fuel 0%Qc
                  (beforeLoop htmlPath outputPath options)) as H.
    change (Fin 0%Qc) with 0%num in H.
    destruct (waitLoop calm hasCallback fuel PosInfinity 0%num _) as [s' o].
    simpl in H. by rewrite H.
  - intros Hdur.
    rewrite (recordAnimation_around_loop _ _ _ _ _ []); [done|].
    rewrite extend_nil. unfold gt in Hdur.
    destruct fuel; cbn [waitLoop]; by rewrite Hdur.
Qed.

Lemma X19_witness :
  snd (recordAnimation calm 1000 "/tmp/a.html" "/tmp/a.webm" options_forever true)
  = None.
Proof.
  apply (proj1 (X19_degenerate_durations 1000 "/tmp/a.html" "/tmp/a.webm"
                  options_forever true)).
  reflexivity.
Defined.

(** ** The command line *)

Section Main.

Implicit Types (options : CliOptions.t) (o : Outside) (p : Plan) (e : exn).

Lemma validatePositiveNumber_Throw value name :
  gt value 0%num = false →
  validatePositiveNumber value name = Throw (Error (name +:+ " must be a positive number")).
Proof.
  intros H. unfold validatePositiveNumber.
  destruct (isNaN value) eqn:N; [done|]. simpl.
  by rewrite (le_negb_gt value 0%num N eq_refl), H.
Qed.

Lemma validatePositiveNumber_exitCode value name e :
  validatePositiveNumber value name = Throw e → exitCode e = 99.
Proof.
  unfold validatePositiveNumber. destruct (_ || _); [|done]. by intros [= <-].
Qed.

(** The steps of [main_plan], one by one. *)
Lemma main_plan_Ok options o p :
  main_plan options o = Ok p →
  let input := resolve o (default "" (CliOptions.positional options !! 0%nat)) in
  ∃ doc a,
    fileExists o input = true
    ∧ ffmpegInstalled o = true
    ∧ documentElement o input = Ok doc
    ∧ analyzeSVG doc = Ok a
    ∧ validatePositiveNumber
        (orElse (nullish (CliOptions.width options) (CliOptions.w options))
                (width (dimensions a))) "Width" = Ok (finalWidth p)
    ∧ validatePositiveNumber
        (orElse (nullish (CliOptions.height options) (CliOptions.h options))
                (height (dimensions a))) "Height" = Ok (finalHeight p)
    ∧ main_durationMs (nullish (CliOptions.duration options) (CliOptions.d options)) a
      = Ok (durationMs p)
    ∧ validatePositiveNumber
        (default (of_Z 30) (nullish (CliOptions.fps options) (CliOptions.f options)))
        "FPS" = Ok (finalFps p)
    ∧ inputPath p = input
    ∧ outputPath p = resolve o (default "" (CliOptions.positional options !! 1%nat)).
Proof.
  unfold main_plan, checkFFmpeg.
  destruct (fileExists o _) eqn:F; [|done]. simpl.
  destruct (ffmpegInstalled o) eqn:G; [|done]. simpl.
  destruct (documentElement o _) as [doc|] eqn:D; [|done]. simpl.
  destruct (analyzeSVG doc) as [a|] eqn:A; [|done]. simpl.
  destruct (validatePositiveNumber _ "Width") as [fw|] eqn:W; [|done]. simpl.
  destruct (validatePositiveNumber _ "Height") as [fh|] eqn:H; [|done]. simpl.
  destruct (main_durationMs _ a) as [dm|] eqn:M; [|done]. simpl.
  destruct (validatePositiveNumber _ "FPS") as [ff|] eqn:P; [|done]. simpl.
  intros [= <-]. simpl. by exists doc, a.
Qed.

End Main.

(** X20. Whenever [main] gets as far as generating the page, the width,
    the height, the duration and the frame rate it goes on with are all
    greater than zero (and none is [NaN]), whatever the options and the
    document were. *)
Theorem X20_plan_numbers_positive (options : CliOptions.t) (o : Outside) (p : Plan) :
  main_plan options o = Ok p →
  gt (finalWidth p) 0%num = true
  ∧ gt (finalHeight p) 0%num = true
  ∧ gt (durationMs p) 0%num = true
  ∧ gt (finalFps p) 0%num = true.
Proof.
  intros H. apply main_plan_Ok in H as (doc & a & _ & _ & _ & A & W & Hh & M & P & _).
  apply validatePositiveNumber_Ok in W as [-> W].
  apply validatePositiveNumber_Ok in Hh as [-> Hh].
  apply validatePositiveNumber_Ok in P as [-> P].
  split; [done|]. split; [done|]. split; [|done].
  by eapply main_durationMs_positive.
Qed.

Lemma X20_witness :
  ∃ p, main_plan (args ["a.svg"; "b.mp4"]) fine = Ok p
    ∧ gt (finalWidth p) 0%num = true
    ∧ gt (finalHeight p) 0%num = true
    ∧ gt (durationMs p) 0%num = true
    ∧ gt (finalFps p) 0%num = true.
Proof.
  assert (main_plan (args ["a.svg"; "b.mp4"]) fine
          = Ok {| inputPath := "/work/a.svg"; outputPath := "/work/b.mp4";
                  finalWidth := of_Z 100; finalHeight := of_Z 50;
                  durationMs := of_Z 6000; finalFps := of_Z 30 |}) as H
    by (vm_compute; reflexivity).
  eexists. split; [exact H|].
  exact (X20_plan_numbers_positive _ _ _ H).
Defined.

(** X21. With two positional arguments and no [--version], a missing
    input file ends [main] with exit code 1 and a missing FFmpeg with exit
    code 3, in this order; in both cases the document is never read and
    nothing is written, recorded or deleted. *)
Theorem X21_checks_before_analysis (options : CliOptions.t) (o : Outside) (fuel : nat) :
  CliOptions.version options = false →
  (2 ≤ length (CliOptions.positional options))%nat →
  let input := resolve o (default "" (CliOptions.positional options !! 0%nat)) in
  (fileExists o input = false → main options o fuel = Some ([], 1))
  ∧ (fileExists o input = true → ffmpegInstalled o = false →
     main options o fuel = Some ([], 3)).
Proof.
  intros V L input. unfold main. rewrite V.
  rewrite bool_decide_eq_false_2 by lia.
  unfold main_plan, checkFFmpeg. fold input. split.
  - by intros ->.
  - by intros -> ->.
Qed.

Lemma X21_witness : main (args ["a.svg"; "b.mp4"]) no_ffmpeg 0 = Some ([], 3).
Proof.
  refine (proj2 (X21_checks_before_analysis (args ["a.svg"; "b.mp4"]) no_ffmpeg 0
                   eq_refl _) eq_refl eq_refl).
  simpl. lia.
Defined.

(** X22. A width or height that is not greater than zero when [main]
    validates it, or a manual duration that is not, ends [main] with exit
    code 99, the code of an unexpected error, and not with 1, the code of
    a validation error; nothing has been written or recorded by then. *)
Theorem X22_rejected_number_exit_99
    (options : CliOptions.t) (o : Outside) (fuel : nat)
    (doc : option Element) (a : SVGAnalysis) :
  CliOptions.version options = false →
  (2 ≤ length (CliOptions.positional options))%nat →
  let input := resolve o (default "" (CliOptions.positional options !! 0%nat)) in
  let optWidth := nullish (CliOptions.width options) (CliOptions.w options) in
  let optHeight := nullish (CliOptions.height options) (CliOptions.h options) in
  let optDuration := nullish (CliOptions.duration options) (CliOptions.d options) in
  fileExists o input = true →
  ffmpegInstalled o = true →
  documentElement o input = Ok doc →
  analyzeSVG doc = Ok a →
  gt (orElse optWidth (width (dimensions a))) 0%num = false
  ∨ gt (orElse optHeight (height (dimensions a))) 0%num = false
  ∨ (truthy_number optDuration = true ∧ gt (default NaN optDuration) 0%num = false) →
  main options o fuel = Some ([], 99).
Proof.
  intros V L input optWidth optHeight optDuration F G D A H.
  unfold main. rewrite V. rewrite bool_decide_eq_false_2 by lia.
  unfold main_plan, checkFFmpeg.
  fold input optWidth optHeight optDuration.
  rewrite F, G. simpl. rewrite D. simpl. rewrite A. simpl.
  destruct (validatePositiveNumber (orElse optWidth _) "Width") as [fw|e] eqn:W;
    [|simpl; by rewrite (validatePositiveNumber_exitCode _ _ _ W)].
  simpl.
  destruct (validatePositiveNumber (orElse optHeight _) "Height") as [fh|e] eqn:Hh;
    [|simpl; by rewrite (validatePositiveNumber_exitCode _ _ _ Hh)].
  simpl.
  apply validatePositiveNumber_Ok in W as [_ W].
  apply validatePositiveNumber_Ok in Hh as [_ Hh].
  destruct H as [H | [H | [T H]]]; [congruence | congruence |].
  unfold main_durationMs. rewrite T.
  by rewrite (validatePositiveNumber_Throw _ "Duration" H).
Qed.

Lemma X22_witness :
  main (args_negative_width ["a.svg"; "b.mp4"]) fine 0 = Some ([], 99).
Proof.
  refine (X22_rejected_number_exit_99 (args_negative_width ["a.svg"; "b.mp4"]) fine 0
            (Some doc_2s_x3) analysis_finite eq_refl _ eq_refl eq_refl eq_refl _ _).
  - simpl. lia.
  - by_evaluation.
  - left. by_evaluation.
Defined.

Section Work.

Implicit Types (o : Outside) (p : Plan) (acts : list action) (r : result unit).

(** What [main_work] can have done, by how it ended. *)
Lemma main_work_Some p o fuel acts r :
  main_work p o fuel = Some (acts, r) →
  ∃ calls,
    let html :=
      generateHTMLFile (inputPath p) (finalWidth p) (finalHeight p) (tempHtmlPath o) in
    let record := recordAnimationRun calls (printed 0%num (progressOf calls)) in
    let process :=
      processVideoRun (tempVideoPath o) (outputPath p) (finalWidth p) (finalHeight p) in
    (acts = [html] ∧ (∃ m, r = Throw (Error m)))
    ∨ (acts = [html; record] ∧ (∃ m, r = Throw (ProcessingError m)))
    ∨ (acts = [html; record; process] ∧ (∃ m, r = Throw (ProcessingError m)))
    ∨ (acts = [html; record; process; deleteFileRun (tempHtmlPath o)]
       ∧ (∃ m, r = Throw (Error m)))
    ∨ (acts = [html; record; process; deleteFileRun (tempHtmlPath o);
               deleteFileRun (tempVideoPath o)]
       ∧ (r = Ok tt ∨ ∃ m, r = Throw (Error m))).
Proof.
  unfold main_work.
  destruct (writeFile o _) as [m|].
  { intros [= <- <-]. exists []. simpl. left. eauto. }
  destruct (recordAnimation _ _ _ _ _ _) as [calls [recording|]] eqn:R; [|done].
  intros W. exists calls. simpl. revert R W. unfold recordAnimation.
  destruct (recordAnimation_try _ _ _ _ _ _ _) as [s [[]|m|]]; intros R; [| |done];
    injection R as <- <-.
  2:{ intros [= <- <-]. right; left. eauto. }
  unfold processVideo. destruct (ffmpegRun o _ _) as [m|].
  { intros [= <- <-]. right; right; left. eauto. }
  assert (∀ u, deleteFile u = Ok tt ∨ ∃ m, deleteFile u = Throw (Error m)) as Hd.
  { intros [c|]; [|by left]. unfold deleteFile. destruct (bool_decide _); eauto. }
  destruct (Hd (unlink o (tempHtmlPath o))) as [-> | [m ->]].
  - intros [= <- <-]. do 4 right. split; [done|].
    destruct (Hd (unlink o (tempVideoPath o))) as [-> | [m ->]]; eauto.
  - intros [= <- <-]. do 3 right. left. eauto.
Qed.

(** A run of [main_work] that ends normally has done everything. *)
Lemma main_work_Ok p o fuel acts :
  main_work p o fuel = Some (acts, Ok tt) →
  ∃ calls,
    writeFile o (tempHtmlPath o) = None
    ∧ recordAnimation (quietCallback (puppeteer o)) fuel
        (tempHtmlPath o) (tempVideoPath o)
        {| RecorderOptions.width := finalWidth p;
           RecorderOptions.height := finalHeight p;
           RecorderOptions.duration := durationMs p;
           RecorderOptions.fps := Some (finalFps p) |} true
      = (calls, Some (Ok tt))
    ∧ processVideo o (tempVideoPath o) (outputPath p) = Ok tt
    ∧ deleteFile (unlink o (tempHtmlPath o)) = Ok tt
    ∧ deleteFile (unlink o (tempVideoPath o)) = Ok tt
    ∧ acts = [generateHTMLFile (inputPath p) (finalWidth p) (finalHeight p)
                (tempHtmlPath o);
              recordAnimationRun calls (printed 0%num (progressOf calls));
              processVideoRun (tempVideoPath o) (outputPath p)
                (finalWidth p) (finalHeight p);
              deleteFileRun (tempHtmlPath o);
              deleteFileRun (tempVideoPath o)].
Proof.
  unfold main_work.
  destruct (writeFile o _) as [m|]; [done|].
  destruct (recordAnimation _ _ _ _ _ _) as [calls [[[]|e]|]]; [|done|done].
  destruct (processVideo o _ _) as [[]|e]; [|done].
  destruct (deleteFile (unlink o (tempHtmlPath o))) as [[]|e]; [|done].
  destruct (deleteFile (unlink o (tempVideoPath o))) as [[]|e] eqn:D;
    intros [= <-]. by exists calls.
Qed.

Lemma exitCode_not_0 (e : exn) : exitCode e ≠ 0.
Proof. by destruct e. Qed.

End Work.

(** X23. The temporary files are removed only at the very end of a run
    in which everything before succeeded.  When [main] ends with exit code
    0 it has either done nothing, because it was asked for its version or
    given fewer than two arguments, or it had a plan, wrote the page,
    recorded to the end, converted the recording and deleted both
    temporary files: these five actions, in this order, and no other.
    When it ends with exit code 1, 2 or 3 it has deleted nothing. *)
Theorem X23_cleanup_only_on_success
    (options : CliOptions.t) (o : Outside) (fuel : nat)
    (acts : list action) (code : Z) :
  main options o fuel = Some (acts, code) →
  (code = 0 →
   (acts = []
    ∧ (CliOptions.version options = true
       ∨ (length (CliOptions.positional options) < 2)%nat))
   ∨ ∃ (p : Plan) (calls : list call),
       main_plan options o = Ok p
       ∧ writeFile o (tempHtmlPath o) = None
       ∧ recordAnimation (quietCallback (puppeteer o)) fuel
           (tempHtmlPath o) (tempVideoPath o)
           {| RecorderOptions.width := finalWidth p;
              RecorderOptions.height := finalHeight p;
              RecorderOptions.duration := durationMs p;
              RecorderOptions.fps := Some (finalFps p) |} true
         = (calls, Some (Ok tt))
       ∧ processVideo o (tempVideoPath o) (outputPath p) = Ok tt
       ∧ acts = [generateHTMLFile (inputPath p) (finalWidth p) (finalHeight p)
                   (tempHtmlPath o);
                 recordAnimationRun calls (printed 0%num (progressOf calls));
                 processVideoRun (tempVideoPath o) (outputPath p)
                   (finalWidth p) (finalHeight p);
                 deleteFileRun (tempHtmlPath o);
                 deleteFileRun (tempVideoPath o)])
  ∧ (code = 1 ∨ code = 2 ∨ code = 3 → ∀ path, deleteFileRun path ∉ acts).
Proof.
  assert (∀ path, deleteFileRun path ∉ @nil action) as Hnil
    by (intros path H; by apply elem_of_nil in H).
  unfold main.
  destruct (CliOptions.version options) eqn:V.
  { destruct (version o) as [v|e]; intros [= <- <-]; (split; [|done]).
    - left. auto.
    - intros H. by apply exitCode_not_0 in H. }
  case_bool_decide as L.
  { intros [= <- <-]. split; [|done]. left. auto. }
  destruct (main_plan options o) as [p|e] eqn:P.
  2:{ intros [= <- <-]. split; [|done]. intros H. by apply exitCode_not_0 in H. }
  destruct (main_work p o fuel) as [[acts' r]|] eqn:W; [|done].
  destruct r as [[]|e]; intros [= <- <-].
  - apply main_work_Ok in W as (calls & Hw & Hr & Hp & _ & _ & ->).
    split; [|intros [? | [? | ?]]; done].
    intros _. right. by exists p, calls.
  - split; [intros H; by apply exitCode_not_0 in H|].
    apply main_work_Some in W as (calls & W). simpl in W.
    destruct W as [[-> [m E]] | [[-> [m E]] | [[-> [m E]] | [[-> [m E]] | [-> R]]]]].
    + injection E as ->. intros [? | [? | ?]]; done.
    + intros _ path H.
      repeat (apply elem_of_cons in H as [H|H]; [done|]). by apply elem_of_nil in H.
    + intros _ path H.
      repeat (apply elem_of_cons in H as [H|H]; [done|]). by apply elem_of_nil in H.
    + injection E as ->. intros [? | [? | ?]]; done.
    + destruct R as [R | [m R]]; [done|]. injection R as ->.
      intros [? | [? | ?]]; done.
Qed.

Lemma X23_witness :
  ∃ acts, main (args ["a.svg"; "b.mp4"]) encoder_fails 6 = Some (acts, 2)
    ∧ ∀ path, deleteFileRun path ∉ acts.
Proof.
  eexists. split; [vm_compute; reflexivity|].
  refine (proj2 (X23_cleanup_only_on_success (args ["a.svg"; "b.mp4"]) encoder_fails 6
                   _ 2 _) _).
  - vm_compute; reflexivity.
  - right. by left.
Defined.

(** ** A run in which nothing goes wrong *)

Section Run.

Implicit Types (w : world) (o : Outside) (p : Plan).

(** What is recorded depends on the world only through its answers. *)
Lemma bind_ext {A B} (m1 m2 : M A) (k1 k2 : A → M B) s :
  (∀ s', m1 s' = m2 s') → (∀ a s', k1 a s' = k2 a s') →
  bind m1 k1 s = bind m2 k2 s.
Proof.
  intros Hm Hk. unfold bind. rewrite Hm.
  by destruct (m2 s) as [s' [a| |]].
Qed.

Lemma perform_ext w1 w2 c s :
  (∀ before c', w1 before c' = w2 before c') → perform w1 c s = perform w2 c s.
Proof. intros H. unfold perform. by rewrite H. Qed.

Lemma waitLoop_ext w1 w2 cb fuel duration elapsed s :
  (∀ before c, w1 before c = w2 before c) →
  waitLoop w1 cb fuel duration elapsed s = waitLoop w2 cb fuel duration elapsed s.
Proof.
  intros H. revert elapsed s.
  induction fuel as [|fuel IH]; intros elapsed s; cbn [waitLoop]; [done|].
  destruct (lt elapsed duration); [|done].
  apply bind_ext; [intros; by apply perform_ext|]. intros _ s1.
  apply bind_ext; [|intros; apply IH].
  intros s2. destruct cb; [by apply perform_ext|done].
Qed.

Lemma recordAnimation_ext w1 w2 fuel htmlPath outputPath options cb :
  (∀ before c, w1 before c = w2 before c) →
  recordAnimation w1 fuel htmlPath outputPath options cb
  = recordAnimation w2 fuel htmlPath outputPath options cb.
Proof.
  intros H. unfold recordAnimation.
  assert (∀ s, recordAnimation_try w1 fuel htmlPath outputPath options cb s
               = recordAnimation_try w2 fuel htmlPath outputPath options cb s) as ->.
  { intros s. unfold recordAnimation_try.
    repeat (apply bind_ext;
            [intros; first [by apply perform_ext | by apply waitLoop_ext | done]
            |intros _ ?]).
    by apply perform_ext. }
  done.
Qed.

Lemma progressOf_app (l1 l2 : list call) :
  progressOf (l1 ++ l2) = (progressOf l1 ++ progressOf l2)%list.
Proof. apply omap_app. Qed.

(** The callback of [main] prints a report of 100 whatever it printed
    before, and prints nothing that was not reported. *)
Lemma printed_last (reports : list number) (lastProgress : number) :
  last reports = Some (of_Z 100) →
  last (printed lastProgress reports) = Some (of_Z 100).
Proof.
  revert lastProgress.
  induction reports as [|x [|y rest] IH]; intros lastProgress; [done| |].
  - intros [= ->]. cbn [printed]. unfold printsProgress.
    replace (strict_eq (of_Z 100) (of_Z 100)) with true by by_evaluation.
    by rewrite orb_true_r.
  - intros H. change (last (x :: y :: rest)) with (last (y :: rest)) in H.
    change (printed lastProgress (x :: y :: rest))
      with (if printsProgress lastProgress x then x :: printed x (y :: rest)
            else printed lastProgress (y :: rest)).
    destruct (printsProgress lastProgress x).
    + specialize (IH x H).
      destruct (printed x (y :: rest)) as [|z l] eqn:E; [done|].
      exact IH.
    + by apply IH.
Qed.

Lemma printed_sublist (reports : list number) (lastProgress : number) :
  printed lastProgress reports `sublist_of` reports.
Proof.
  revert lastProgress. induction reports as [|x rest IH]; intros lastProgress; [done|].
  cbn [printed]. destruct (printsProgress lastProgress x).
  - by apply sublist_skip.
  - by apply sublist_cons.
Qed.

End Run.

(** X24. The work of [main] when nothing goes wrong.  Let [main] have
    settled on a duration that is finite, greater than zero and at most
    [MAX_SAFE_INTEGER]; let the page be written, the browser and the
    recorder answer every call, FFmpeg convert the recording, and the
    temporary files be removed or already gone.  Then [main] writes the
    page, records, converts and deletes both temporary files, in this
    order, and nothing throws.  The recording is the one of
    [recordAnimation] for the size, duration and frame rate settled on:
    between start and stop it only waits and reports progress, and the
    waits add up to exactly the duration.  Of the progress reports [main]
    prints a selection that ends with 100. *)
Theorem X24_successful_run (o : Outside) (fuel : nat) (p : Plan) (d : Qc) :
  durationMs p = Fin d →
  gt (Fin d) 0%num = true →
  le (Fin d) (of_Z MAX_SAFE_INTEGER) = true →
  le (Fin d) (of_Z (1000 * Z.of_nat fuel)) = true →
  (∀ before c, puppeteer o before c = None) →
  writeFile o (tempHtmlPath o) = None →
  ffmpegRun o (tempVideoPath o) (outputPath p) = None →
  (∀ path, unlink o path = None ∨ unlink o path = Some "ENOENT") →
  let recorderOptions :=
    {| RecorderOptions.width := finalWidth p;
       RecorderOptions.height := finalHeight p;
       RecorderOptions.duration := durationMs p;
       RecorderOptions.fps := Some (finalFps p) |} in
  ∃ (calls evs : list call),
    main_work p o fuel
    = Some ([generateHTMLFile (inputPath p) (finalWidth p) (finalHeight p)
               (tempHtmlPath o);
             recordAnimationRun calls (printed 0%num (progressOf calls));
             processVideoRun (tempVideoPath o) (outputPath p)
               (finalWidth p) (finalHeight p);
             deleteFileRun (tempHtmlPath o);
             deleteFileRun (tempVideoPath o)], Ok tt)
    ∧ calls = (callsBefore (tempHtmlPath o) (tempVideoPath o) recorderOptions
               ++ evs ++ callsAfter)%list
    ∧ Forall loopCall evs
    ∧ total (waitsOf evs) = durationMs p
    ∧ Forall (λ ms, gt ms 0%num = true ∧ le ms (of_Z 1000) = true) (waitsOf evs)
    ∧ printed 0%num (progressOf calls) `sublist_of` progressOf calls
    ∧ last (printed 0%num (progressOf calls)) = Some (of_Z 100).
Proof.
  intros Hd Hpos _ Hfuel Hcalm Hwrite Hffmpeg Hunlink recorderOptions.
  destruct (recordAnimation_calm fuel (tempHtmlPath o) (tempVideoPath o)
              recorderOptions true d Hd Hpos Hfuel)
    as (evs & zs & E & Hc & Ht & Hw & Hp & _ & _ & _ & Hlast).
  exists (callsBefore (tempHtmlPath o) (tempVideoPath o) recorderOptions
          ++ evs ++ callsAfter)%list, evs.
  assert (∀ path, deleteFile (unlink o path) = Ok tt) as Hdel.
  { intros path. by destruct (Hunlink path) as [-> | ->]. }
  split; [|split; [done|split; [done|split; [by rewrite Hd|split;
            [done|split; [apply printed_sublist|]]]]]].
  - unfold main_work. rewrite Hwrite.
    rewrite (recordAnimation_ext (quietCallback (puppeteer o)) calm).
    2:{ intros before c. unfold quietCallback, calm. destruct c; by rewrite ?Hcalm. }
    fold recorderOptions. rewrite E.
    unfold processVideo. rewrite Hffmpeg. by rewrite !Hdel.
  - apply printed_last. rewrite !progressOf_app, Hp.
    change (progressOf (callsBefore _ _ _)) with (@nil number).
    change (progressOf callsAfter) with (@nil number).
    rewrite app_nil_l, app_nil_r, fmap_last, Hlast. done.
Qed.

Lemma X24_witness :
  ∃ (calls evs : list call),
    main_work plan_6s fine 6
    = Some ([generateHTMLFile "/work/a.svg" (of_Z 100) (of_Z 50) "/tmp/svg-video-a.html";
             recordAnimationRun calls (printed 0%num (progressOf calls));
             processVideoRun "/tmp/svg-video-b.webm" "/work/b.mp4" (of_Z 100) (of_Z 50);
             deleteFileRun "/tmp/svg-video-a.html";
             deleteFileRun "/tmp/svg-video-b.webm"], Ok tt)
    ∧ calls = (callsBefore "/tmp/svg-video-a.html" "/tmp/svg-video-b.webm"
                 {| RecorderOptions.width := of_Z 100;
                    RecorderOptions.height := of_Z 50;
                    RecorderOptions.duration := of_Z 6000;
                    RecorderOptions.fps := Some (of_Z 30) |}
               ++ evs ++ callsAfter)%list
    ∧ Forall loopCall evs
    ∧ total (waitsOf evs) = of_Z 6000
    ∧ Forall (λ ms, gt ms 0%num = true ∧ le ms (of_Z 1000) = true) (waitsOf evs)
    ∧ printed 0%num (progressOf calls) `sublist_of` progressOf calls
    ∧ last (printed 0%num (progressOf calls)) = Some (of_Z 100).
Proof.
  refine (X24_successful_run fine 6 plan_6s (Q2Qc (inject_Z 6000))
            eq_refl eq_refl eq_refl _ _ eq_refl eq_refl _).
  - vm_compute; reflexivity.
  - done.
  - intros path. by left.
Defined.

(** ** The time estimate *)

Section Estimate.

Lemma inject_Z_nonneg (z : Z) : (-1 < inject_Z z)%Q → 0 ≤ z.
Proof. unfold Qlt. simpl. lia. Qed.

Lemma inject_Z_below (z k : Z) : (inject_Z z < inject_Z k)%Q → z < k.
Proof. unfold Qlt. simpl. lia. Qed.

Lemma Qfloor_bounds (x : Q) :
  (inject_Z (Qfloor x) <= x)%Q ∧ (x < inject_Z (Qfloor x) + 1)%Q.
Proof.
  split; [apply Qfloor_le|].
  pose proof (Qlt_floor x) as H. by rewrite inject_Z_plus in H.
Qed.

Lemma Qc_div_mul (a c : Qc) : c ≠ 0%Qc → (a / c * c = a)%Qc.
Proof. intros H. by field. Qed.

Variable d : Qc.
Hypothesis Hd : (0 < d)%Qc.

Let c1000 : Qc := Q2Qc (inject_Z 1000).
Let c60 : Qc := Q2Qc (inject_Z 60).
Let seconds : Qc := (d / c1000)%Qc.
Let minutes : Qc := (seconds / c60)%Qc.

Lemma seconds_eq : (this seconds * 1000 == this d)%Q.
Proof.
  assert (seconds * c1000 = d)%Qc as H by (by apply Qc_div_mul).
  transitivity (this (seconds * c1000)%Qc); [|by rewrite H].
  rewrite Qc_this_mult. unfold c1000. by rewrite Qc_this_Q2Qc.
Qed.

Lemma minutes_eq : (this minutes * 60 == this seconds)%Q.
Proof.
  assert (minutes * c60 = seconds)%Qc as H by (by apply Qc_div_mul).
  transitivity (this (minutes * c60)%Qc); [|by rewrite H].
  rewrite Qc_this_mult. unfold c60. by rewrite Qc_this_Q2Qc.
Qed.

Lemma minutes_nonneg : ¬ (minutes < 0)%Qc.
Proof.
  pose proof seconds_eq as S. pose proof minutes_eq as M.
  intros H. unfold Qclt in *. change (this 0%Qc) with 0%Q in *. lra.
Qed.

Lemma estimatedMinutes_Fin :
  estimatedMinutes (Fin d) = of_Z (Qfloor (this minutes)).
Proof. done. Qed.

Lemma estimatedSeconds_Fin :
  estimatedSeconds (Fin d)
  = of_Z (Qfloor (this (seconds - c60 * Q2Qc (inject_Z (Qfloor (this minutes))))%Qc
                  + (1 # 2))).
Proof.
  assert (is_zero c1000 = false) as Z1 by done.
  assert (is_zero c60 = false) as Z2 by done.
  unfold estimatedSeconds, div, rem, of_Z.
  fold c1000 c60. rewrite Z1, Z2. fold seconds minutes.
  unfold truncate. by rewrite (bool_decide_eq_false_2 _ minutes_nonneg).
Qed.

Lemma estimate_bounds :
  let m := Qfloor (this minutes) in
  let s := Qfloor (this (seconds - c60 * Q2Qc (inject_Z m))%Qc + (1 # 2)) in
  0 ≤ m ∧ 0 ≤ s ≤ 60
  ∧ (this d - 500 < inject_Z (1000 * (60 * m + s)))%Q
  ∧ (inject_Z (1000 * (60 * m + s)) <= this d + 500)%Q.
Proof.
  intros m s.
  pose proof seconds_eq as S. pose proof minutes_eq as M.
  pose proof minutes_nonneg as N. apply Qcnot_lt_le in N.
  unfold Qcle in N. change (this 0%Qc) with 0%Q in N.
  destruct (Qfloor_bounds (this minutes)) as [M1 M2]. fold m in M1, M2.
  assert (this (seconds - c60 * Q2Qc (inject_Z m))%Qc
          == this seconds - 60 * inject_Z m)%Q as R.
  { rewrite Qc_this_minus, Qc_this_mult. unfold c60. by rewrite !Qc_this_Q2Qc. }
  destruct (Qfloor_bounds (this (seconds - c60 * Q2Qc (inject_Z m))%Qc + (1 # 2)))
    as [S1 S2].
  fold s in S1, S2. rewrite R in S1, S2.
  assert (inject_Z (1000 * (60 * m + s)) == 1000 * (60 * inject_Z m + inject_Z s))%Q
    as E by (by rewrite !inject_Z_mult, inject_Z_plus, inject_Z_mult).
  rewrite E.
  split; [apply inject_Z_nonneg; lra|].
  split; [split; [apply inject_Z_nonneg; lra|]|].
  - apply Z.lt_succ_r. apply inject_Z_below.
    change (inject_Z (Z.succ 60)) with 61%Q. lra.
  - split; lra.
Qed.

End Estimate.

(** X7. For a finite duration greater than zero and at most
    [MAX_SAFE_INTEGER], the minutes and the
    seconds of the time estimate that [main] announces are whole numbers,
    the minutes not negative and the seconds between 0 and 60, both
    included; together they are within half a second of the duration.
    The seconds can be 60: a duration of 119600 ms is announced as one
    minute and sixty seconds. *)
Theorem X7_time_estimate (d : Qc) :
  gt (Fin d) 0%num = true →
  le (Fin d) (of_Z MAX_SAFE_INTEGER) = true →
  ∃ m s : Z,
    estimatedMinutes (Fin d) = of_Z m
    ∧ estimatedSeconds (Fin d) = of_Z s
    ∧ 0 ≤ m ∧ 0 ≤ s ≤ 60
    ∧ (this d - 500 < inject_Z (1000 * (60 * m + s)))%Q
    ∧ (inject_Z (1000 * (60 * m + s)) <= this d + 500)%Q.
Proof.
  intros Hd _. apply bool_decide_eq_true in Hd.
  eexists _, _. split; [apply estimatedMinutes_Fin|].
  split; [by apply estimatedSeconds_Fin|].
  by apply estimate_bounds.
Qed.

Lemma X7_witness :
  timeEstimate (of_Z 119600) = MinutesSeconds (of_Z 1) (of_Z 60)
  ∧ ∃ m s : Z,
      estimatedMinutes (of_Z 119600) = of_Z m
      ∧ estimatedSeconds (of_Z 119600) = of_Z s
      ∧ 0 ≤ m ∧ 0 ≤ s ≤ 60
      ∧ (119600 - 500 < inject_Z (1000 * (60 * m + s)))%Q
      ∧ (inject_Z (1000 * (60 * m + s)) <= 119600 + 500)%Q.
Proof.
  split; [vm_compute; reflexivity|].
  exact (X7_time_estimate (Q2Qc (inject_Z 119600)) eq_refl eq_refl).
Defined.
